(** * Mingle: the post interaction and lifecycle engine

    A shallow embedding of the Express/Mongoose handlers of the repository
    (the routes for posts, topics and accounts, and the Post model with its
    pre-save hook), followed by the properties of the vote engine, the status
    resolver, the comment appender, the queries and the account routes.

    Conventions of the embedding.
    - A JavaScript string is its sequence of UTF-16 code units ([jsstring]),
      so [length] is the [.length] of the source.
    - A JavaScript number is [NaN], an infinity or [Fin z], [z] being the
      integer value of a double.  What reads a number from digits (a JSON
      body, [parseInt]) rounds to the nearest double by [ofInteger], and
      [String] prints a number as Number::toString does, with an exponent
      from [1e21] on.  The sums the handlers compute (a clock reading plus
      minutes, a counter plus one) are taken as exact, as they are up to
      [2 ^ 53].  Numbers with a fraction are not modelled.
    - A handler runs against a [World]: the posts collection, the readings the
      clock will give to the successive [Date.now()] calls, and the ObjectIds
      the driver will generate.  One handler runs at a time; interleavings of
      concurrent requests are not modelled.
    - [res.status(c).json(..)] followed by [return] is an early exit of the
      handler monad [Route].
    - The document a handler fetched is a local value; [post.save()] runs the
      pre-save hook and writes the document under its [_id].
    - The authenticated identity comes from the token signed by the auth
      routes, whose [userId] is [user._id.toString()]; it is carried here as
      the ObjectId it denotes.  Schema validation of that identity, the
      [updatedAt] bookkeeping of the [timestamps] option and failures of the
      database (the [catch]/[next(err)] path) are outside the model: [save]
      and [create] store the document.
    - What belongs to Mongoose, the driver and the Date parser is the
      interface [Platform]; the routes are written over any instance of it. *)

From Stdlib Require Import ZArith NArith List Bool Lia DecimalPos.
From stdpp Require Import base option list gmap sets sorting strings.

Local Open Scope Z_scope.

(* ===================================================================== *)
(** * The JavaScript runtime the handlers rely on *)
(* ===================================================================== *)

Module JS.

(** A string, as UTF-16 code units. *)
Abbreviation jsstring := (list N).

(** An ASCII literal as a [jsstring]. *)
Fixpoint lit (s : string) : jsstring :=
  match s with
  | EmptyString => []
  | String a r => Ascii.N_of_ascii a :: lit r
  end.

(** WhiteSpace and LineTerminator code units, the ones [trim] and
    [parseInt] strip. *)
Definition isWhiteSpace (c : N) : bool :=
  ((9 <=? c) && (c <=? 13) || (c =? 32) || (c =? 160) || (c =? 5760)
   || (8192 <=? c) && (c <=? 8202) || (c =? 8232) || (c =? 8233)
   || (c =? 8239) || (c =? 8287) || (c =? 12288) || (c =? 65279))%N.

Fixpoint trimStart (s : jsstring) : jsstring :=
  match s with
  | c :: r => if isWhiteSpace c then trimStart r else s
  | [] => []
  end.

Definition trimEnd (s : jsstring) : jsstring := rev (trimStart (rev s)).

(** [String.prototype.trim] *)
Definition trim (s : jsstring) : jsstring := trimEnd (trimStart s).

(** Numbers. *)
Inductive Number :=
  | NaN
  | Inf (negative : bool)
  | Fin (z : Z).

(** The double nearest to a mathematical integer, a tie going to the even
    significand.  A double has a significand of 53 bits, so the integers up
    to [2 ^ 53] in magnitude are doubles themselves; beyond, the bits below
    the 53 leading ones are rounded away. *)
Definition roundDouble (z : Z) : Z :=
  let a := Z.abs z in
  let e := Z.log2 a - 52 in
  if e <=? 0 then z
  else
    let q := Z.shiftr a e in
    let r := Z.land a (Z.ones e) in
    let half := Z.shiftl 1 (e - 1) in
    let q' := if (half <? r) || ((r =? half) && Z.odd q) then q + 1 else q in
    Z.sgn z * Z.shiftl q' e.

(** The Number value of a mathematical integer: the nearest double; beyond
    the largest double the rounding overflows to an infinity.  [Fin] always
    holds the integer value of a double. *)
Definition ofInteger (z : Z) : Number :=
  if 2 ^ 1024 - 2 ^ 970 <=? Z.abs z then Inf (z <? 0) else Fin (roundDouble z).

Definition isFinite (n : Number) : bool :=
  match n with Fin _ => true | _ => false end.

(** [a < b] on numbers; any comparison with [NaN] is false. *)
Definition lt (a b : Number) : bool :=
  match a, b with
  | NaN, _ | _, NaN => false
  | Fin x, Fin y => x <? y
  | Inf true, Inf true => false
  | Inf true, _ => true
  | _, Inf false => match a with Inf false => false | _ => true end
  | _, _ => false
  end.

Definition gt (a b : Number) : bool := lt b a.

Definition Math_min (a b : Number) : Number :=
  match a, b with
  | NaN, _ | _, NaN => NaN
  | _, _ => if lt b a then b else a
  end.

Definition Math_max (a b : Number) : Number :=
  match a, b with
  | NaN, _ | _, NaN => NaN
  | _, _ => if lt a b then b else a
  end.

(** Decimal digits. *)
Definition isDigit (c : N) : bool := ((48 <=? c) && (c <=? 57))%N.

Fixpoint digitsPrefix (s : jsstring) : jsstring :=
  match s with
  | c :: r => if isDigit c then c :: digitsPrefix r else []
  | [] => []
  end.

Definition digitsValue (ds : jsstring) : Z :=
  fold_left (fun acc c => 10 * acc + (Z.of_N c - 48)) ds 0.

(** [Number.parseInt(s, 10)] on a string: leading white space is skipped, one
    sign is read, then the longest run of digits; no digit gives [NaN]. *)
Definition parseInt10 (s : jsstring) : Number :=
  let t := trimStart s in
  let '(sign, body) :=
    match t with
    | 45%N :: r => (-1, r)
    | 43%N :: r => (1, r)
    | _ => (1, t)
    end in
  match digitsPrefix body with
  | [] => NaN
  | ds => ofInteger (sign * digitsValue ds)
  end.

(** Values that reach the handlers in a request body or query.  [JNum z] is
    the number a JSON body holds for the integer literal [z], that is the
    double nearest to [z]; numbers with a fraction are not modelled.  [JObj]
    is a plain object with no member named [toString] (on which [String]
    would throw). *)
#[warnings="-register-all"]
Inductive Value :=
  | JUndefined
  | JNull
  | JBool (b : bool)
  | JNum (z : Z)
  | JStr (s : jsstring)
  | JArr (items : list Value)
  | JObj.

(** The decimal digits of a natural number, most significant first. *)
Fixpoint digitsOfUint (u : Decimal.uint) : jsstring :=
  match u with
  | Decimal.Nil => []
  | Decimal.D0 r => 48%N :: digitsOfUint r
  | Decimal.D1 r => 49%N :: digitsOfUint r
  | Decimal.D2 r => 50%N :: digitsOfUint r
  | Decimal.D3 r => 51%N :: digitsOfUint r
  | Decimal.D4 r => 52%N :: digitsOfUint r
  | Decimal.D5 r => 53%N :: digitsOfUint r
  | Decimal.D6 r => 54%N :: digitsOfUint r
  | Decimal.D7 r => 55%N :: digitsOfUint r
  | Decimal.D8 r => 56%N :: digitsOfUint r
  | Decimal.D9 r => 57%N :: digitsOfUint r
  end.

Definition decimal (z : Z) : jsstring :=
  match z with
  | Z0 => [48%N]
  | Zpos p => digitsOfUint (Pos.to_uint p)
  | Zneg p => 45%N :: digitsOfUint (Pos.to_uint p)
  end.

Fixpoint joinWith (sep : jsstring) (parts : list jsstring) : jsstring :=
  match parts with
  | [] => []
  | [p] => p
  | p :: rest => p ++ sep ++ joinWith sep rest
  end.

(** The digits of Number::toString for a double [a] above [2 ^ 53]: the
    greatest power [e] of ten, and with it the digits [s], such that
    [s * 10 ^ e] reads back as [a]; of two such [s] the one nearer to [a],
    and the even one if they are as near.  The search goes down from [e],
    which starts at the number of digits of [a]. *)
Fixpoint shortestDigits (e : nat) (a : Z) : Z * nat :=
  match e with
  | O => (a, O)
  | S e' =>
      let p := 10 ^ Z.of_nat e in
      let lo := a / p * p in
      let hi := lo + p in
      let okLo := (0 <? lo) && (roundDouble lo =? a) in
      let okHi := roundDouble hi =? a in
      if okLo && okHi then
        if (a - lo <? hi - a) || ((a - lo =? hi - a) && Z.even (lo / p))
        then (lo / p, e) else (hi / p, e)
      else if okLo then (lo / p, e)
      else if okHi then (hi / p, e)
      else shortestDigits e' a
  end.

(** Number::toString on the integer value [d] of a double.  Up to [2 ^ 53]
    the digits are those of [d]; beyond, the shortest digits that read back
    as [d], filled up with zeros while the number has at most 21 digits and
    in exponent notation from [1e21] on. *)
Definition integerToString (d : Z) : jsstring :=
  if Z.abs d <=? 2 ^ 53 then decimal d
  else
    let '(s, e) := shortestDigits (length (decimal (Z.abs d))) (Z.abs d) in
    let ds := decimal s in
    let n := (length ds + e)%nat in
    (if d <? 0 then [45%N] else [])
    ++ (if (n <=? 21)%nat then ds ++ replicate e 48%N
        else match ds with
             | [] => []
             | [c] => c :: lit "e+" ++ decimal (Z.of_nat n - 1)
             | c :: rest =>
                 c :: 46%N :: rest ++ lit "e+" ++ decimal (Z.of_nat n - 1)
             end).

(** Number::toString on the numbers of the model. *)
Definition NumberToString (n : Number) : jsstring :=
  match n with
  | NaN => lit "NaN"
  | Inf true => lit "-Infinity"
  | Inf false => lit "Infinity"
  | Fin d => integerToString d
  end.

(** [String(v)] *)
Fixpoint String_ (v : Value) : jsstring :=
  match v with
  | JUndefined => lit "undefined"
  | JNull => lit "null"
  | JBool true => lit "true"
  | JBool false => lit "false"
  | JNum z => NumberToString (ofInteger z)
  | JStr s => s
  | JArr items =>
      joinWith (lit ",")
        (List.map (fun x => match x with
                            | JUndefined | JNull => []
                            | _ => String_ x
                            end) items)
  | JObj => lit "[object Object]"
  end.

(** Truthiness, as [||] and [if] read it. *)
Definition truthy (v : Value) : bool :=
  match v with
  | JUndefined | JNull | JBool false | JNum 0 | JStr [] => false
  | _ => true
  end.

(** [v || d] *)
Definition or_ (v d : Value) : Value := if truthy v then v else d.

(** [Number.parseInt(v, 10)] on any value: the value is first made a string. *)
Definition parseInt (v : Value) : Number := parseInt10 (String_ v).

(** A Date holds a time value in milliseconds, or is invalid. *)
Definition Date := option Z.

(** TimeClip: a time value beyond 8.64e15 ms makes the Date invalid. *)
Definition TimeClip (n : Number) : Date :=
  match n with
  | Fin t => if Z.abs t <=? 8640000000000000 then Some t else None
  | _ => None
  end.

End JS.
Import JS.

(* ===================================================================== *)
(** * The data model (models/Post.js) *)
(* ===================================================================== *)

(** A 12-byte ObjectId, as the number it encodes. *)
Abbreviation ObjectId := N.

(** [a.equals(b)] on ObjectIds *)
Definition equals (a b : ObjectId) : bool := (a =? b)%N.

Inductive Status := Live | Expired.

Global Instance Status_eq_dec : EqDecision Status.
Proof. solve_decision. Defined.

(** The [{userId, name}] snapshot of an owner, of a commenter, and the
    authenticated identity of a request. *)
Record User := { userId : ObjectId; name : jsstring }.

Module Comment.
Record t := {
  _id : ObjectId;
  user : User;
  text : jsstring;
  createdAt : Z;
}.
End Comment.

Record Post := {
  _id : ObjectId;
  title : jsstring;
  topics : list jsstring;
  body : jsstring;
  createdAt : Z;
  expiresAt : Z;
  status : Status;
  owner : User;
  likesCount : Z;
  dislikesCount : Z;
  likedBy : list ObjectId;
  dislikedBy : list ObjectId;
  comments : list Comment.t;
}.

(** Assignments to the fields the handlers write. *)
Definition set_status (v : Status) (p : Post) : Post :=
  {| _id := _id p; title := title p; topics := topics p; body := body p;
     createdAt := createdAt p; expiresAt := expiresAt p; status := v;
     owner := owner p; likesCount := likesCount p;
     dislikesCount := dislikesCount p; likedBy := likedBy p;
     dislikedBy := dislikedBy p; comments := comments p |}.

Definition set_likes (by_ : list ObjectId) (count : Z) (p : Post) : Post :=
  {| _id := _id p; title := title p; topics := topics p; body := body p;
     createdAt := createdAt p; expiresAt := expiresAt p; status := status p;
     owner := owner p; likesCount := count;
     dislikesCount := dislikesCount p; likedBy := by_;
     dislikedBy := dislikedBy p; comments := comments p |}.

Definition set_dislikes (by_ : list ObjectId) (count : Z) (p : Post) : Post :=
  {| _id := _id p; title := title p; topics := topics p; body := body p;
     createdAt := createdAt p; expiresAt := expiresAt p; status := status p;
     owner := owner p; likesCount := likesCount p;
     dislikesCount := count; likedBy := likedBy p;
     dislikedBy := by_; comments := comments p |}.

Definition set_comments (cs : list Comment.t) (p : Post) : Post :=
  {| _id := _id p; title := title p; topics := topics p; body := body p;
     createdAt := createdAt p; expiresAt := expiresAt p; status := status p;
     owner := owner p; likesCount := likesCount p;
     dislikesCount := dislikesCount p; likedBy := likedBy p;
     dislikedBy := dislikedBy p; comments := cs |}.

Definition TOPICS : list jsstring :=
  [lit "Politics"; lit "Health"; lit "Sport"; lit "Tech"].

(** [TOPICS.includes(v)] *)
Definition TOPICS_includes (v : Value) : bool :=
  match v with
  | JStr s => bool_decide (s ∈ TOPICS)
  | _ => false
  end.

(* ===================================================================== *)
(** * What the handlers take from Mongoose, the driver and the Date parser *)
(* ===================================================================== *)

Class Platform := {
  (** [mongoose.isValidObjectId] on a string *)
  isValidObjectId : jsstring → bool;
  (** the ObjectId a valid id string is cast to by [findById] *)
  toObjectId : jsstring → ObjectId;
  (** [new Date(s)] on a string *)
  Date_parse : jsstring → Date;
  (** what a cursor does with the arguments of [.skip(n)] and [.limit(n)] *)
  cursor_skip : ∀ A : Type, Number → list A → list A;
  cursor_limit : ∀ A : Type, Number → list A → list A;
}.
Global Arguments cursor_skip {_ _} _ _.
Global Arguments cursor_limit {_ _} _ _.

(* ===================================================================== *)
(** * The world of a handler, and the handler monad *)
(* ===================================================================== *)

Record World := {
  db : gmap ObjectId Post;   (* the posts collection *)
  clock : nat → Z;           (* the readings of the coming Date.now() calls *)
  oids : nat → ObjectId;     (* the coming generated ObjectIds *)
}.

(** What a handler sends: [res.status(code).json(...)]. *)
Inductive Reply :=
  | Error (code : Z) (error : string)
  | PostJson (code : Z) (post : Post)
  | PostsJson (code : Z) (posts : list Post)
  | VoteJson (code : Z) (message : string) (likes dislikes : Z)
  | CommentJson (code : Z) (message : string) (commentsCount : nat)
      (comment : option Comment.t).

(** A handler step either has already sent its reply (and returned) or goes
    on with a value. *)
Definition Route (A : Type) : Type := World → (Reply + A) * World.

Global Instance Route_ret : MRet Route := λ A (x : A) w, (inr x, w).
Global Instance Route_bind : MBind Route := λ A B (k : A → Route B) (m : Route A) w,
  match m w with
  | (inl r, w') => (inl r, w')
  | (inr x, w') => k x w'
  end.

(** [return res.status(..).json(..)] *)
Definition send {A} (r : Reply) : Route A := λ w, (inl r, w).

(** [if (c) return res...] *)
Definition when_ (c : bool) (r : Reply) : Route unit :=
  if c then send r else mret tt.

(** Runs a handler to the reply it sends. *)
Definition handle (h : Route Reply) (w : World) : Reply * World :=
  match h w with
  | (inl r, w') | (inr r, w') => (r, w')
  end.

(** [Date.now()] *)
Definition Date_now : Route Z := λ w,
  (inr (clock w 0%nat),
   {| db := db w; clock := λ n, clock w (S n); oids := oids w |}).

(** A generated ObjectId. *)
Definition newObjectId : Route ObjectId := λ w,
  (inr (oids w 0%nat),
   {| db := db w; clock := clock w; oids := λ n, oids w (S n) |}).

(** The document of the collection with this [_id], if any. *)
Definition lookupPost (i : ObjectId) : Route (option Post) := λ w,
  (inr (db w !! i), w).

(** Writes the document under its [_id]. *)
Definition storePost (p : Post) : Route unit := λ w,
  (inr tt, {| db := <[_id p := p]> (db w); clock := clock w; oids := oids w |}).

(** The documents of the collection, in its natural order. *)
Definition allPosts : Route (list Post) := λ w,
  (inr ((map_to_list (db w)).*2), w).

(* ===================================================================== *)
(** * The Post model's hook and the routes *)
(* ===================================================================== *)

(** [now < new Date(expiresAt).getTime() ? "Live" : "Expired"]: the
    comparison both [computeStatus] and the pre-save hook make.  The time value
    of an invalid Date is [NaN], and no number is less than it. *)
Definition statusAt (now : Z) (expiresAt : Date) : Status :=
  match expiresAt with
  | Some exp => if now <? exp then Live else Expired
  | None => Expired
  end.

(** [PostSchema.pre("save")] *)
Definition preSave (this : Post) : Route Post :=
  now ← Date_now;
  mret (set_status (statusAt now (Some (expiresAt this))) this).

(** [post.save()]: the hook runs, then the document is written. *)
Definition save (post : Post) : Route Post :=
  post ← preSave post;
  storePost post;;
  mret post.

(** [toInt(value, fallback)] *)
Definition toInt (value : Value) (fallback : Z) : Z :=
  let n := parseInt value in
  match n with
  | Fin z => z
  | _ => fallback
  end.

(** [isValidTopicList(topics)] *)
Definition isValidTopicList (topics : Value) : bool :=
  match topics with
  | JArr items => (0 <? length items)%nat && forallb TOPICS_includes items
  | _ => false
  end.

(** The strings of a valid topic list. *)
Definition topicStrings (topics : Value) : list jsstring :=
  match topics with
  | JArr items =>
      omap (λ v, match v with JStr s => Some s | _ => None end) items
  | _ => []
  end.

(** [computeStatus(expiresAt)] *)
Definition computeStatus (expiresAt : Date) : Route Status :=
  now ← Date_now;
  mret (statusAt now expiresAt).

(** [refreshPostStatusIfNeeded(post)]; the document it may have changed is
    returned with the status. *)
Definition refreshPostStatusIfNeeded (post : Post) : Route (Status * Post) :=
  statusNow ← computeStatus (Some (expiresAt post));
  if bool_decide (status post ≠ statusNow) then
    post ← save (set_status statusNow post);
    mret (statusNow, post)
  else mret (statusNow, post).

Section Routes.
Context `{Platform}.

(** [new Date(v)] *)
Definition newDate (v : Value) : Date :=
  match v with
  | JStr s => Date_parse s
  | JArr _ | JObj => Date_parse (String_ v)
  | JNum z => TimeClip (ofInteger z)
  | JBool b => TimeClip (Fin (if b then 1 else 0))
  | JNull => TimeClip (Fin 0)
  | JUndefined => None
  end.

(** [Post.findById(id)] *)
Definition findById (id : jsstring) : Route (option Post) :=
  lookupPost (toObjectId id).

(** [Post.create({title, topics, body, expiresAt, owner, status})]: the
    schema defaults fill the other fields, then the document is saved. *)
Definition Post_create (title : jsstring) (topics : list jsstring)
    (body : jsstring) (expiresAt : Z) (owner : User) (status : Status)
    : Route Post :=
  createdAt ← Date_now;
  id ← newObjectId;
  save {| _id := id; title := title; topics := topics; body := body;
          createdAt := createdAt; expiresAt := expiresAt; status := status;
          owner := owner; likesCount := 0; dislikesCount := 0;
          likedBy := []; dislikedBy := []; comments := [] |}.

(** [router.post("/")]: create a post. *)
Definition createPost (req_user : User)
    (req_title req_body req_topics req_expiresInMinutes req_expiresAt : Value)
    : Route Reply :=
  let title := trim (String_ (or_ req_title (JStr []))) in
  let body := trim (String_ (or_ req_body (JStr []))) in
  let topics := req_topics in
  let expiresInMinutes := req_expiresInMinutes in
  let expiresAtRaw := req_expiresAt in
  when_ ((length title <? 6)%nat || (120 <? length title)%nat)
    (Error 400 "Title must be 6–120 characters");;
  when_ ((length body <? 1)%nat || (2000 <? length body)%nat)
    (Error 400 "Body must be 1–2000 characters");;
  when_ (negb (isValidTopicList topics))
    (Error 400 "Topics must include: Politics, Health, Sport, Tech");;
  expiresAt ←
    (if truthy expiresAtRaw then mret (newDate expiresAtRaw)
     else
       let mins := toInt expiresInMinutes 60 in
       when_ ((mins <? 1) || (60 * 24 * 7 <? mins))
         (Error 400 "expiresInMinutes must be 1 to 10080 (7 days)");;
       now ← Date_now;
       mret (TimeClip (Fin (now + mins * 60 * 1000))));
  match expiresAt with
  | None => send (Error 400 "Invalid expiration time")
  | Some exp =>
      status ← computeStatus expiresAt;
      post ← Post_create title (topicStrings topics) body exp
               {| userId := userId req_user; name := name req_user |} status;
      mret (PostJson 201 post)
  end.

(** [router.get("/:id")]: one post, its status refreshed. *)
Definition getPost (req_id : jsstring) : Route Reply :=
  let id := req_id in
  when_ (negb (isValidObjectId id)) (Error 400 "Invalid post id");;
  found ← findById id;
  match found with
  | None => send (Error 404 "Post not found")
  | Some post =>
      '(_, post) ← refreshPostStatusIfNeeded post;
      mret (PostJson 200 post)
  end.

(** [router.post("/:id/like")] *)
Definition like (req_user : User) (req_id : jsstring) : Route Reply :=
  let id := req_id in
  when_ (negb (isValidObjectId id)) (Error 400 "Invalid post id");;
  found ← findById id;
  match found with
  | None => send (Error 404 "Post not found")
  | Some post =>
      when_ (bool_decide (userId (owner post) = userId req_user))
        (Error 403 "Post owners cannot like their own posts");;
      '(statusNow, post) ← refreshPostStatusIfNeeded post;
      when_ (bool_decide (statusNow ≠ Live))
        (Error 403 "Post expired; no further interactions allowed");;
      let userId := userId req_user in
      let alreadyLiked := existsb (λ x, equals x userId) (likedBy post) in
      when_ alreadyLiked (Error 409 "You already liked this post");;
      let wasDisliked := existsb (λ x, equals x userId) (dislikedBy post) in
      let post :=
        if wasDisliked then
          set_dislikes
            (List.filter (λ x, negb (equals x userId)) (dislikedBy post))
            (Z.max 0 (dislikesCount post - 1)) post
        else post in
      let post := set_likes (likedBy post ++ [userId]) (likesCount post + 1) post in
      post ← save post;
      mret (VoteJson 200 "Liked" (likesCount post) (dislikesCount post))
  end.

(** [router.post("/:id/dislike")] *)
Definition dislike (req_user : User) (req_id : jsstring) : Route Reply :=
  let id := req_id in
  when_ (negb (isValidObjectId id)) (Error 400 "Invalid post id");;
  found ← findById id;
  match found with
  | None => send (Error 404 "Post not found")
  | Some post =>
      when_ (bool_decide (userId (owner post) = userId req_user))
        (Error 403 "Post owners cannot dislike their own posts");;
      '(statusNow, post) ← refreshPostStatusIfNeeded post;
      when_ (bool_decide (statusNow ≠ Live))
        (Error 403 "Post expired; no further interactions allowed");;
      let userId := userId req_user in
      let alreadyDisliked := existsb (λ x, equals x userId) (dislikedBy post) in
      when_ alreadyDisliked (Error 409 "You already disliked this post");;
      let wasLiked := existsb (λ x, equals x userId) (likedBy post) in
      let post :=
        if wasLiked then
          set_likes
            (List.filter (λ x, negb (equals x userId)) (likedBy post))
            (Z.max 0 (likesCount post - 1)) post
        else post in
      let post :=
        set_dislikes (dislikedBy post ++ [userId]) (dislikesCount post + 1) post in
      post ← save post;
      mret (VoteJson 200 "Disliked" (likesCount post) (dislikesCount post))
  end.

(** [router.post("/:id/comments")] *)
Definition comment (req_user : User) (req_id : jsstring) (req_text : Value)
    : Route Reply :=
  let id := req_id in
  when_ (negb (isValidObjectId id)) (Error 400 "Invalid post id");;
  let text := trim (String_ (or_ req_text (JStr []))) in
  when_ ((length text <? 1)%nat || (500 <? length text)%nat)
    (Error 400 "Comment must be 1–500 characters");;
  found ← findById id;
  match found with
  | None => send (Error 404 "Post not found")
  | Some post =>
      '(statusNow, post) ← refreshPostStatusIfNeeded post;
      when_ (bool_decide (statusNow ≠ Live))
        (Error 403 "Post expired; no further interactions allowed");;
      createdAt ← Date_now;
      cid ← newObjectId;
      let post :=
        set_comments
          (comments post ++
             [ {| Comment._id := cid;
                  Comment.user := {| userId := userId req_user;
                                     name := name req_user |};
                  Comment.text := text;
                  Comment.createdAt := createdAt |} ]) post in
      post ← save post;
      mret (CommentJson 201 "Comment added" (length (comments post))
              (last (comments post)))
  end.

End Routes.

(* ===================================================================== *)
(** * The topic routes and the queries they build *)
(* ===================================================================== *)

(** The order of [.sort({k1: -1, k2: -1, ...})]: [p] may come before [q]
    when, on the first key where they differ, [p] has the greater value. *)
Fixpoint descBy (keys : list (Post → Z)) (p q : Post) : bool :=
  match keys with
  | [] => true
  | k :: ks => (k q <? k p) || ((k q =? k p) && descBy ks p q)
  end.

(** [.sort({...})] on the documents a query matched. *)
Definition sortDesc (keys : list (Post → Z)) (l : list Post) : list Post :=
  merge_sort (λ p q, descBy keys p q) l.

(** [Post.find(filter)]: the matching documents, in natural order. *)
Definition find (matches : Post → bool) : Route (list Post) :=
  posts ← allPosts;
  mret (List.filter matches posts).

(** The filter [{topics: topic}]: the array field contains the value. *)
Definition hasTopic (topic : jsstring) (p : Post) : bool :=
  bool_decide (topic ∈ topics p).

(** The filter [{topics: topic, status: "Expired"}]. *)
Definition hasTopicExpired (topic : jsstring) (p : Post) : bool :=
  hasTopic topic p && bool_decide (status p = Expired).

Section TopicRoutes.
Context `{Platform}.

(** [router.get("/:topic/most-active")] *)
Definition mostActive (req_topic : jsstring) : Route Reply :=
  let topic := req_topic in
  when_ (negb (bool_decide (topic ∈ TOPICS)))
    (Error 400 "topic must be one of: Politics, Health, Sport, Tech");;
  matched ← find (hasTopic topic);
  let post := head (sortDesc [likesCount; dislikesCount; createdAt] matched) in
  match post with
  | None => send (Error 404 "No posts found for this topic")
  | Some post => mret (PostJson 200 post)
  end.

(** The [limit] and [skip] that the expired-history route computes from the
    query string. *)
Definition expiredLimit (query_limit : Value) : Number :=
  Math_min (parseInt (or_ query_limit (JStr (lit "20")))) (Fin 50).

Definition expiredSkip (query_skip : Value) : Number :=
  Math_max (parseInt (or_ query_skip (JStr (lit "0")))) (Fin 0).

(** [router.get("/:topic/expired")] *)
Definition expiredHistory (req_topic : jsstring) (query_limit query_skip : Value)
    : Route Reply :=
  let topic := req_topic in
  when_ (negb (bool_decide (topic ∈ TOPICS)))
    (Error 400 "topic must be one of: Politics, Health, Sport, Tech");;
  let limit := expiredLimit query_limit in
  let skip := expiredSkip query_skip in
  matched ← find (hasTopicExpired topic);
  let posts := cursor_limit limit (cursor_skip skip (sortDesc [expiresAt] matched)) in
  mret (PostsJson 200 posts).

End TopicRoutes.

(* ===================================================================== *)
(** * The list route of the posts router *)
(* ===================================================================== *)

(** The string a status is stored as. *)
Definition statusName (s : Status) : jsstring :=
  match s with
  | Live => lit "Live"
  | Expired => lit "Expired"
  end.

(** [req.query.x ? String(req.query.x) : null] *)
Definition queryString (v : Value) : option jsstring :=
  if truthy v then Some (String_ v) else None.

(** The filter [{status: status}]. *)
Definition hasStatus (wanted : jsstring) (p : Post) : bool :=
  bool_decide (statusName (status p) = wanted).

(** [if (topic) { ... filter.topics = topic; }]: a topic that is [null] or
    the empty string adds nothing to the filter. *)
Definition topicFilter (topic : option jsstring) : Route (Post → bool) :=
  match topic with
  | Some (c :: r) =>
      when_ (negb (bool_decide (c :: r ∈ TOPICS)))
        (Error 400 "topic must be one of: Politics, Health, Sport, Tech");;
      mret (hasTopic (c :: r))
  | _ => mret (λ _ : Post, true)
  end.

(** [if (status) { ... filter.status = status; }] *)
Definition statusFilter (status : option jsstring) : Route (Post → bool) :=
  match status with
  | Some (c :: r) =>
      when_ (negb (bool_decide (c :: r ∈ [lit "Live"; lit "Expired"])))
        (Error 400 "status must be Live or Expired");;
      mret (hasStatus (c :: r))
  | _ => mret (λ _ : Post, true)
  end.

Section ListRoute.
Context `{Platform}.

(** [router.get("/")]: browse posts.  The filter object is built field by
    field, then the query is run. *)
Definition listPosts (query_topic query_status query_limit query_skip : Value)
    : Route Reply :=
  let topic := queryString query_topic in
  let status := queryString query_status in
  let limit := Z.min (toInt query_limit 20) 50 in
  let skip := Z.max (toInt query_skip 0) 0 in
  byTopic ← topicFilter topic;
  byStatus ← statusFilter status;
  matched ← find (λ p, byTopic p && byStatus p);
  let posts :=
    cursor_limit (Fin limit)
      (cursor_skip (Fin skip) (sortDesc [createdAt] matched)) in
  mret (PostsJson 200 posts).

End ListRoute.

(* ===================================================================== *)
(** * Requests in sequence *)
(* ===================================================================== *)

Inductive Request :=
  | ReqCreate (user : User) (title body topics expiresInMinutes expiresAt : Value)
  | ReqGet (id : jsstring)
  | ReqLike (user : User) (id : jsstring)
  | ReqDislike (user : User) (id : jsstring)
  | ReqComment (user : User) (id : jsstring) (text : Value).

Section Serve.
Context `{Platform}.

Definition route (r : Request) : Route Reply :=
  match r with
  | ReqCreate u t b tp m e => createPost u t b tp m e
  | ReqGet id => getPost id
  | ReqLike u id => like u id
  | ReqDislike u id => dislike u id
  | ReqComment u id text => comment u id text
  end.

(** One request served: the reply and the world it leaves. *)
Definition serve (r : Request) (w : World) : Reply * World := handle (route r) w.

(** The world after a sequence of requests, served one after the other. *)
Fixpoint serveAll (rs : list Request) (w : World) : World :=
  match rs with
  | [] => w
  | r :: rs => serveAll rs (serve r w).2
  end.

End Serve.

(* ===================================================================== *)
(** * Accounts: registration and login *)
(* ===================================================================== *)

(** The one pattern of the repository, [/^\S+@\S+\.\S+$/], is a sequence of
    single code units and of greedy runs [x+], anchored at both ends. *)
Inductive Item :=
  | One (p : N → bool)
  | Many (p : N → bool).

(** [/^pattern$/.test(s)], by backtracking: a run [x+] takes one code unit,
    then first tries to take more, then tries the rest of the pattern. *)
Fixpoint regexTest (pattern : list Item) (s : jsstring) {struct pattern} : bool :=
  match pattern with
  | [] => match s with [] => true | _ :: _ => false end
  | One p :: rest =>
      match s with
      | c :: s' => p c && regexTest rest s'
      | [] => false
      end
  | Many p :: rest =>
      (fix run (s : jsstring) : bool :=
         match s with
         | c :: s' => p c && (run s' || regexTest rest s')
         | [] => false
         end) s
  end.

(** [\S] *)
Definition nonSpace (c : N) : bool := negb (isWhiteSpace c).

(** [/^\S+@\S+\.\S+$/] *)
Definition emailFormat : list Item :=
  [Many nonSpace; One (N.eqb 64); Many nonSpace; One (N.eqb 46); Many nonSpace].

(** A document of the users collection. *)
Module Account.
Record t := {
  _id : ObjectId;
  name : jsstring;
  email : jsstring;
  passwordHash : jsstring;
  createdAt : Z;
  updatedAt : Z
}.
End Account.

(** What the account routes send: [res.status(code).json({ error })],
    [res.status(code).json({ user, token })], or nothing of their own when an
    awaited call threw and the error went to [next]. *)
Inductive AuthReply :=
  | AuthError (code : Z) (error : string)
  | UserJson (code : Z) (user : Account.t) (token : jsstring)
  | NextErr.

(** What the account routes take from outside: [String.prototype.toLowerCase],
    the User model, bcryptjs and jsonwebtoken.  [Env] is whatever these read
    and write (the users collection, the clock, the salts, the signing
    secret); a call that throws returns [None]. *)
Class Accounts := {
  Env : Type;
  toLowerCase : jsstring → jsstring;
  User_findOne : jsstring → Env → option (option Account.t) * Env;
  User_create : jsstring → jsstring → jsstring → Env → option Account.t * Env;
  bcrypt_hash : jsstring → Env → option jsstring * Env;
  bcrypt_compare : jsstring → jsstring → Env → option bool * Env;
  jwt_sign : Account.t → Env → option jsstring * Env
}.

Section AccountRoutes.
Context `{Accounts}.

(** A step of an account handler: the reply is out, or it goes on. *)
Definition Handler (A : Type) : Type := Env → (AuthReply + A) * Env.

#[local] Instance Handler_ret : MRet Handler := λ A (x : A) w, (inr x, w).

#[local] Instance Handler_bind : MBind Handler := λ A B (k : A → Handler B) m w,
  match m w with
  | (inl r, w') => (inl r, w')
  | (inr x, w') => k x w'
  end.

(** [if (c) return res...] *)
Definition guard (c : bool) (r : AuthReply) : Handler unit :=
  if c then (λ w, (inl r, w)) else mret tt.

(** [await call], inside the handler's [try]: a throw goes to [next]. *)
Definition await {A} (call : Env → option A * Env) : Handler A := λ w,
  match call w with
  | (Some x, w') => (inr x, w')
  | (None, w') => (inl NextErr, w')
  end.

Definition respond (h : Handler AuthReply) (w : Env) : AuthReply * Env :=
  match h w with
  | (inl r, w') | (inr r, w') => (r, w')
  end.

(** [signToken(user)]: the payload is the user's id, name and email. *)
Definition signToken (user : Account.t) : Handler jsstring :=
  await (jwt_sign user).

(** [router.post("/register")] *)
Definition register (body_name body_email body_password : Value)
    : Handler AuthReply :=
  let name := trim (String_ (or_ body_name (JStr []))) in
  let email := toLowerCase (trim (String_ (or_ body_email (JStr [])))) in
  let password := String_ (or_ body_password (JStr [])) in
  guard (length name <? 2)%nat
    (AuthError 400 "Name must be at least 2 characters");;
  guard (negb (regexTest emailFormat email))
    (AuthError 400 "Invalid email format");;
  guard (length password <? 8)%nat
    (AuthError 400 "Password must be at least 8 characters");;
  existing ← await (User_findOne email);
  guard (bool_decide (is_Some existing))
    (AuthError 409 "Email already registered");;
  passwordHash ← await (bcrypt_hash password);
  user ← await (User_create name email passwordHash);
  token ← signToken user;
  mret (UserJson 201 user token).

(** [router.post("/login")] *)
Definition login (body_email body_password : Value) : Handler AuthReply :=
  let email := toLowerCase (trim (String_ (or_ body_email (JStr [])))) in
  let password := String_ (or_ body_password (JStr [])) in
  guard (bool_decide (email = []) || bool_decide (password = []))
    (AuthError 400 "Email and password are required");;
  found ← await (User_findOne email);
  match found with
  | None => λ w, (inl (AuthError 401 "Invalid credentials"), w)
  | Some user =>
      ok ← await (bcrypt_compare password (Account.passwordHash user));
      guard (negb ok) (AuthError 401 "Invalid credentials");;
      token ← signToken user;
      mret (UserJson 200 user token)
  end.

End AccountRoutes.

(* ===================================================================== *)
(** * The notions the properties are stated with *)
(* ===================================================================== *)

(** The world after one [Date.now()]. *)
Definition tick (w : World) : World :=
  {| db := db w; clock := λ n, clock w (S n); oids := oids w |}.

(** The world after [p] is written. *)
Definition written (p : Post) (w : World) : World :=
  {| db := <[_id p := p]> (db w); clock := clock w; oids := oids w |}.

(** The named error outcomes of the vote engine and the comment appender. *)
Definition InvalidId : Reply := Error 400 "Invalid post id".
Definition NotFound : Reply := Error 404 "Post not found".
Definition ExpiredError : Reply :=
  Error 403 "Post expired; no further interactions allowed".
Definition SelfLikeError : Reply :=
  Error 403 "Post owners cannot like their own posts".
Definition SelfDislikeError : Reply :=
  Error 403 "Post owners cannot dislike their own posts".
Definition DuplicateLikeError : Reply := Error 409 "You already liked this post".
Definition DuplicateDislikeError : Reply :=
  Error 409 "You already disliked this post".
Definition CommentValidationError : Reply :=
  Error 400 "Comment must be 1–500 characters".

(** [l.some((x) => x.equals(u))] *)
Definition votedIn (u : ObjectId) (l : list ObjectId) : bool :=
  existsb (λ x, equals x u) l.

(** [l.filter((x) => !x.equals(u))] *)
Definition unvote (u : ObjectId) (l : list ObjectId) : list ObjectId :=
  List.filter (λ x, negb (equals x u)) l.

(** The document a like that passed the checks is saved as (before the hook
    sets its status): lines 190-199 of the like route on their own. *)
Definition liked (u : ObjectId) (p : Post) : Post :=
  let p :=
    if votedIn u (dislikedBy p) then
      set_dislikes (unvote u (dislikedBy p)) (Z.max 0 (dislikesCount p - 1)) p
    else p in
  set_likes (likedBy p ++ [u]) (likesCount p + 1) p.

(** The same for a dislike: lines 251-260 of the dislike route. *)
Definition disliked (u : ObjectId) (p : Post) : Post :=
  let p :=
    if votedIn u (likedBy p) then
      set_likes (unvote u (likedBy p)) (Z.max 0 (likesCount p - 1)) p
    else p in
  set_dislikes (dislikedBy p ++ [u]) (dislikesCount p + 1) p.

(** The vote state of a post. *)
Definition voteState (p : Post) : list ObjectId * list ObjectId * Z * Z :=
  (likedBy p, dislikedBy p, likesCount p, dislikesCount p).

(** The number of elements of a vote set: the users the array holds. *)
Definition card (l : list ObjectId) : nat := size (list_to_set l : gset ObjectId).

(** I1, I2 and I3 of a post. *)
Record VoteInv (p : Post) : Prop := {
  I1_likes : likesCount p = Z.of_nat (card (likedBy p));
  I1_dislikes : dislikesCount p = Z.of_nat (card (dislikedBy p));
  I2_disjoint : ∀ x, x ∈ likedBy p → x ∉ dislikedBy p;
  I3_likes : userId (owner p) ∉ likedBy p;
  I3_dislikes : userId (owner p) ∉ dislikedBy p;
}.

(** The two arrays hold no user twice. *)
Definition NoDupVotes (p : Post) : Prop :=
  NoDup (likedBy p) ∧ NoDup (dislikedBy p).

(** A property of posts that the writes of the handlers keep: a change of the
    stored status, a vote that passed the checks, a new list of comments; and
    that a new post has. *)
Record Stable (P : Post → Prop) : Prop := {
  stable_status : ∀ s p, P p → P (set_status s p);
  stable_liked : ∀ u p,
    P p → userId (owner p) ≠ u → votedIn u (likedBy p) = false → P (liked u p);
  stable_disliked : ∀ u p,
    P p → userId (owner p) ≠ u → votedIn u (dislikedBy p) = false →
    P (disliked u p);
  stable_comments : ∀ cs p, P p → P (set_comments cs p);
  stable_new : ∀ p,
    likedBy p = [] → dislikedBy p = [] → likesCount p = 0 →
    dislikesCount p = 0 → P p;
}.

(** Every post of the collection has the property [P]. *)
Definition AllPosts (P : Post → Prop) (w : World) : Prop :=
  ∀ i p, db w !! i = Some p → P p.

(** A step keeps [AllPosts], and what it goes on with satisfies [Q]. *)
Definition keeps (P : Post → Prop) {A} (m : Route A) (Q : A → Prop) : Prop :=
  ∀ w, AllPosts P w → AllPosts P (m w).2 ∧ ∀ x, (m w).1 = inr x → Q x.

(** Every document is stored under its own [_id]. *)
Definition wellKeyed (w : World) : Prop :=
  ∀ k p, db w !! k = Some p → _id p = k.

(** The ObjectIds the driver will generate are new and pairwise distinct. *)
Definition freshIds (w : World) : Prop :=
  (∀ n, db w !! oids w n = None) ∧ (∀ n m, oids w n = oids w m → n = m).

(** The clock never goes back. *)
Definition monotone (w : World) : Prop := ∀ n, clock w n ≤ clock w (S n).

(** What one request may do to a post it found, [now] being the clock
    reading of its status gate: restamp the stored status; and, only when the
    post resolves to Live, record a vote that passed the checks or append one
    comment with a trimmed text of 1 to 500 code units. *)
Definition PostStep (now : Z) (q q' : Post) : Prop :=
  ∃ s,
    q' = set_status s q
    ∨ (statusAt now (Some (expiresAt q)) = Live
       ∧ ∃ u, userId (owner q) ≠ u ∧ votedIn u (likedBy q) = false
              ∧ q' = set_status s (liked u q))
    ∨ (statusAt now (Some (expiresAt q)) = Live
       ∧ ∃ u, userId (owner q) ≠ u ∧ votedIn u (dislikedBy q) = false
              ∧ q' = set_status s (disliked u q))
    ∨ (statusAt now (Some (expiresAt q)) = Live
       ∧ ∃ c, (1 ≤ length (Comment.text c) ≤ 500)%nat
              ∧ q' = set_status s (set_comments (comments q ++ [c]) q)).

(** The later world's clock is the earlier one's, some readings on. *)
Definition clockAhead (w w' : World) : Prop :=
  ∃ n, ∀ k, clock w' k = clock w (n + k)%nat.

(** Nothing was written and no ObjectId was taken. *)
Definition Quiet (w w' : World) : Prop :=
  db w' = db w ∧ ∀ k, oids w' k = oids w k.

(** The stored status of [q'] is the one [q] had, or was resolved at one of
    the first [n] clock readings. *)
Definition stampedBy (w : World) (n : nat) (q q' : Post) : Prop :=
  status q' = status q
  ∨ ∃ i, (i < n)%nat ∧ status q' = statusAt (clock w i) (Some (expiresAt q)).

(** The document found under [k] was written back, changed by one step of
    [R], the request having taken [n] clock readings. *)
Definition UpdatesBy (R : Z → Post → Post → Prop) (k : ObjectId)
    (w w' : World) : Prop :=
  ∃ q q' n m,
    db w !! k = Some q ∧ R (clock w 0%nat) q q'
    ∧ (∀ i, clock w' i = clock w (n + i)%nat)
    ∧ stampedBy w n q q'
    ∧ db w' = <[_id q := q']> (db w)
    ∧ ∀ i, oids w' i = oids w (m + i)%nat.

Definition Updates : ObjectId → World → World → Prop := UpdatesBy PostStep.

(** The steps of a vote route, of the comment route and of the read route. *)
Definition VoteStep (now : Z) (q q' : Post) : Prop :=
  ∃ s,
    q' = set_status s q
    ∨ (statusAt now (Some (expiresAt q)) = Live
       ∧ ∃ u, userId (owner q) ≠ u ∧ votedIn u (likedBy q) = false
              ∧ q' = set_status s (liked u q))
    ∨ (statusAt now (Some (expiresAt q)) = Live
       ∧ ∃ u, userId (owner q) ≠ u ∧ votedIn u (dislikedBy q) = false
              ∧ q' = set_status s (disliked u q)).

Definition CommentStep (now : Z) (q q' : Post) : Prop :=
  ∃ s,
    q' = set_status s q
    ∨ (statusAt now (Some (expiresAt q)) = Live
       ∧ ∃ c, (1 ≤ length (Comment.text c) ≤ 500)%nat
              ∧ q' = set_status s (set_comments (comments q ++ [c]) q)).

Definition StatusStep (now : Z) (q q' : Post) : Prop :=
  ∃ s, q' = set_status s q.

(** What the creation route stores: a post without votes or comments whose
    title, body and topics passed the route's checks. *)
Definition NewPost (p : Post) : Prop :=
  likedBy p = [] ∧ dislikedBy p = [] ∧ likesCount p = 0 ∧ dislikesCount p = 0
  ∧ comments p = []
  ∧ (6 ≤ length (title p) ≤ 120)%nat
  ∧ (1 ≤ length (body p) ≤ 2000)%nat
  ∧ topics p ≠ [] ∧ Forall (λ t, t ∈ TOPICS) (topics p).

(** A new document was stored under the next generated ObjectId. *)
Definition Creates (w w' : World) : Prop :=
  ∃ p n,
    _id p = oids w 0%nat ∧ NewPost p
    ∧ (∀ i, clock w' i = clock w (n + i)%nat)
    ∧ (∃ i, (i < n)%nat
            ∧ status p = statusAt (clock w i) (Some (expiresAt p)))
    ∧ db w' = <[oids w 0%nat := p]> (db w)
    ∧ ∀ i, oids w' i = oids w (S i).

(** A request that addresses the document under [k]: it writes nothing, or
    writes that document back changed by one step. *)
Definition MovesBy (R : Z → Post → Post → Prop) (k : ObjectId)
    (w w' : World) : Prop :=
  clockAhead w w' ∧ (Quiet w w' ∨ UpdatesBy R k w w').

Definition Moves : ObjectId → World → World → Prop := MovesBy PostStep.

(** A creation request: it writes nothing, or stores one new document. *)
Definition Births (w w' : World) : Prop :=
  clockAhead w w' ∧ (Quiet w w' ∨ Creates w w').

(** What one request of a sequence does to the world. *)
Definition Transition (w w' : World) : Prop :=
  clockAhead w w' ∧ (Quiet w w' ∨ (∃ k, Updates k w w') ∨ Creates w w').

(** The id a request addresses, if it addresses a post. *)
Definition addressed (r : Request) : option jsstring :=
  match r with
  | ReqCreate _ _ _ _ _ _ => None
  | ReqGet id | ReqLike _ id | ReqDislike _ id | ReqComment _ id _ => Some id
  end.

(** A stored status of Expired is right: the expiration is not after the
    current clock reading. *)
Definition expiredForReal (w : World) : Prop :=
  ∀ k p, db w !! k = Some p → status p = Expired →
    expiresAt p ≤ clock w 0%nat.

(** The document of a post as it is created: no votes, no comments. *)
Definition newPost (id : ObjectId) (title_ : jsstring) (topics_ : list jsstring)
    (body_ : jsstring) (createdAt_ expiresAt_ : Z) (status_ : Status)
    (owner_ : User) : Post :=
  {| _id := id; title := title_; topics := topics_; body := body_;
     createdAt := createdAt_; expiresAt := expiresAt_; status := status_;
     owner := owner_; likesCount := 0; dislikesCount := 0;
     likedBy := []; dislikedBy := []; comments := [] |}.

(** The world after one ObjectId was generated. *)
Definition nextId (w : World) : World :=
  {| db := db w; clock := clock w; oids := λ n, oids w (S n) |}.

(** The fields of a post that no route writes are the same, and the comments
    of the earlier are the first comments of the later. *)
Definition evolves (q q' : Post) : Prop :=
  _id q' = _id q ∧ title q' = title q ∧ topics q' = topics q
  ∧ body q' = body q ∧ createdAt q' = createdAt q
  ∧ expiresAt q' = expiresAt q ∧ owner q' = owner q
  ∧ comments q `prefix_of` comments q'.

(** The constraints of the Post schema on the fields the routes write:
    lengths of title, body and comment texts, topics of the enumeration,
    counters not below 0. *)
Definition schemaValid (p : Post) : Prop :=
  (2 ≤ length (title p) ≤ 120)%nat
  ∧ (1 ≤ length (body p) ≤ 2000)%nat
  ∧ topics p ≠ [] ∧ Forall (λ t, t ∈ TOPICS) (topics p)
  ∧ 0 ≤ likesCount p ∧ 0 ≤ dislikesCount p
  ∧ Forall (λ c, (1 ≤ length (Comment.text c) ≤ 500)%nat) (comments p).

(** A cursor operation that only drops documents, keeping their order. *)
Definition dropsOnly (op : list Post → list Post) : Prop :=
  ∀ l, op l `sublist_of` l.

(** Following the spec's words: the limit "clamped to [0, 50]". *)
Definition clampLimit (limit : Z) : Z := Z.max 0 (Z.min limit 50).

(** Following the spec's words: [q] does not rank above [p] in "greatest
    likesCount, then greatest dislikesCount, then most recent createdAt". *)
Definition ranksAtMost (q p : Post) : Prop :=
  likesCount q < likesCount p
  ∨ (likesCount q = likesCount p
     ∧ (dislikesCount q < dislikesCount p
        ∨ (dislikesCount q = dislikesCount p ∧ createdAt q ≤ createdAt p))).

(* ===================================================================== *)
(** * A sample platform, for the examples *)
(* ===================================================================== *)

Module Sample.

Definition hexDigit (c : N) : option N :=
  (if (48 <=? c) && (c <=? 57) then Some (c - 48)
   else if (97 <=? c) && (c <=? 102) then Some (c - 87)
   else if (65 <=? c) && (c <=? 70) then Some (c - 55)
   else None)%N.

(** 24 hexadecimal digits. *)
Definition isHex24 (s : jsstring) : bool :=
  (length s =? 24)%nat
  && forallb (λ c, match hexDigit c with Some _ => true | None => false end) s.

Definition hexValue (s : jsstring) : N :=
  fold_left (λ acc c, 16 * acc + default 0 (hexDigit c))%N s 0%N.

(** [skip(n)] drops [n] documents, [limit(n)] keeps the first [n]; for the
    driver a limit of 0 is no limit and a negative limit keeps [|n|]. *)
Definition skipDocs {A} (n : Number) (l : list A) : list A :=
  match n with
  | Fin z => drop (Z.to_nat z) l
  | _ => l
  end.

Definition limitDocs {A} (n : Number) (l : list A) : list A :=
  match n with
  | Fin 0 => l
  | Fin z => take (Z.to_nat (Z.abs z)) l
  | _ => l
  end.

(** Ids are 24 hexadecimal digits; no date string is recognised. *)
Definition platform : Platform :=
  {| isValidObjectId := isHex24;
     toObjectId := hexValue;
     Date_parse := λ _, None;
     cursor_skip := @skipDocs;
     cursor_limit := @limitDocs |}.

Definition alice : User := {| userId := 10; name := lit "Alice" |}.
Definition bob : User := {| userId := 11; name := lit "Bob" |}.

(** A post of Alice's that expires at time 1000. *)
Definition post1 : Post :=
  {| _id := 1; title := lit "A first post"; topics := [lit "Tech"];
     body := lit "Hello"; createdAt := 0; expiresAt := 1000; status := Live;
     owner := alice; likesCount := 0; dislikesCount := 0;
     likedBy := []; dislikedBy := []; comments := [] |}.

(** The same post once Bob has liked it. *)
Definition post1_liked : Post := set_likes [11%N] 1 post1.

(** Three posts tagged Tech, with likes, dislikes and creation times
    (5, 1, 10), (5, 2, 20) and (3, 0, 30). *)
Definition ranked (id : ObjectId) (likes dislikes t : Z) : Post :=
  {| _id := id; title := lit "A ranked post"; topics := [lit "Tech"];
     body := lit "Hello"; createdAt := t; expiresAt := 1000; status := Live;
     owner := alice; likesCount := likes; dislikesCount := dislikes;
     likedBy := []; dislikedBy := []; comments := [] |}.

Definition id1 : jsstring := lit "000000000000000000000001".

(** A world holding the given posts under their ids, whose clock reads [t]
    at every call. *)
Definition worldOf (posts : list Post) (t : Z) : World :=
  {| db := list_to_map ((λ p, (_id p, p)) <$> posts);
     clock := λ _, t;
     oids := λ n, (100 + N.of_nat n)%N |}.

(** A world holding [post1]. *)
Definition worldAt (t : Z) : World := worldOf [post1] t.

(** Three posts tagged Tech with (likes, dislikes) (5, 1), (5, 2) and (3, 0). *)
Definition threeRanked : World :=
  worldOf [ranked 1 5 1 10; ranked 2 5 2 20; ranked 3 3 0 30] 500.

(** A post of Alice's, tagged Sport, stored as Expired since time [t]. *)
Definition expiredAt (id : ObjectId) (t : Z) : Post :=
  {| _id := id; title := lit "An old post"; topics := [lit "Sport"];
     body := lit "Hello"; createdAt := 0; expiresAt := t; status := Expired;
     owner := alice; likesCount := 0; dislikesCount := 0;
     likedBy := []; dislikedBy := []; comments := [] |}.

(** A post whose [dislikedBy] array holds Bob twice. *)
Definition post1_twice : Post := set_dislikes [11%N; 11%N] 2 post1.

(** Lower case of the ASCII letters. *)
Definition lowerAscii (s : jsstring) : jsstring :=
  (λ c, if (65 <=? c) && (c <=? 90) then c + 32 else c)%N <$> s.

(** A stand-in for a password hash, for the examples only. *)
Definition toyHash (password : jsstring) : jsstring :=
  lit "$2a$12$" ++ rev password.

(** Accounts kept in a list, in the order of their creation. *)
Definition accounts : Accounts :=
  {| Env := list Account.t;
     toLowerCase := lowerAscii;
     User_findOne := λ e us,
       (Some (List.find (λ u, bool_decide (Account.email u = e)) us), us);
     User_create := λ n e h us,
       let u := {| Account._id := N.of_nat (length us); Account.name := n;
                   Account.email := e; Account.passwordHash := h;
                   Account.createdAt := 0; Account.updatedAt := 0 |} in
       (Some u, us ++ [u]);
     bcrypt_hash := λ p us, (Some (toyHash p), us);
     bcrypt_compare := λ p h us, (Some (bool_decide (h = toyHash p)), us);
     jwt_sign := λ u us, (Some (lit "token:" ++ Account.email u), us) |}.

End Sample.

(* ===================================================================== *)
(** * Running the steps of a handler *)
(* ===================================================================== *)

Ltac route_unfold :=
  unfold mbind, mret, Route_bind, Route_ret, send, when_ in *.

Lemma bind_run {A B} (m : Route A) (k : A → Route B) w x w' :
  m w = (inr x, w') → (m ≫= k) w = k x w'.
Proof. intros E. unfold mbind, Route_bind. by rewrite E. Qed.

Lemma bind_sent {A B} (m : Route A) (k : A → Route B) w r w' :
  m w = (inl r, w') → (m ≫= k) w = (inl r, w').
Proof. intros E. unfold mbind, Route_bind. by rewrite E. Qed.

Lemma when_false_run r w : when_ false r w = (inr tt, w).
Proof. done. Qed.

Lemma when_true_run r w : when_ true r w = (inl r, w).
Proof. done. Qed.

Lemma set_status_same p : set_status (status p) p = p.
Proof. by destruct p. Qed.

Lemma save_run p w :
  save p w =
    (inr (set_status (statusAt (clock w 0%nat) (Some (expiresAt p))) p),
     written (set_status (statusAt (clock w 0%nat) (Some (expiresAt p))) p)
       (tick w)).
Proof. done. Qed.

(** The status [refreshPostStatusIfNeeded] returns is the one resolved at the
    first clock reading; the document it returns differs from the one it was
    given in its stored status at most, and so does the collection. *)
Lemma refresh_run post w :
  ∃ s w',
    refreshPostStatusIfNeeded post w =
      (inr (statusAt (clock w 0%nat) (Some (expiresAt post)), set_status s post), w')
    ∧ oids w' = oids w
    ∧ (db w' = db w ∨ db w' = <[_id post := set_status s post]> (db w)).
Proof.
  unfold refreshPostStatusIfNeeded, computeStatus.
  set (now := clock w 0%nat).
  destruct (decide (status post ≠ statusAt now (Some (expiresAt post)))) as [Hne|Heq].
  - eexists _, _. split; [|split].
    + route_unfold. cbn. fold now. rewrite bool_decide_true by done.
      cbn. reflexivity.
    + done.
    + right. cbn. done.
  - exists (status post), (tick w). split; [|split]; [|done|by left].
    route_unfold. cbn. fold now. rewrite bool_decide_false by done.
    by rewrite set_status_same.
Qed.

(* ===================================================================== *)
(** * The status resolver *)
(* ===================================================================== *)

(** C6. The status resolver is a total function of the expiration and the
    clock reading alone: [computeStatus] always returns, reads the clock once
    and changes nothing else; what it returns is Live exactly when the reading
    is before the expiration and Expired otherwise, so at the expiration
    instant itself the post is Expired.  The pre-save hook of the model stores
    the status by the same comparison. *)
Theorem status_resolver_boundary (expiresAt_ now : Z) :
  (∀ w, computeStatus (Some expiresAt_) w
          = (inr (statusAt (clock w 0%nat) (Some expiresAt_)), tick w))
  ∧ (statusAt now (Some expiresAt_) = Live ↔ now < expiresAt_)
  ∧ (statusAt now (Some expiresAt_) = Expired ↔ expiresAt_ ≤ now)
  ∧ statusAt expiresAt_ (Some expiresAt_) = Expired
  ∧ (∀ p w, ∃ p', preSave p w = (inr p', tick w)
        ∧ status p' = statusAt (clock w 0%nat) (Some (expiresAt p))).
Proof.
  split; [done|].
  unfold statusAt. repeat split.
  - destruct (Z.ltb_spec now expiresAt_); [done|discriminate].
  - intros. by rewrite (proj2 (Z.ltb_lt _ _)).
  - destruct (Z.ltb_spec now expiresAt_); [discriminate|done].
  - intros. by rewrite (proj2 (Z.ltb_ge _ _)).
  - by rewrite Z.ltb_irrefl.
  - intros p w. eexists. split; [reflexivity|done].
Qed.

(* ===================================================================== *)
(** * The order of the checks *)
(* ===================================================================== *)

Section Checks.
Context `{Platform}.

(** C10. A like, dislike or comment request whose id is not a valid ObjectId
    is answered 400 "Invalid post id", and nothing else has happened by then:
    the collection was not read, the clock was not read, the world is the one
    the request found. *)
Theorem invalid_id_rejected_first (u : User) (id : jsstring) (text : Value)
    (w : World) :
  isValidObjectId id = false →
  serve (ReqLike u id) w = (InvalidId, w)
  ∧ serve (ReqDislike u id) w = (InvalidId, w)
  ∧ serve (ReqComment u id text) w = (InvalidId, w).
Proof.
  intros Hid. unfold serve, handle, route, like, dislike, comment.
  route_unfold. by rewrite Hid.
Qed.

End Checks.

Lemma findById_run `{Platform} id w :
  findById id w = (inr (db w !! toObjectId id), w).
Proof. done. Qed.

Lemma Date_now_run w : Date_now w = (inr (clock w 0%nat), tick w).
Proof. done. Qed.

Lemma newObjectId_run w :
  newObjectId w =
    (inr (oids w 0%nat),
     {| db := db w; clock := clock w; oids := λ n, oids w (S n) |}).
Proof. done. Qed.

(** Steps over the next statement of a handler whose outcome is known. *)
Ltac step :=
  lazymatch goal with
  | |- context [ (when_ false ?r ≫= ?k) ?w ] =>
      rewrite (bind_run (when_ false r) k w tt w (when_false_run r w))
  | |- context [ (when_ true ?r ≫= ?k) ?w ] =>
      rewrite (bind_sent (when_ true r) k w r w (when_true_run r w))
  | |- context [ (findById ?id ≫= ?k) ?w ] =>
      rewrite (bind_run (findById id) k w _ w (findById_run id w))
  | |- context [ (Date_now ≫= ?k) ?w ] =>
      rewrite (bind_run Date_now k w _ _ (Date_now_run w))
  | |- context [ (newObjectId ≫= ?k) ?w ] =>
      rewrite (bind_run newObjectId k w _ _ (newObjectId_run w))
  | |- context [ (save ?p ≫= ?k) ?w ] =>
      rewrite (bind_run (save p) k w _ _ (save_run p w))
  end; cbv beta.

Section VoteGate.
Context `{Platform}.

(** C1, as the code has it.  The ownership check comes before the status
    gate: a vote of the post's owner is answered with the self-vote error
    whatever the post's status, and the status was not even resolved; a vote of
    anyone else on a post that resolves to Expired at the gate's clock reading
    is answered with the expiry error. *)
Theorem vote_gate_order (u : User) (id : jsstring) (w : World) (post : Post) :
  isValidObjectId id = true →
  db w !! toObjectId id = Some post →
  (userId (owner post) = userId u →
     serve (ReqLike u id) w = (SelfLikeError, w)
     ∧ serve (ReqDislike u id) w = (SelfDislikeError, w))
  ∧ (userId (owner post) ≠ userId u →
     statusAt (clock w 0%nat) (Some (expiresAt post)) = Expired →
     (serve (ReqLike u id) w).1 = ExpiredError
     ∧ (serve (ReqDislike u id) w).1 = ExpiredError).
Proof.
  intros Hid Hfound. split.
  - intros Hown. unfold serve, handle, route, like, dislike.
    split; rewrite Hid; cbn [negb]; do 2 step; rewrite Hfound;
      rewrite bool_decide_true by done; by step.
  - intros Hown Hexp.
    destruct (refresh_run post w) as (s & w1 & Hr & _ & _).
    rewrite Hexp in Hr.
    unfold serve, handle, route, like, dislike.
    split; rewrite Hid; cbn [negb]; do 2 step; rewrite Hfound;
      rewrite bool_decide_false by done; step;
      rewrite (bind_run _ _ _ _ _ Hr); cbn; done.
Qed.

End VoteGate.

(* ===================================================================== *)
(** * The vote engine *)
(* ===================================================================== *)

Lemma votedIn_true u l : votedIn u l = true ↔ u ∈ l.
Proof.
  unfold votedIn, equals. rewrite existsb_exists. split.
  - intros (x & Hx & Hxu). apply N.eqb_eq in Hxu. subst.
    by apply list_elem_of_In.
  - intros Hu. exists u. split; [by apply list_elem_of_In|apply N.eqb_refl].
Qed.

Lemma votedIn_false u l : votedIn u l = false ↔ u ∉ l.
Proof.
  rewrite <- votedIn_true. destruct (votedIn u l); naive_solver.
Qed.

Lemma elem_of_unvote u x l : x ∈ unvote u l ↔ x ∈ l ∧ x ≠ u.
Proof.
  unfold unvote, equals. rewrite !list_elem_of_In, filter_In.
  rewrite negb_true_iff, N.eqb_neq. done.
Qed.

Lemma status_liked s s' u p :
  set_status s' (liked u (set_status s p)) = set_status s' (liked u p).
Proof. unfold liked. cbn -[votedIn]. by destruct (votedIn u (dislikedBy p)). Qed.

Lemma status_disliked s s' u p :
  set_status s' (disliked u (set_status s p)) = set_status s' (disliked u p).
Proof. unfold disliked. cbn -[votedIn]. by destruct (votedIn u (likedBy p)). Qed.

Lemma _id_liked u p : _id (liked u p) = _id p.
Proof. unfold liked. cbn -[votedIn]. by destruct (votedIn u (dislikedBy p)). Qed.

Lemma _id_disliked u p : _id (disliked u p) = _id p.
Proof. unfold disliked. cbn -[votedIn]. by destruct (votedIn u (likedBy p)). Qed.

Section VoteRuns.
Context `{Platform}.

(** A vote that reaches the status gate of a Live post: the handler is past
    its first four checks. *)
Ltac pass_gate Hid Hfound Hown Hr :=
  rewrite Hid; cbn [negb]; do 2 step; rewrite Hfound;
  rewrite bool_decide_false by done; step;
  rewrite (bind_run _ _ _ _ _ Hr); cbv beta iota;
  rewrite (bool_decide_false (Live ≠ Live)) by (intros Hn; by apply Hn); step.

(** A like that passes every check. *)
Lemma like_run (u : User) (id : jsstring) (w : World) (post : Post) :
  isValidObjectId id = true →
  db w !! toObjectId id = Some post →
  userId (owner post) ≠ userId u →
  statusAt (clock w 0%nat) (Some (expiresAt post)) = Live →
  votedIn (userId u) (likedBy post) = false →
  ∃ s w',
    serve (ReqLike u id) w =
      (VoteJson 200 "Liked" (likesCount (liked (userId u) post))
         (dislikesCount (liked (userId u) post)), w')
    ∧ db w' = <[_id post := set_status s (liked (userId u) post)]> (db w)
    ∧ oids w' = oids w.
Proof.
  intros Hid Hfound Hown Hlive Hnot.
  destruct (refresh_run post w) as (s & w1 & Hr & Ho & Hdb).
  rewrite Hlive in Hr.
  unfold serve, handle, route, like. pass_gate Hid Hfound Hown Hr.
  change (existsb _ (likedBy (set_status s post)))
    with (votedIn (userId u) (likedBy post)).
  rewrite Hnot. step.
  change (save ?p) with (save (liked (userId u) (set_status s post))).
  rewrite (bind_run _ _ _ _ _ (save_run _ _)). cbn [mret Route_ret].
  rewrite status_liked.
  eexists _, _. split; [reflexivity|].
  unfold written, tick. cbn [db oids _id set_status]. rewrite _id_liked.
  split; [|exact Ho].
  destruct Hdb as [->| ->]; [done|]. by rewrite insert_insert_eq.
Qed.

(** A dislike that passes every check. *)
Lemma dislike_run (u : User) (id : jsstring) (w : World) (post : Post) :
  isValidObjectId id = true →
  db w !! toObjectId id = Some post →
  userId (owner post) ≠ userId u →
  statusAt (clock w 0%nat) (Some (expiresAt post)) = Live →
  votedIn (userId u) (dislikedBy post) = false →
  ∃ s w',
    serve (ReqDislike u id) w =
      (VoteJson 200 "Disliked" (likesCount (disliked (userId u) post))
         (dislikesCount (disliked (userId u) post)), w')
    ∧ db w' = <[_id post := set_status s (disliked (userId u) post)]> (db w)
    ∧ oids w' = oids w.
Proof.
  intros Hid Hfound Hown Hlive Hnot.
  destruct (refresh_run post w) as (s & w1 & Hr & Ho & Hdb).
  rewrite Hlive in Hr.
  unfold serve, handle, route, dislike. pass_gate Hid Hfound Hown Hr.
  change (existsb _ (dislikedBy (set_status s post)))
    with (votedIn (userId u) (dislikedBy post)).
  rewrite Hnot. step.
  change (save ?p) with (save (disliked (userId u) (set_status s post))).
  rewrite (bind_run _ _ _ _ _ (save_run _ _)). cbn [mret Route_ret].
  rewrite status_disliked.
  eexists _, _. split; [reflexivity|].
  unfold written, tick. cbn [db oids _id set_status]. rewrite _id_disliked.
  split; [|exact Ho].
  destruct Hdb as [->| ->]; [done|]. by rewrite insert_insert_eq.
Qed.

(** A vote of the kind the user already holds: the handler stops at its
    fifth check, after the status refresh. *)
Lemma duplicate_run (u : User) (id : jsstring) (w : World) (post : Post) :
  isValidObjectId id = true →
  db w !! toObjectId id = Some post →
  userId (owner post) ≠ userId u →
  statusAt (clock w 0%nat) (Some (expiresAt post)) = Live →
  ∃ s w',
    (db w' = db w ∨ db w' = <[_id post := set_status s post]> (db w))
    ∧ (votedIn (userId u) (likedBy post) = true →
         serve (ReqLike u id) w = (DuplicateLikeError, w'))
    ∧ (votedIn (userId u) (dislikedBy post) = true →
         serve (ReqDislike u id) w = (DuplicateDislikeError, w')).
Proof.
  intros Hid Hfound Hown Hlive.
  destruct (refresh_run post w) as (s & w1 & Hr & Ho & Hdb).
  rewrite Hlive in Hr. exists s, w1. split; [done|].
  split; intros Hin; unfold serve, handle, route, like, dislike;
    pass_gate Hid Hfound Hown Hr.
  - change (existsb _ (likedBy (set_status s post)))
      with (votedIn (userId u) (likedBy post)).
    rewrite Hin. by step.
  - change (existsb _ (dislikedBy (set_status s post)))
      with (votedIn (userId u) (dislikedBy post)).
    rewrite Hin. by step.
Qed.

End VoteRuns.

Section VoteClaims.
Context `{Platform}.

(** C5. On a Live post, a like from a user (not the owner) who is already in
    [likedBy] is answered 409 "You already liked this post", and a dislike
    from one already in [dislikedBy] 409 "You already disliked this post".
    The answer is none of the other answers of the route, and the vote state
    of every post of the collection is what it was: the two sets and the two
    counters.  (The post is stored under its own id.) *)
Theorem duplicate_vote_rejected (u : User) (id : jsstring) (w : World)
    (post : Post) :
  isValidObjectId id = true →
  db w !! toObjectId id = Some post →
  _id post = toObjectId id →
  userId (owner post) ≠ userId u →
  statusAt (clock w 0%nat) (Some (expiresAt post)) = Live →
  (userId u ∈ likedBy post →
     ∃ w', serve (ReqLike u id) w = (DuplicateLikeError, w')
       ∧ (DuplicateLikeError ∉ [InvalidId; NotFound; SelfLikeError; ExpiredError])
       ∧ (∀ l d, DuplicateLikeError ≠ VoteJson 200 "Liked" l d)
       ∧ ∀ i, voteState <$> db w' !! i = voteState <$> db w !! i)
  ∧ (userId u ∈ dislikedBy post →
     ∃ w', serve (ReqDislike u id) w = (DuplicateDislikeError, w')
       ∧ (DuplicateDislikeError
            ∉ [InvalidId; NotFound; SelfDislikeError; ExpiredError])
       ∧ (∀ l d, DuplicateDislikeError ≠ VoteJson 200 "Disliked" l d)
       ∧ ∀ i, voteState <$> db w' !! i = voteState <$> db w !! i).
Proof.
  intros Hid Hfound Hkey Hown Hlive.
  destruct (duplicate_run u id w post Hid Hfound Hown Hlive)
    as (s & w' & Hdb & Hlike & Hdislike).
  assert (Hsame : ∀ i, voteState <$> db w' !! i = voteState <$> db w !! i).
  { intros i. destruct Hdb as [->| ->]; [done|].
    destruct (decide (i = _id post)) as [->|Hne].
    - rewrite lookup_insert_eq, Hkey, Hfound. done.
    - by rewrite lookup_insert_ne. }
  split; intros Hin; exists w'.
  - split; [by apply Hlike, votedIn_true|].
    split; [|split; [|done]].
    + rewrite !elem_of_cons, elem_of_nil. intros [?|[?|[?|[?|[]]]]]; discriminate.
    + intros l d ?; discriminate.
  - split; [by apply Hdislike, votedIn_true|].
    split; [|split; [|done]].
    + rewrite !elem_of_cons, elem_of_nil. intros [?|[?|[?|[?|[]]]]]; discriminate.
    + intros l d ?; discriminate.
Qed.

(** C4. On a Live post whose two vote sets are disjoint, a dislike from a user
    (not the owner) who is in [likedBy] is answered 200: the user is removed
    from [likedBy] and [likesCount] is decremented, floored at 0; the user is
    appended to [dislikedBy] and [dislikesCount] is incremented; the user ends
    in [dislikedBy] only, every other vote is kept, and the answer carries the
    two new counters.  Symmetrically for a like from a user who is in
    [dislikedBy]. *)
Theorem vote_toggle (u : User) (id : jsstring) (w : World) (post : Post) :
  isValidObjectId id = true →
  db w !! toObjectId id = Some post →
  _id post = toObjectId id →
  userId (owner post) ≠ userId u →
  statusAt (clock w 0%nat) (Some (expiresAt post)) = Live →
  (∀ x, x ∈ likedBy post → x ∉ dislikedBy post) →
  (userId u ∈ likedBy post →
     ∃ w' p',
       serve (ReqDislike u id) w =
         (VoteJson 200 "Disliked" (Z.max 0 (likesCount post - 1))
            (dislikesCount post + 1), w')
       ∧ db w' !! toObjectId id = Some p'
       ∧ (∀ x, x ∈ likedBy p' ↔ x ∈ likedBy post ∧ x ≠ userId u)
       ∧ dislikedBy p' = dislikedBy post ++ [userId u]
       ∧ likesCount p' = Z.max 0 (likesCount post - 1)
       ∧ (0 < likesCount post → likesCount p' = likesCount post - 1)
       ∧ dislikesCount p' = dislikesCount post + 1
       ∧ (userId u ∉ likedBy p') ∧ userId u ∈ dislikedBy p')
  ∧ (userId u ∈ dislikedBy post →
     ∃ w' p',
       serve (ReqLike u id) w =
         (VoteJson 200 "Liked" (likesCount post + 1)
            (Z.max 0 (dislikesCount post - 1)), w')
       ∧ db w' !! toObjectId id = Some p'
       ∧ (∀ x, x ∈ dislikedBy p' ↔ x ∈ dislikedBy post ∧ x ≠ userId u)
       ∧ likedBy p' = likedBy post ++ [userId u]
       ∧ dislikesCount p' = Z.max 0 (dislikesCount post - 1)
       ∧ (0 < dislikesCount post → dislikesCount p' = dislikesCount post - 1)
       ∧ likesCount p' = likesCount post + 1
       ∧ (userId u ∉ dislikedBy p') ∧ userId u ∈ likedBy p').
Proof.
  intros Hid Hfound Hkey Hown Hlive Hdisj. split; intros Hin.
  - assert (Hnot : votedIn (userId u) (dislikedBy post) = false)
      by (apply votedIn_false; auto).
    destruct (dislike_run u id w post Hid Hfound Hown Hlive Hnot)
      as (s & w' & Hrun & Hdb & _).
    apply votedIn_true in Hin as Hv.
    unfold disliked in Hrun, Hdb. rewrite Hv in Hrun, Hdb.
    cbn [likesCount dislikesCount likedBy dislikedBy set_likes set_dislikes]
      in Hrun, Hdb.
    eexists w', _. split; [exact Hrun|].
    split; [rewrite Hdb, Hkey; apply lookup_insert_eq|].
    cbn [likesCount dislikesCount likedBy dislikedBy set_likes set_dislikes
         set_status].
    split_and!;
      first [ done | lia | intros x; apply elem_of_unvote
            | intros [_ ?]%elem_of_unvote; done
            | rewrite elem_of_app, list_elem_of_singleton; auto ].
  - assert (Hnot : votedIn (userId u) (likedBy post) = false).
    { apply votedIn_false. intros Hl. by apply (Hdisj _ Hl). }
    destruct (like_run u id w post Hid Hfound Hown Hlive Hnot)
      as (s & w' & Hrun & Hdb & _).
    apply votedIn_true in Hin as Hv.
    unfold liked in Hrun, Hdb. rewrite Hv in Hrun, Hdb.
    cbn [likesCount dislikesCount likedBy dislikedBy set_likes set_dislikes]
      in Hrun, Hdb.
    eexists w', _. split; [exact Hrun|].
    split; [rewrite Hdb, Hkey; apply lookup_insert_eq|].
    cbn [likesCount dislikesCount likedBy dislikedBy set_likes set_dislikes
         set_status].
    split_and!;
      first [ done | lia | intros x; apply elem_of_unvote
            | intros [_ ?]%elem_of_unvote; done
            | rewrite elem_of_app, list_elem_of_singleton; auto ].
Qed.

(** Liking then disliking: a user without a vote on a Live post likes it and
    then, the post still Live, dislikes it.  The user ends in [dislikedBy]
    only, [likesCount] is back to its value before the like and
    [dislikesCount] is one more. *)
Lemma like_then_dislike (u : User) (id : jsstring) (w : World) (post : Post) :
  isValidObjectId id = true →
  db w !! toObjectId id = Some post →
  _id post = toObjectId id →
  userId (owner post) ≠ userId u →
  userId u ∉ likedBy post →
  userId u ∉ dislikedBy post →
  0 ≤ likesCount post →
  statusAt (clock w 0%nat) (Some (expiresAt post)) = Live →
  statusAt (clock (serve (ReqLike u id) w).2 0%nat) (Some (expiresAt post))
    = Live →
  ∃ p2,
    db (serveAll [ReqLike u id; ReqDislike u id] w) !! toObjectId id = Some p2
    ∧ likesCount p2 = likesCount post
    ∧ dislikesCount p2 = dislikesCount post + 1
    ∧ (userId u ∉ likedBy p2) ∧ userId u ∈ dislikedBy p2.
Proof.
  intros Hid Hfound Hkey Hown Hnl%votedIn_false Hnd%votedIn_false Hpos
    Hlive Hlive2.
  destruct (like_run u id w post Hid Hfound Hown Hlive Hnl)
    as (s & w1 & Hrun & Hdb & _).
  cbn [serveAll]. rewrite Hrun in Hlive2 |- *. cbn [snd] in Hlive2 |- *.
  set (p1 := set_status s (liked (userId u) post)) in *.
  assert (Hp1 : p1 = set_status s
            (set_likes (likedBy post ++ [userId u]) (likesCount post + 1) post)).
  { unfold p1, liked. by rewrite Hnd. }
  assert (Hfound1 : db w1 !! toObjectId id = Some p1).
  { rewrite Hdb, Hkey. apply lookup_insert_eq. }
  assert (Hin1 : votedIn (userId u) (likedBy p1) = true).
  { rewrite Hp1. apply votedIn_true, elem_of_app. right.
    by apply list_elem_of_singleton. }
  assert (Hnd1 : votedIn (userId u) (dislikedBy p1) = false)
    by (by rewrite Hp1).
  destruct (dislike_run u id w1 p1 Hid Hfound1) as (s2 & w2 & Hrun2 & Hdb2 & _);
    [by rewrite Hp1|by rewrite Hp1|done|].
  rewrite Hrun2. cbn [snd].
  eexists. split.
  { rewrite Hdb2. replace (_id p1) with (toObjectId id) by (by rewrite Hp1).
    apply lookup_insert_eq. }
  unfold disliked. rewrite Hin1, Hp1.
  cbn [likesCount dislikesCount likedBy dislikedBy set_likes set_dislikes
       set_status].
  split_and!; [lia|done| |].
  - by intros [_ ?]%elem_of_unvote.
  - apply elem_of_app. right. by apply list_elem_of_singleton.
Qed.

End VoteClaims.

(* ===================================================================== *)
(** * Properties of the documents that every request preserves *)
(* ===================================================================== *)

Section Preservation.
Context `{Platform} (P : Post → Prop) (HP : Stable P).

Lemma keeps_ret {A} (x : A) (Q : A → Prop) : Q x → keeps P (mret x) Q.
Proof. intros HQ w Hw. split; [done|]. cbn. by intros ? [= <-]. Qed.

Lemma keeps_send {A} r (Q : A → Prop) : keeps P (send r) Q.
Proof. intros w Hw. split; [done|]. cbn. discriminate. Qed.

Lemma keeps_bind {A B} (m : Route A) (k : A → Route B) Q R :
  keeps P m Q → (∀ x, Q x → keeps P (k x) R) → keeps P (m ≫= k) R.
Proof.
  intros Hm Hk w Hw. destruct (Hm w Hw) as [Hw' HQ].
  unfold mbind, Route_bind. destruct (m w) as [[r|x] w'] eqn:E; cbn in *.
  - split; [done|discriminate].
  - by apply Hk; [apply HQ|].
Qed.

Lemma keeps_when c r : keeps P (when_ c r) (λ _, c = false).
Proof. destruct c; [apply keeps_send|by apply keeps_ret]. Qed.

Lemma keeps_Date_now : keeps P Date_now (λ _, True).
Proof. intros w Hw. split; [exact Hw|done]. Qed.

Lemma keeps_newObjectId : keeps P newObjectId (λ _, True).
Proof. intros w Hw. split; [exact Hw|done]. Qed.

Lemma keeps_computeStatus e : keeps P (computeStatus e) (λ _, True).
Proof. intros w Hw. split; [exact Hw|done]. Qed.

Lemma keeps_findById id :
  keeps P (findById id) (λ found, ∀ p, found = Some p → P p).
Proof.
  intros w Hw. split; [done|]. cbn. intros ? [= <-] p Hp. eauto.
Qed.

Lemma AllPosts_insert w w' p :
  AllPosts P w → P p → db w' = <[_id p := p]> (db w) → AllPosts P w'.
Proof.
  intros Hw Hp Hdb i q. rewrite Hdb.
  destruct (decide (i = _id p)) as [->|Hne].
  - rewrite lookup_insert_eq. by intros [= <-].
  - rewrite lookup_insert_ne by done. apply Hw.
Qed.

Lemma keeps_save p : P p → keeps P (save p) (λ _, True).
Proof.
  intros Hp w Hw. rewrite save_run. split; [|done]. cbn [snd].
  eapply AllPosts_insert; [exact Hw| |reflexivity].
  by apply stable_status.
Qed.

Lemma keeps_refresh post :
  P post →
  keeps P (refreshPostStatusIfNeeded post) (λ r, ∃ s, r.2 = set_status s post).
Proof.
  intros Hp w Hw. destruct (refresh_run post w) as (s & w' & -> & _ & Hdb).
  cbn [fst snd]. split.
  - destruct Hdb as [Hdb|Hdb].
    + intros i q. rewrite Hdb. apply Hw.
    + eapply AllPosts_insert; [exact Hw| |exact Hdb]. by apply stable_status.
  - intros ? [= <-]. by exists s.
Qed.

Ltac next := eapply keeps_bind; [first [apply keeps_when | apply keeps_findById
  | apply keeps_Date_now | apply keeps_newObjectId | apply keeps_computeStatus]|].

Lemma keeps_like u id : keeps P (like u id) (λ _, True).
Proof.
  unfold like. next. intros _ _.
  next. intros [post|] Hfound; [|apply keeps_send].
  specialize (Hfound _ eq_refl).
  next. intros _ Hown%bool_decide_eq_false.
  eapply keeps_bind; [by apply keeps_refresh|].
  intros [statusNow p1] [s Hs]. cbn in Hs. subst p1.
  next. intros _ _. next. intros ? Hnot.
  eapply keeps_bind; [|intros; by apply keeps_ret].
  change (save ?p) with (save (liked (userId u) (set_status s post))).
  apply keeps_save.
  apply stable_liked; [done|by apply stable_status|done|done].
Qed.

Lemma keeps_dislike u id : keeps P (dislike u id) (λ _, True).
Proof.
  unfold dislike. next. intros _ _.
  next. intros [post|] Hfound; [|apply keeps_send].
  specialize (Hfound _ eq_refl).
  next. intros _ Hown%bool_decide_eq_false.
  eapply keeps_bind; [by apply keeps_refresh|].
  intros [statusNow p1] [s Hs]. cbn in Hs. subst p1.
  next. intros _ _. next. intros ? Hnot.
  eapply keeps_bind; [|intros; by apply keeps_ret].
  change (save ?p) with (save (disliked (userId u) (set_status s post))).
  apply keeps_save.
  apply stable_disliked; [done|by apply stable_status|done|done].
Qed.

Lemma keeps_comment u id text : keeps P (comment u id text) (λ _, True).
Proof.
  unfold comment. next. intros _ _. next. intros _ _.
  next. intros [post|] Hfound; [|apply keeps_send].
  specialize (Hfound _ eq_refl).
  eapply keeps_bind; [by apply keeps_refresh|].
  intros [statusNow p1] [s Hs]. cbn in Hs. subst p1.
  next. intros _ _. next. intros createdAt_ _. next. intros cid _.
  eapply keeps_bind; [|intros; by apply keeps_ret].
  apply keeps_save. apply stable_comments; [done|]. by apply stable_status.
Qed.

Lemma keeps_getPost id : keeps P (getPost id) (λ _, True).
Proof.
  unfold getPost. next. intros _ _.
  next. intros [post|] Hfound; [|apply keeps_send].
  specialize (Hfound _ eq_refl).
  eapply keeps_bind; [by apply keeps_refresh|].
  intros [statusNow p1] _. by apply keeps_ret.
Qed.

Lemma keeps_createPost u t b tp m e :
  keeps P (createPost u t b tp m e) (λ _, True).
Proof.
  unfold createPost. do 3 (next; intros _ _).
  eapply keeps_bind with (Q := λ _, True).
  { destruct (truthy e); [by apply keeps_ret|].
    next. intros _ _. next. intros now _. by apply keeps_ret. }
  intros [exp|] _; [|apply keeps_send].
  next. intros st _.
  eapply keeps_bind; [|intros; by apply keeps_ret].
  unfold Post_create. next. intros created _. next. intros oid _.
  apply keeps_save. by apply stable_new.
Qed.

Lemma handle_world h w : (handle h w).2 = (h w).2.
Proof. unfold handle. by destruct (h w) as [[?|?] ?]. Qed.

(** Every request keeps the property on the whole collection. *)
Lemma serve_keeps r w : AllPosts P w → AllPosts P (serve r w).2.
Proof.
  intros Hw. unfold serve. rewrite handle_world.
  destruct r; cbn [route].
  - by apply keeps_createPost.
  - by apply keeps_getPost.
  - by apply keeps_like.
  - by apply keeps_dislike.
  - by apply keeps_comment.
Qed.

Lemma serveAll_keeps rs w : AllPosts P w → AllPosts P (serveAll rs w).
Proof.
  revert w. induction rs as [|r rs IH]; intros w Hw; [done|].
  cbn [serveAll]. by apply IH, serve_keeps.
Qed.

End Preservation.

(* ===================================================================== *)
(** * The vote invariants I1, I2 and I3 *)
(* ===================================================================== *)

Lemma card_length l : NoDup l → card l = length l.
Proof. apply size_list_to_set. Qed.

Lemma card_push u l : u ∉ l → card (l ++ [u]) = S (card l).
Proof.
  intros Hu. unfold card. rewrite list_to_set_app_L.
  rewrite size_union.
  - cbn. rewrite (right_id_L ∅ (∪)), size_singleton. lia.
  - intros x Hx ->%elem_of_list_to_set%list_elem_of_singleton.
    by apply elem_of_list_to_set in Hx.
Qed.

Lemma card_unvote u l : u ∈ l → S (card (unvote u l)) = card l.
Proof.
  intros Hu. unfold card.
  assert (list_to_set (unvote u l) = (list_to_set l : gset ObjectId) ∖ {[u]})
    as ->.
  { apply set_eq. intros x.
    rewrite elem_of_difference, !elem_of_list_to_set, elem_of_unvote.
    set_solver. }
  assert (Hsub : ({[u]} : gset ObjectId) ⊆ list_to_set l) by set_solver.
  pose proof (subseteq_size _ _ Hsub) as Hle.
  rewrite (size_difference _ _ Hsub).
  rewrite (size_singleton u) in Hle |- *. lia.
Qed.

Lemma NoDup_push (u : ObjectId) l : NoDup l → u ∉ l → NoDup (l ++ [u]).
Proof.
  intros Hl Hu. apply NoDup_app. split; [done|]. split.
  - intros x Hx ->%list_elem_of_singleton. done.
  - apply NoDup_singleton.
Qed.

Lemma NoDup_unvote u l : NoDup l → NoDup (unvote u l).
Proof.
  intros Hl. apply NoDup_ListNoDup, List.NoDup_filter. by apply NoDup_ListNoDup.
Qed.

(** The invariants are kept by every write of the handlers. *)
Lemma VoteInv_stable : Stable VoteInv.
Proof.
  split.
  - intros s p [? ? ? ? ?]. by split.
  - intros u p [H1 H2 H3 H4 H5] Hown Hnot%votedIn_false.
    unfold liked. destruct (votedIn u (dislikedBy p)) eqn:Hd.
    + apply votedIn_true in Hd. pose proof (card_unvote _ _ Hd).
      split; cbn [likedBy dislikedBy likesCount dislikesCount owner set_likes set_dislikes].
      * rewrite card_push by done. lia.
      * lia.
      * intros x [Hx| ->%list_elem_of_singleton]%elem_of_app
          [Hx' Hne]%elem_of_unvote; [by eapply H3|done].
      * intros [?| ?%list_elem_of_singleton]%elem_of_app; done.
      * by intros [? _]%elem_of_unvote.
    + apply votedIn_false in Hd. split; cbn [likedBy dislikedBy likesCount dislikesCount owner set_likes set_dislikes].
      * rewrite card_push by done. lia.
      * done.
      * intros x [Hx| ->%list_elem_of_singleton]%elem_of_app; [by apply H3|done].
      * intros [?| ?%list_elem_of_singleton]%elem_of_app; done.
      * done.
  - intros u p [H1 H2 H3 H4 H5] Hown Hnot%votedIn_false.
    unfold disliked. destruct (votedIn u (likedBy p)) eqn:Hd.
    + apply votedIn_true in Hd. pose proof (card_unvote _ _ Hd).
      split; cbn [likedBy dislikedBy likesCount dislikesCount owner set_likes set_dislikes].
      * lia.
      * rewrite card_push by done. lia.
      * intros x [Hx Hne]%elem_of_unvote
          [Hx'| ->%list_elem_of_singleton]%elem_of_app; [by eapply H3|done].
      * by intros [? _]%elem_of_unvote.
      * intros [?| ?%list_elem_of_singleton]%elem_of_app; done.
    + apply votedIn_false in Hd. split; cbn [likedBy dislikedBy likesCount dislikesCount owner set_likes set_dislikes].
      * done.
      * rewrite card_push by done. lia.
      * intros x Hx [Hx'| ->%list_elem_of_singleton]%elem_of_app;
          [by eapply H3|done].
      * done.
      * intros [?| ?%list_elem_of_singleton]%elem_of_app; done.
  - intros cs p [? ? ? ? ?]. by split.
  - intros p Hl Hd Hlc Hdc. split; rewrite ?Hl, ?Hd, ?Hlc, ?Hdc; try done;
      intros; apply not_elem_of_nil.
Qed.

(** So is the absence of duplicates, under which the number of elements of a
    vote set is the length of its array. *)
Lemma NoDupVotes_stable : Stable NoDupVotes.
Proof.
  split.
  - by intros s p [? ?].
  - intros u p [Hl Hd] _ Hnot%votedIn_false. unfold liked.
    destruct (votedIn u (dislikedBy p)); split; cbn [likedBy dislikedBy likesCount dislikesCount owner set_likes set_dislikes];
      auto using NoDup_push, NoDup_unvote.
  - intros u p [Hl Hd] _ Hnot%votedIn_false. unfold disliked.
    destruct (votedIn u (likedBy p)); split; cbn [likedBy dislikedBy likesCount dislikesCount owner set_likes set_dislikes];
      auto using NoDup_push, NoDup_unvote.
  - by intros cs p [? ?].
  - intros p Hl Hd _ _. split; rewrite ?Hl, ?Hd; apply NoDup_nil_2.
Qed.

Section Invariants.
Context `{Platform}.

(** C3. If every post of the collection satisfies I1, I2 and I3, then after
    any sequence of requests (likes and dislikes, answered 200 or with an
    error, and also comments, reads and creations) every post of the
    collection still does: [likesCount] and [dislikesCount] are the numbers of
    elements of [likedBy] and [dislikedBy], the two sets are disjoint, and the
    owner is in neither.  Arrays that hold no user twice stay so, and then the
    counters are the lengths of the arrays. *)
Theorem votes_invariant (rs : list Request) (w : World) :
  (∀ i p, db w !! i = Some p → VoteInv p) →
  (∀ i p, db (serveAll rs w) !! i = Some p → VoteInv p)
  ∧ ((∀ i p, db w !! i = Some p → NoDupVotes p) →
     ∀ i p, db (serveAll rs w) !! i = Some p →
       NoDupVotes p
       ∧ likesCount p = Z.of_nat (length (likedBy p))
       ∧ dislikesCount p = Z.of_nat (length (dislikedBy p))).
Proof.
  intros Hinv.
  pose proof (serveAll_keeps VoteInv VoteInv_stable rs w Hinv) as Hafter.
  split; [exact Hafter|].
  intros Hnd i p Hp.
  pose proof (serveAll_keeps NoDupVotes NoDupVotes_stable rs w Hnd i p Hp)
    as [Hl Hd].
  destruct (Hafter i p Hp) as [H1 H2 _ _ _].
  split; [done|]. by rewrite H1, H2, !card_length.
Qed.

End Invariants.

(* ===================================================================== *)
(** * The comment appender *)
(* ===================================================================== *)

Section Comments.
Context `{Platform}.

(** The text the route validates, for a body whose [text] is a string. *)
Lemma comment_text_of_string (s : jsstring) :
  trim (String_ (or_ (JStr s) (JStr []))) = trim s.
Proof. by destruct s. Qed.

(** C8. On a post that resolves to Live, a comment of any user (no check
    compares the user with the owner) whose trimmed text has 1 to 500 code
    units is answered 201: one comment is appended, holding the trimmed text
    and the user's snapshot, the count of comments grows by exactly one, and
    every comment the post had is where it was, unaltered.  A trimmed text of
    length 0 or above 500 is answered 400 "Comment must be 1–500 characters",
    whatever the post. *)
Theorem comment_appended (u : User) (id : jsstring) (s : jsstring) (w : World)
    (post : Post) :
  isValidObjectId id = true →
  ((1 ≤ length (trim s) ≤ 500)%nat →
   db w !! toObjectId id = Some post →
   _id post = toObjectId id →
   statusAt (clock w 0%nat) (Some (expiresAt post)) = Live →
   ∃ w' c p',
     serve (ReqComment u id (JStr s)) w =
       (CommentJson 201 "Comment added" (S (length (comments post))) (Some c), w')
     ∧ Comment.text c = trim s
     ∧ Comment.user c = {| userId := userId u; name := name u |}
     ∧ db w' !! toObjectId id = Some p'
     ∧ comments p' = comments post ++ [c]
     ∧ length (comments p') = S (length (comments post))
     ∧ ∀ k c0, comments post !! k = Some c0 → comments p' !! k = Some c0)
  ∧ ((length (trim s) = 0 ∨ 500 < length (trim s))%nat →
     serve (ReqComment u id (JStr s)) w = (CommentValidationError, w)).
Proof.
  intros Hid. split.
  - intros [Hlo Hhi] Hfound Hkey Hlive.
    destruct (refresh_run post w) as (st & w1 & Hr & Ho & Hdb).
    rewrite Hlive in Hr.
    unfold serve, handle, route, comment.
    rewrite Hid, comment_text_of_string. cbn [negb]. step.
    replace ((length (trim s) <? 1)%nat || (500 <? length (trim s))%nat)
      with false.
    2:{ symmetry. apply orb_false_iff. split; apply Nat.ltb_ge; lia. }
    do 2 step. rewrite Hfound.
    rewrite (bind_run _ _ _ _ _ Hr). cbv beta iota.
    rewrite (bool_decide_false (Live ≠ Live)) by (intros Hn; by apply Hn).
    do 4 step. cbn [mret Route_ret comments set_status set_comments].
    rewrite last_snoc, length_app, Nat.add_comm. cbn [length Nat.add].
    eexists _, _, _. split; [reflexivity|].
    split; [done|]. split; [done|]. split.
    { cbn [db written tick _id set_status set_comments]. rewrite Hkey.
      apply lookup_insert_eq. }
    cbn [comments set_status set_comments].
    split; [done|]. split.
    + rewrite length_app, Nat.add_comm. done.
    + intros k c0 Hk. by apply lookup_app_l_Some.
  - intros Hbad. unfold serve, handle, route, comment.
    rewrite Hid, comment_text_of_string. cbn [negb]. step.
    replace ((length (trim s) <? 1)%nat || (500 <? length (trim s))%nat)
      with true.
    2:{ symmetry. apply orb_true_iff.
        destruct Hbad; [left|right]; apply Nat.ltb_lt; lia. }
    by step.
Qed.

End Comments.

(* ===================================================================== *)
(** * Creation: the default expiration *)
(* ===================================================================== *)

Section Creation.
Context `{Platform}.

Lemma toInt_fallback (v : Value) (fallback : Z) :
  isFinite (parseInt v) = false → toInt v fallback = fallback.
Proof. unfold toInt. by destruct (parseInt v). Qed.

Lemma computeStatus_run e w :
  computeStatus e w = (inr (statusAt (clock w 0%nat) e), tick w).
Proof. done. Qed.

Lemma Post_create_run ttl tps bd ex ow st w :
  ∃ post w',
    Post_create ttl tps bd ex ow st w = (inr post, w')
    ∧ title post = ttl ∧ body post = bd ∧ expiresAt post = ex
    ∧ owner post = ow ∧ db w' !! _id post = Some post.
Proof.
  unfold Post_create. do 2 step. rewrite save_run.
  eexists _, _. split; [reflexivity|]. cbn. split_and!; try done.
  apply lookup_insert_eq.
Qed.

(** C9. A creation request that passes the title, body and topics checks,
    carries no [expiresAt] (a falsy value) and whose [expiresInMinutes] does
    not parse to a finite number (it is missing, for one) is not rejected: the
    minutes fall back to 60 and the post is created, answered 201, with an
    expiration 60 minutes after the clock reading taken for it. *)
Theorem default_expiration (u : User) (t b tp m e : Value) (w : World) :
  let title_ := trim (String_ (or_ t (JStr []))) in
  let body_ := trim (String_ (or_ b (JStr []))) in
  (6 ≤ length title_ ≤ 120)%nat →
  (1 ≤ length body_ ≤ 2000)%nat →
  isValidTopicList tp = true →
  truthy e = false →
  isFinite (parseInt m) = false →
  Z.abs (clock w 0%nat + 60 * 60 * 1000) ≤ 8640000000000000 →
  ∃ post w',
    serve (ReqCreate u t b tp m e) w = (PostJson 201 post, w')
    ∧ expiresAt post = clock w 0%nat + 60 * 60 * 1000
    ∧ db w' !! _id post = Some post
    ∧ title post = title_ ∧ body post = body_
    ∧ owner post = {| userId := userId u; name := name u |}.
Proof.
  intros title_ body_ Ht Hb Htp He Hm Hclock.
  unfold serve, handle, route, createPost. fold title_ body_.
  replace ((length title_ <? 6)%nat || (120 <? length title_)%nat) with false.
  2:{ symmetry. apply orb_false_iff. split; apply Nat.ltb_ge; lia. }
  replace ((length body_ <? 1)%nat || (2000 <? length body_)%nat) with false.
  2:{ symmetry. apply orb_false_iff. split; apply Nat.ltb_ge; lia. }
  rewrite Htp, He, (toInt_fallback _ _ Hm). cbn [negb].
  do 3 step.
  change ((60 <? 1) || (60 * 24 * 7 <? 60)) with false.
  erewrite bind_run.
  2:{ step. step. unfold mret, Route_ret, TimeClip.
      rewrite (proj2 (Z.leb_le _ _) Hclock). reflexivity. }
  cbv beta iota.
  rewrite (bind_run _ _ _ _ _ (computeStatus_run _ _)). cbv beta.
  destruct (Post_create_run title_ (topicStrings tp) body_
              (clock w 0%nat + 60 * 60 * 1000)
              {| userId := userId u; name := name u |}
              (statusAt (clock (tick w) 0%nat)
                 (Some (clock w 0%nat + 60 * 60 * 1000)))
              (tick (tick w)))
    as (post & w' & Hrun & Ht' & Hb' & He' & Ho' & Hdb).
  rewrite (bind_run _ _ _ _ _ Hrun). cbn [mret Route_ret].
  by exists post, w'.
Qed.

End Creation.

(* ===================================================================== *)
(** * The ranked queries *)
(* ===================================================================== *)

Lemma descBy_cons k ks p q :
  descBy (k :: ks) p q ↔ k q < k p ∨ (k q = k p ∧ descBy ks p q).
Proof.
  cbn [descBy].
  rewrite orb_True, andb_True, !Is_true_true, Z.ltb_lt, Z.eqb_eq. done.
Qed.

Lemma descBy_total keys : Total (λ p q : Post, descBy keys p q).
Proof.
  intros p q. induction keys as [|k ks IH]; [by left|].
  rewrite !descBy_cons.
  destruct (Z.lt_trichotomy (k p) (k q)) as [?|[?|?]];
    [right; by left| |left; by left].
  destruct IH; [left|right]; right; split; done.
Qed.

Lemma descBy_trans keys : Transitive (λ p q : Post, descBy keys p q).
Proof.
  intros p q r. induction keys as [|k ks IH]; [done|].
  rewrite !descBy_cons.
  intros [?|[? ?]] [?|[? ?]]; [left; lia|left; lia|left; lia|].
  right. split; [lia|]. by apply IH.
Qed.

Lemma descBy_ranks p q :
  descBy [likesCount; dislikesCount; createdAt] p q ↔ ranksAtMost q p.
Proof.
  unfold ranksAtMost. rewrite !descBy_cons. cbn [descBy].
  split.
  - intros [?|[? [?|[? [?|[? _]]]]]]; lia.
  - intros [?|[? [?|[? ?]]]]; [by left|right; split; [done|by left]|].
    right. split; [done|]. right. split; [done|].
    destruct (Z.eq_dec (createdAt q) (createdAt p)); [right; by split|left; lia].
Qed.

(** The first document of a sorted result is one of the documents sorted and
    comes before every one of them. *)
Lemma head_sortDesc keys l p :
  head (sortDesc keys l) = Some p →
  p ∈ l ∧ ∀ q, q ∈ l → descBy keys p q.
Proof.
  intros Hhead. unfold sortDesc in *.
  pose proof (descBy_total keys) as Htot.
  pose proof (descBy_trans keys) as Htr.
  pose proof (StronglySorted_merge_sort (λ p q : Post, descBy keys p q) l)
    as Hsorted.
  pose proof (merge_sort_Permutation (λ p q : Post, descBy keys p q) l)
    as Hperm.
  apply head_Some in Hhead as [rest Hl]. rewrite Hl in Hsorted, Hperm.
  apply StronglySorted_cons in Hsorted as [Hfirst _].
  split.
  - rewrite <- Hperm. by left.
  - intros q Hq. rewrite <- Hperm in Hq.
    apply elem_of_cons in Hq as [->|Hq].
    + by destruct (Htot p p).
    + by eapply Forall_forall in Hfirst.
Qed.

Lemma head_sortDesc_None keys l : head (sortDesc keys l) = None → l = [].
Proof.
  unfold sortDesc. intros Hhead.
  pose proof (merge_sort_Permutation (λ p q : Post, descBy keys p q) l)
    as Hperm.
  destruct (merge_sort _ l); [|done].
  symmetry in Hperm. by apply Permutation_nil_r in Hperm.
Qed.

Lemma elem_of_find matches w p :
  p ∈ List.filter matches (map_to_list (db w)).*2
  ↔ (∃ i, db w !! i = Some p) ∧ matches p = true.
Proof.
  rewrite list_elem_of_In, filter_In, <- list_elem_of_In, list_elem_of_fmap.
  split.
  - intros [([i q] & -> & Hq%elem_of_map_to_list) Hm]. eauto.
  - intros [[i Hi] Hm]. split; [|done].
    exists (i, p). split; [done|]. by apply elem_of_map_to_list.
Qed.

Section Queries.
Context `{Platform}.

Lemma Math_min_Fin a b : Math_min (Fin a) (Fin b) = Fin (Z.min a b).
Proof.
  unfold Math_min, lt. destruct (Z.ltb_spec b a); f_equal; lia.
Qed.

Lemma Math_max_Fin a b : Math_max (Fin a) (Fin b) = Fin (Z.max a b).
Proof.
  unfold Math_max, lt. destruct (Z.ltb_spec a b); f_equal; lia.
Qed.

Lemma parseInt_truthy s n : parseInt (JStr s) = Fin n → truthy (JStr s) = true.
Proof. by destruct s. Qed.

(** C2, as the code has it.  For query strings that denote the integers
    [limit] and [skip], the expired-history route passes to the cursor the
    limit [min(limit, 50)] and the skip [max(skip, 0)]: the limit is capped at
    50 and has no floor, so it is the clamped value exactly when the supplied
    limit is not negative, and a negative limit is passed on as it is. *)
Theorem expired_history_limit_skip (topic sl ss : jsstring) (limit skip : Z)
    (w : World) :
  parseInt (JStr sl) = Fin limit →
  parseInt (JStr ss) = Fin skip →
  expiredLimit (JStr sl) = Fin (Z.min limit 50)
  ∧ expiredSkip (JStr ss) = Fin (Z.max skip 0)
  ∧ (0 ≤ limit → expiredLimit (JStr sl) = Fin (clampLimit limit))
  ∧ (limit < 0 → expiredLimit (JStr sl) = Fin limit)
  ∧ (topic ∈ TOPICS →
     handle (expiredHistory topic (JStr sl) (JStr ss)) w =
       (PostsJson 200
          (cursor_limit (Fin (Z.min limit 50))
             (cursor_skip (Fin (Z.max skip 0))
                (sortDesc [expiresAt]
                   (List.filter (hasTopicExpired topic)
                      (map_to_list (db w)).*2)))), w)).
Proof.
  intros Hl Hs.
  assert (El : expiredLimit (JStr sl) = Fin (Z.min limit 50)).
  { unfold expiredLimit, or_. rewrite (parseInt_truthy _ _ Hl), Hl.
    apply Math_min_Fin. }
  assert (Es : expiredSkip (JStr ss) = Fin (Z.max skip 0)).
  { unfold expiredSkip, or_. rewrite (parseInt_truthy _ _ Hs), Hs.
    apply Math_max_Fin. }
  split_and!; try done.
  - intros ?. rewrite El. unfold clampLimit. f_equal. lia.
  - intros ?. rewrite El. f_equal. lia.
  - intros Ht. unfold handle, expiredHistory.
    rewrite bool_decide_true by done. cbn [negb]. step.
    rewrite El, Es. done.
Qed.

(** C7. For a topic of the enumeration, the most-active route looks at every
    post of the collection tagged with the topic, whatever its status, and
    changes nothing.  With no such post it answers 404.  Otherwise it answers
    200 with one of them that no tagged post outranks in the order: more
    likes, then more dislikes, then created later; a tagged post that it does
    not outrank either ties it on the three keys. *)
Theorem most_active_maximal (topic : jsstring) (w : World) :
  topic ∈ TOPICS →
  ((∀ i q, db w !! i = Some q → topic ∉ topics q) →
     handle (mostActive topic) w =
       (Error 404 "No posts found for this topic", w))
  ∧ ((∃ i q, db w !! i = Some q ∧ topic ∈ topics q) →
     ∃ p,
       handle (mostActive topic) w = (PostJson 200 p, w)
       ∧ (∃ i, db w !! i = Some p) ∧ topic ∈ topics p
       ∧ (∀ i q, db w !! i = Some q → topic ∈ topics q → ranksAtMost q p)
       ∧ (∀ i q, db w !! i = Some q → topic ∈ topics q → ranksAtMost p q →
            likesCount q = likesCount p
            ∧ dislikesCount q = dislikesCount p
            ∧ createdAt q = createdAt p)).
Proof.
  intros Ht.
  set (tagged := List.filter (hasTopic topic) (map_to_list (db w)).*2).
  assert (Hrun : handle (mostActive topic) w =
    match head (sortDesc [likesCount; dislikesCount; createdAt] tagged) with
    | None => (Error 404 "No posts found for this topic", w)
    | Some p => (PostJson 200 p, w)
    end).
  { unfold handle, mostActive. rewrite bool_decide_true by done.
    cbn [negb]. step. unfold find, allPosts. route_unfold. fold tagged.
    by destruct (head _). }
  rewrite Hrun. split.
  - intros Hnone.
    destruct (head _) as [p|] eqn:Hhead; [|done].
    apply head_sortDesc in Hhead as [Hp _].
    apply elem_of_find in Hp as [[i Hi] Hm].
    apply bool_decide_eq_true in Hm. by destruct (Hnone i p Hi).
  - intros (i & q & Hq & Hqt).
    destruct (head _) as [p|] eqn:Hhead.
    + apply head_sortDesc in Hhead as [Hp Hmax].
      apply elem_of_find in Hp as [Hi Hm]. apply bool_decide_eq_true in Hm.
      exists p. split_and!; try done.
      * intros j r Hr Hrt. apply descBy_ranks, Hmax, elem_of_find.
        split; [eauto|]. by apply bool_decide_eq_true.
      * intros j r Hr Hrt Hpr.
        assert (ranksAtMost r p) as Hrp.
        { apply descBy_ranks, Hmax, elem_of_find.
          split; [eauto|]. by apply bool_decide_eq_true. }
        unfold ranksAtMost in *. lia.
    + apply head_sortDesc_None in Hhead.
      assert (q ∈ tagged) as Hin.
      { apply elem_of_find. split; [eauto|]. by apply bool_decide_eq_true. }
      rewrite Hhead in Hin. by apply elem_of_nil in Hin.
Qed.

End Queries.

(* ===================================================================== *)
(** * What one request can change *)
(* ===================================================================== *)

(** The two ways of [refreshPostStatusIfNeeded]: the stored status is the
    resolved one and only the clock was read; or it is not, and the post was
    saved with the status the hook resolved at the next reading. *)
Lemma refresh_cases post w :
  let st := statusAt (clock w 0%nat) (Some (expiresAt post)) in
  let p1 := set_status (statusAt (clock w 1%nat) (Some (expiresAt post))) post in
  (status post = st
   ∧ refreshPostStatusIfNeeded post w = (inr (st, post), tick w))
  ∨ (status post ≠ st
     ∧ refreshPostStatusIfNeeded post w
         = (inr (st, p1), written p1 (tick (tick w)))).
Proof.
  intros st p1. unfold refreshPostStatusIfNeeded, computeStatus.
  destruct (decide (status post = st)) as [Heq|Hne]; [left|right];
    (split; [done|]); route_unfold; cbn; fold st.
  - rewrite bool_decide_false by (by intros ?). done.
  - rewrite bool_decide_true by done. done.
Qed.

Lemma clockAhead_by n w w' :
  (∀ k, clock w' k = clock w (n + k)%nat) → clockAhead w w'.
Proof. intros. by exists n. Qed.

Section Moves.
Context (R : Z → Post → Post → Prop).
Hypothesis R_status : ∀ now s q, R now q (set_status s q).

Lemma Moves_quiet k n w w' :
  (∀ i, clock w' i = clock w (n + i)%nat) → db w' = db w →
  (∀ i, oids w' i = oids w i) → MovesBy R k w w'.
Proof. intros Hc Hd Ho. split; [by exists n|]. by left. Qed.

Lemma Moves_update k n m q q' w w' :
  (∀ i, clock w' i = clock w (n + i)%nat) →
  db w !! k = Some q → R (clock w 0%nat) q q' →
  stampedBy w n q q' →
  db w' = <[_id q := q']> (db w) →
  (∀ i, oids w' i = oids w (m + i)%nat) → MovesBy R k w w'.
Proof.
  intros Hc Hq Hs Hst Hd Ho. split; [by exists n|]. right.
  by exists q, q', n, m.
Qed.

Lemma Moves_refreshed k w w1 post s n :
  db w !! k = Some post →
  (∀ i, clock w1 i = clock w (n + i)%nat) →
  (∀ i, oids w1 i = oids w i) →
  stampedBy w n post (set_status s post) →
  db w1 = db w ∨ db w1 = <[_id post := set_status s post]> (db w) →
  MovesBy R k w w1.
Proof.
  intros Hfound Hc Ho Hst [Hdb|Hdb].
  - by apply (Moves_quiet _ n).
  - apply (Moves_update _ n 0%nat post (set_status s post));
      [done|done|apply R_status|done|done|done].
Qed.

(** The document saved at the end of a vote or comment route: its status is
    the one the hook resolved at the reading after the refresh. *)
Lemma Moves_saved k w w1 w' post s n c m q' :
  db w !! k = Some post →
  (∀ i, clock w1 i = clock w (n + i)%nat) →
  (∀ i, oids w1 i = oids w i) →
  db w1 = db w ∨ db w1 = <[_id post := set_status s post]> (db w) →
  R (clock w 0%nat) post q' →
  _id q' = _id post →
  (∃ j, (j < c)%nat
        ∧ status q' = statusAt (clock w1 j) (Some (expiresAt post))) →
  (∀ i, clock w' i = clock w1 (c + i)%nat) →
  (∀ i, oids w' i = oids w1 (m + i)%nat) →
  db w' = <[_id q' := q']> (db w1) →
  MovesBy R k w w'.
Proof.
  intros Hfound Hc Ho Hdb Hstep Hid (j & Hj & Hst) Hc' Ho' Hdb'.
  apply (Moves_update _ (n + c)%nat m post q'); try done.
  - intros i. rewrite Hc', Hc. f_equal. lia.
  - right. exists (n + j)%nat. split; [lia|]. by rewrite Hst, Hc.
  - rewrite Hdb', Hid. destruct Hdb as [->| ->]; [done|].
    by rewrite insert_insert_eq.
  - intros i. by rewrite Ho', Ho.
Qed.

End Moves.

Lemma MovesBy_mono (R S : Z → Post → Post → Prop) k w w' :
  (∀ now q q', R now q q' → S now q q') → MovesBy R k w w' → MovesBy S k w w'.
Proof.
  intros HRS [Hc [Hq|(q & q' & n & m & ? & ? & ? & ? & ? & ?)]].
  - split; [done|by left].
  - split; [done|]. right. exists q, q', n, m. split_and!; auto.
Qed.

Lemma VoteStep_status now s q : VoteStep now q (set_status s q).
Proof. exists s. by left. Qed.

Lemma CommentStep_status now s q : CommentStep now q (set_status s q).
Proof. exists s. by left. Qed.

Lemma StatusStep_status now s q : StatusStep now q (set_status s q).
Proof. by exists s. Qed.

Lemma VoteStep_PostStep now q q' : VoteStep now q q' → PostStep now q q'.
Proof. intros (s & [?|[?|?]]); exists s; auto. Qed.

Lemma CommentStep_PostStep now q q' : CommentStep now q q' → PostStep now q q'.
Proof. intros (s & [?|?]); exists s; auto. Qed.

Lemma StatusStep_PostStep now q q' : StatusStep now q q' → PostStep now q q'.
Proof. intros (s & ?); exists s; auto. Qed.

(** After the refresh: the status resolved at the first reading, the
    document restamped at most, the clock one or two readings on, and the
    collection changed at the document's id at most. *)
Lemma refresh_facts post w :
  ∃ s w1 n,
    refreshPostStatusIfNeeded post w =
      (inr (statusAt (clock w 0%nat) (Some (expiresAt post)), set_status s post),
       w1)
    ∧ (∀ i, clock w1 i = clock w (S n + i)%nat)
    ∧ (∀ i, oids w1 i = oids w i)
    ∧ stampedBy w (S n) post (set_status s post)
    ∧ (db w1 = db w ∨ db w1 = <[_id post := set_status s post]> (db w)).
Proof.
  destruct (refresh_cases post w) as [[Hsame Hr]|[Hdiff Hr]].
  - exists (status post), (tick w), 0%nat. rewrite set_status_same.
    split; [done|]. split_and!; [done|done|by left|by left].
  - eexists _, _, 1%nat. split; [exact Hr|].
    split_and!; [done|done| |by right].
    right. exists 1%nat. split; [lia|done].
Qed.

Lemma expiresAt_liked u p : expiresAt (liked u p) = expiresAt p.
Proof. unfold liked. cbn -[votedIn]. by destruct (votedIn u (dislikedBy p)). Qed.

Lemma expiresAt_disliked u p : expiresAt (disliked u p) = expiresAt p.
Proof.
  unfold disliked. cbn -[votedIn]. by destruct (votedIn u (likedBy p)).
Qed.

Section Transitions.
Context `{Platform}.

Lemma handle_snd h w : (handle h w).2 = (h w).2.
Proof. unfold handle. by destruct (h w) as [[?|?] ?]. Qed.

Lemma like_moves u id w :
  MovesBy VoteStep (toObjectId id) w (serve (ReqLike u id) w).2.
Proof.
  unfold serve. rewrite handle_snd. unfold route, like.
  destruct (isValidObjectId id); cbn [negb].
  2:{ step. by apply (Moves_quiet _ _ 0). }
  do 2 step. destruct (db w !! toObjectId id) as [post|] eqn:Hfound.
  2:{ by apply (Moves_quiet _ _ 0). }
  destruct (decide (userId (owner post) = userId u)) as [Hown|Hown].
  { rewrite bool_decide_true by done. step. by apply (Moves_quiet _ _ 0). }
  rewrite bool_decide_false by done. step.
  destruct (refresh_facts post w) as (s & w1 & n & Hr & Hc & Ho & Hst0 & Hdb).
  rewrite (bind_run _ _ _ _ _ Hr). cbv beta iota.
  destruct (statusAt (clock w 0%nat) (Some (expiresAt post))) eqn:Hst.
  2:{ rewrite (bool_decide_true (Expired ≠ Live)) by done. step.
      exact (Moves_refreshed _ VoteStep_status _ _ _ _ _ _ Hfound Hc Ho Hst0 Hdb). }
  rewrite (bool_decide_false (Live ≠ Live)) by (intros Hn; by apply Hn). step.
  change (existsb _ (likedBy (set_status s post)))
    with (votedIn (userId u) (likedBy post)).
  destruct (votedIn (userId u) (likedBy post)) eqn:Hvoted.
  { step. exact (Moves_refreshed _ VoteStep_status _ _ _ _ _ _ Hfound Hc Ho Hst0 Hdb). }
  step.
  change (save ?p) with (save (liked (userId u) (set_status s post))).
  step. cbn [mret Route_ret snd]. rewrite status_liked.
  eapply (Moves_saved VoteStep _ w w1 _ post s _ 1%nat 0%nat _ Hfound Hc Ho Hdb);
    [ | | |intros i; reflexivity|intros i; reflexivity|reflexivity].
  - eexists. right. left. split; [done|]. exists (userId u).
    split_and!; [done|done|reflexivity].
  - cbn [_id set_status]. apply _id_liked.
  - exists 0%nat. split; [lia|]. cbn [status set_status].
    by rewrite expiresAt_liked.
Qed.

Lemma dislike_moves u id w :
  MovesBy VoteStep (toObjectId id) w (serve (ReqDislike u id) w).2.
Proof.
  unfold serve. rewrite handle_snd. unfold route, dislike.
  destruct (isValidObjectId id); cbn [negb].
  2:{ step. by apply (Moves_quiet _ _ 0). }
  do 2 step. destruct (db w !! toObjectId id) as [post|] eqn:Hfound.
  2:{ by apply (Moves_quiet _ _ 0). }
  destruct (decide (userId (owner post) = userId u)) as [Hown|Hown].
  { rewrite bool_decide_true by done. step. by apply (Moves_quiet _ _ 0). }
  rewrite bool_decide_false by done. step.
  destruct (refresh_facts post w) as (s & w1 & n & Hr & Hc & Ho & Hst0 & Hdb).
  rewrite (bind_run _ _ _ _ _ Hr). cbv beta iota.
  destruct (statusAt (clock w 0%nat) (Some (expiresAt post))) eqn:Hst.
  2:{ rewrite (bool_decide_true (Expired ≠ Live)) by done. step.
      exact (Moves_refreshed _ VoteStep_status _ _ _ _ _ _ Hfound Hc Ho Hst0 Hdb). }
  rewrite (bool_decide_false (Live ≠ Live)) by (intros Hn; by apply Hn). step.
  change (existsb _ (dislikedBy (set_status s post)))
    with (votedIn (userId u) (dislikedBy post)).
  destruct (votedIn (userId u) (dislikedBy post)) eqn:Hvoted.
  { step. exact (Moves_refreshed _ VoteStep_status _ _ _ _ _ _ Hfound Hc Ho Hst0 Hdb). }
  step.
  change (save ?p) with (save (disliked (userId u) (set_status s post))).
  step. cbn [mret Route_ret snd]. rewrite status_disliked.
  eapply (Moves_saved VoteStep _ w w1 _ post s _ 1%nat 0%nat _ Hfound Hc Ho Hdb);
    [ | | |intros i; reflexivity|intros i; reflexivity|reflexivity].
  - eexists. right. right. split; [done|]. exists (userId u).
    split_and!; [done|done|reflexivity].
  - cbn [_id set_status]. apply _id_disliked.
  - exists 0%nat. split; [lia|]. cbn [status set_status].
    by rewrite expiresAt_disliked.
Qed.

Lemma comment_moves u id text w :
  MovesBy CommentStep (toObjectId id) w (serve (ReqComment u id text) w).2.
Proof.
  unfold serve. rewrite handle_snd. unfold route, comment.
  destruct (isValidObjectId id); cbn [negb].
  2:{ step. by apply (Moves_quiet _ _ 0). }
  step. set (txt := trim (String_ (or_ text (JStr [])))).
  destruct ((length txt <? 1)%nat || (500 <? length txt)%nat) eqn:Hlen.
  { step. by apply (Moves_quiet _ _ 0). }
  apply orb_false_iff in Hlen as [Hlo%Nat.ltb_ge Hhi%Nat.ltb_ge].
  do 2 step. destruct (db w !! toObjectId id) as [post|] eqn:Hfound.
  2:{ by apply (Moves_quiet _ _ 0). }
  destruct (refresh_facts post w) as (s & w1 & n & Hr & Hc & Ho & Hst0 & Hdb).
  rewrite (bind_run _ _ _ _ _ Hr). cbv beta iota.
  destruct (statusAt (clock w 0%nat) (Some (expiresAt post))) eqn:Hst.
  2:{ rewrite (bool_decide_true (Expired ≠ Live)) by done. step.
      exact (Moves_refreshed _ CommentStep_status _ _ _ _ _ _ Hfound Hc Ho Hst0 Hdb). }
  rewrite (bool_decide_false (Live ≠ Live)) by (intros Hn; by apply Hn).
  do 4 step. cbn [mret Route_ret snd].
  eapply (Moves_saved CommentStep _ w w1 _ post s _ 2%nat 1%nat _ Hfound Hc Ho Hdb);
    [ | | |intros i; reflexivity|intros i; reflexivity|reflexivity].
  - eexists. right. split; [done|]. eexists.
    split; [|reflexivity]. cbn [Comment.text]. lia.
  - reflexivity.
  - exists 1%nat. split; [lia|]. reflexivity.
Qed.

Lemma getPost_moves id w :
  MovesBy StatusStep (toObjectId id) w (handle (getPost id) w).2.
Proof.
  rewrite handle_snd. unfold getPost.
  destruct (isValidObjectId id); cbn [negb].
  2:{ step. by apply (Moves_quiet _ _ 0). }
  do 2 step. destruct (db w !! toObjectId id) as [post|] eqn:Hfound.
  2:{ by apply (Moves_quiet _ _ 0). }
  destruct (refresh_facts post w) as (s & w1 & n & Hr & Hc & Ho & Hst0 & Hdb).
  rewrite (bind_run _ _ _ _ _ Hr). cbv beta iota. cbn [mret Route_ret snd].
  exact (Moves_refreshed _ StatusStep_status _ _ _ _ _ _ Hfound Hc Ho Hst0 Hdb).
Qed.

(** A topic list that passes [isValidTopicList] is an array, not empty, of
    strings of the enumeration, and those strings are what is stored. *)
Lemma validTopics tp :
  isValidTopicList tp = true →
  ∃ items,
    tp = JArr items ∧ items ≠ []
    ∧ JStr <$> topicStrings tp = items
    ∧ Forall (λ t, t ∈ TOPICS) (topicStrings tp).
Proof.
  destruct tp as [| | | | |items|]; try discriminate. cbn [isValidTopicList].
  intros [Hlen Hall]%andb_true_iff. exists items.
  split; [done|]. split; [by destruct items|].
  cbn [topicStrings]. clear Hlen.
  induction items as [|v items IH]; [done|].
  cbn [forallb] in Hall. apply andb_true_iff in Hall as [Hv Hall].
  destruct (IH Hall) as [IH1 IH2].
  destruct v; try discriminate. cbn in Hv |- *.
  apply bool_decide_eq_true in Hv.
  split; [by rewrite IH1|by constructor].
Qed.

Lemma bind_ret {A B} (x : A) (k : A → Route B) w : (mret x ≫= k) w = k x w.
Proof. done. Qed.

Lemma bind_assoc {A B C} (m : Route A) (f : A → Route B) (g : B → Route C) w :
  ((m ≫= f) ≫= g) w = (m ≫= λ x, f x ≫= g) w.
Proof. unfold mbind, Route_bind. by destruct (m w) as [[?|?] ?]. Qed.

Lemma Births_quiet n w w' :
  (∀ i, clock w' i = clock w (n + i)%nat) → db w' = db w →
  (∀ i, oids w' i = oids w i) → Births w w'.
Proof. intros Hc Hd Ho. split; [by exists n|]. by left. Qed.

(** The tail of the creation route, once the expiration is a valid Date. *)
Lemma create_tail_births ttl tps bd exp ow n w w0 :
  (6 ≤ length ttl ≤ 120)%nat → (1 ≤ length bd ≤ 2000)%nat →
  tps ≠ [] → Forall (λ t, t ∈ TOPICS) tps →
  (∀ i, clock w0 i = clock w (n + i)%nat) → db w0 = db w →
  (∀ i, oids w0 i = oids w i) →
  Births w
    ((computeStatus (Some exp)
      ≫= λ st, Post_create ttl tps bd exp ow st
               ≫= λ post, mret (PostJson 201 post)) w0).2.
Proof.
  intros Ht Hb Hne Hall Hc Hd Ho.
  rewrite (bind_run _ _ _ _ _ (computeStatus_run _ _)). cbv beta.
  unfold Post_create. rewrite bind_assoc. step. rewrite bind_assoc.
  do 2 step. cbn [mret Route_ret snd]. split.
  - exists (n + 3)%nat. intros i. cbn [clock written tick].
    rewrite Hc. f_equal. lia.
  - right. eexists _, (n + 3)%nat. split_and!; cycle 4.
    + cbn. rewrite Hd, Ho. reflexivity.
    + intros i. cbn. apply Ho.
    + reflexivity.
    + unfold NewPost. cbn. destruct Ht, Hb. by split_and!.
    + intros i. cbn [clock written tick]. rewrite Hc. f_equal. lia.
    + exists (n + 2)%nat. split; [lia|]. cbn. by rewrite Hc.
Qed.

Lemma createPost_births u t b tp m e w :
  Births w (handle (createPost u t b tp m e) w).2.
Proof.
  rewrite handle_snd. unfold createPost.
  set (ttl := trim (String_ (or_ t (JStr [])))).
  set (bd := trim (String_ (or_ b (JStr [])))).
  destruct ((length ttl <? 6)%nat || (120 <? length ttl)%nat) eqn:Ht.
  { step. by apply (Births_quiet 0). }
  apply orb_false_iff in Ht as [Ht1%Nat.ltb_ge Ht2%Nat.ltb_ge]. step.
  destruct ((length bd <? 1)%nat || (2000 <? length bd)%nat) eqn:Hb.
  { step. by apply (Births_quiet 0). }
  apply orb_false_iff in Hb as [Hb1%Nat.ltb_ge Hb2%Nat.ltb_ge]. step.
  destruct (isValidTopicList tp) eqn:Htp; cbn [negb].
  2:{ step. by apply (Births_quiet 0). }
  step. destruct (validTopics tp Htp) as (items & -> & Hne & Hitems & Hall).
  assert (Hnonempty : topicStrings (JArr items) ≠ []).
  { intros Hnil. rewrite Hnil in Hitems. by destruct items. }
  destruct (truthy e).
  - rewrite bind_ret. destruct (newDate e) as [exp|].
    + by apply (create_tail_births _ _ _ _ _ 0).
    + by apply (Births_quiet 0).
  - rewrite bind_assoc.
    destruct ((toInt m 60 <? 1) || (60 * 24 * 7 <? toInt m 60)).
    { step. by apply (Births_quiet 0). }
    step. rewrite bind_assoc. step. rewrite bind_ret.
    destruct (TimeClip _) as [exp|].
    + by apply (create_tail_births _ _ _ _ _ 1).
    + by apply (Births_quiet 1).
Qed.

Lemma serve_moves r id w :
  addressed r = Some id → Moves (toObjectId id) w (serve r w).2.
Proof.
  destruct r; try discriminate; intros [= ->].
  - eapply MovesBy_mono; [apply StatusStep_PostStep|apply getPost_moves].
  - eapply MovesBy_mono; [apply VoteStep_PostStep|apply like_moves].
  - eapply MovesBy_mono; [apply VoteStep_PostStep|apply dislike_moves].
  - eapply MovesBy_mono; [apply CommentStep_PostStep|apply comment_moves].
Qed.

Lemma serve_transition r w : Transition w (serve r w).2.
Proof.
  destruct (addressed r) as [id|] eqn:Haddr.
  - destruct (serve_moves r id w Haddr) as [Hc [Hq|Hu]];
      (split; [done|]); [by left|right; left; by eexists].
  - destruct r as [u t b tp m e| | | |]; try discriminate.
    destruct (createPost_births u t b tp m e w) as [Hc [Hq|Hn]];
      (split; [done|]); [by left|by right; right].
Qed.

End Transitions.

Lemma status_liked_id u q : evolves q (liked u q).
Proof.
  unfold liked, evolves. destruct (votedIn u (dislikedBy q)); by split_and!.
Qed.

Lemma status_disliked_id u q : evolves q (disliked u q).
Proof.
  unfold disliked, evolves. destruct (votedIn u (likedBy q)); by split_and!.
Qed.

Lemma evolves_status s q q' : evolves q q' → evolves q (set_status s q').
Proof. done. Qed.

Lemma evolves_refl q : evolves q q.
Proof. by split_and!. Qed.

Lemma evolves_trans q1 q2 q3 : evolves q1 q2 → evolves q2 q3 → evolves q1 q3.
Proof.
  intros (?&?&?&?&?&?&?&?) (?&?&?&?&?&?&?&?).
  split_and!; try congruence. by etrans.
Qed.

Lemma PostStep_evolves now q q' : PostStep now q q' → evolves q q'.
Proof.
  intros (s & [->|[(_ & u & _ & _ & ->)|[(_ & u & _ & _ & ->)|
               (_ & c & _ & ->)]]]).
  - apply evolves_status, evolves_refl.
  - apply evolves_status, status_liked_id.
  - apply evolves_status, status_disliked_id.
  - split_and!; try done. by apply prefix_app_r.
Qed.

(** Once resolved Expired, a step can only restamp the status. *)
Lemma PostStep_expired now q q' :
  expiresAt q ≤ now → PostStep now q q' → ∃ s, q' = set_status s q.
Proof.
  intros He (s & Hcases).
  assert (Hst : statusAt now (Some (expiresAt q)) = Expired).
  { unfold statusAt. by rewrite (proj2 (Z.ltb_ge _ _)). }
  rewrite Hst in Hcases.
  destruct Hcases as [->|[[? _]|[[? _]|[? _]]]]; try discriminate. by exists s.
Qed.

Lemma liked_schemaValid u q : schemaValid q → schemaValid (liked u q).
Proof.
  intros (?&?&?&?&?&?&?). unfold liked, schemaValid.
  destruct (votedIn u (dislikedBy q)); cbn; split_and!; try done; lia.
Qed.

Lemma disliked_schemaValid u q : schemaValid q → schemaValid (disliked u q).
Proof.
  intros (?&?&?&?&?&?&?). unfold disliked, schemaValid.
  destruct (votedIn u (likedBy q)); cbn; split_and!; try done; lia.
Qed.

Lemma PostStep_schemaValid now q q' :
  schemaValid q → PostStep now q q' → schemaValid q'.
Proof.
  intros Hq (s & [->|[(_ & u & _ & _ & ->)|[(_ & u & _ & _ & ->)|
                  (_ & c & Hc & ->)]]]).
  - done.
  - by apply (liked_schemaValid u) in Hq.
  - by apply (disliked_schemaValid u) in Hq.
  - destruct Hq as (?&?&?&?&?&?&?). unfold schemaValid. cbn.
    split_and!; try done; try lia.
    apply Forall_app. split; [done|]. by constructor.
Qed.

Lemma NewPost_schemaValid p : NewPost p → schemaValid p.
Proof.
  intros (Hl & Hd & Hlc & Hdc & Hc & Ht & Hb & Hne & Hall).
  unfold schemaValid. rewrite Hlc, Hdc, Hc. split_and!; try done; lia.
Qed.

(** One request on a well-keyed collection with fresh generated ids: the
    collection stays so, and every document is still there, unchanged or
    changed by one step. *)
Lemma Transition_keeps w w' :
  wellKeyed w → freshIds w → Transition w w' →
  wellKeyed w' ∧ freshIds w'
  ∧ ∀ k q, db w !! k = Some q →
      ∃ q', db w' !! k = Some q' ∧ (q' = q ∨ PostStep (clock w 0%nat) q q').
Proof.
  intros Hkey [Hfresh Hinj]
    [_ [[Hdb Ho]|[(k0 & q0 & q0' & n & m & Hq0 & Hstep & _ & _ & Hdb & Ho)
                 |(p & n & Hid & _ & _ & _ & Hdb & Ho)]]].
  - split_and!.
    + intros k p. rewrite Hdb. apply Hkey.
    + split; intros n; [rewrite Hdb, Ho; apply Hfresh|].
      intros m. rewrite !Ho. apply Hinj.
    + intros k q Hq. exists q. rewrite Hdb. by split; [|left].
  - pose proof (Hkey _ _ Hq0) as Hk0.
    pose proof (PostStep_evolves _ _ _ Hstep) as (Hid' & _).
    split_and!.
    + intros k p. rewrite Hdb, Hk0. intros [[<- <-]|[_ Hp]]%lookup_insert_Some.
      * by rewrite Hid'.
      * by apply Hkey.
    + split.
      * intros i. rewrite Hdb, Ho, Hk0. rewrite lookup_insert_ne; [apply Hfresh|].
        intros ->. by rewrite Hfresh in Hq0.
      * intros i j. rewrite !Ho. intros Hij%Hinj. lia.
    + intros k q Hq. rewrite Hdb, Hk0.
      destruct (decide (k = k0)) as [->|Hne].
      * rewrite lookup_insert_eq. exists q0'. split; [done|]. right.
        rewrite Hq0 in Hq. by injection Hq as <-.
      * rewrite lookup_insert_ne by done. exists q. by split; [|left].
  - split_and!.
    + intros k q. rewrite Hdb. intros [[<- <-]|[_ Hq]]%lookup_insert_Some.
      * done.
      * by apply Hkey.
    + split.
      * intros i. rewrite Hdb, Ho. rewrite lookup_insert_ne; [apply Hfresh|].
        intros Heq%Hinj. lia.
      * intros i j. rewrite !Ho. intros Hij%Hinj. lia.
    + intros k q Hq. rewrite Hdb. exists q. split; [|by left].
      rewrite lookup_insert_ne; [done|]. intros <-. by rewrite Hfresh in Hq.
Qed.

(* ===================================================================== *)
(** * The life of a post over a sequence of requests *)
(* ===================================================================== *)

Section Lifecycle.
Context `{Platform}.

(** X1. In a collection where every document is stored under its id and the
    generated ObjectIds are new, no sequence of requests deletes a post or
    moves it to another id, and none rewrites its title, topics, body, owner,
    creation or expiration time; the comments a post had stay the first
    comments of the post, in their order, unaltered. *)
Theorem posts_persist (rs : list Request) (w : World) :
  wellKeyed w → freshIds w →
  wellKeyed (serveAll rs w) ∧ freshIds (serveAll rs w)
  ∧ ∀ k q, db w !! k = Some q →
      ∃ q', db (serveAll rs w) !! k = Some q' ∧ evolves q q'.
Proof.
  revert w. induction rs as [|r rs IH]; intros w Hkey Hfresh.
  { split_and!; [done|done|]. intros k q Hq. exists q.
    split; [done|apply evolves_refl]. }
  cbn [serveAll].
  destruct (Transition_keeps w (serve r w).2 Hkey Hfresh (serve_transition r w))
    as (Hkey' & Hfresh' & Hposts).
  destruct (IH _ Hkey' Hfresh') as (Hkey'' & Hfresh'' & Hrest).
  split_and!; [done|done|].
  intros k q Hq. destruct (Hposts k q Hq) as (q1 & Hq1 & Hstep).
  destruct (Hrest k q1 Hq1) as (q2 & Hq2 & Hev). exists q2. split; [done|].
  destruct Hstep as [->|Hstep]; [done|].
  eapply evolves_trans; [by eapply PostStep_evolves|done].
Qed.

(** X2. Expiry is final.  With a clock that never goes back, a post whose
    expiration is not after the current reading keeps, through any sequence of
    requests, its votes, its counters and its comments: whatever is stored
    under its id afterwards is the same document, its stored status apart. *)
Theorem expired_is_final (rs : list Request) (w : World) (k : ObjectId)
    (q : Post) :
  wellKeyed w → freshIds w → monotone w →
  db w !! k = Some q →
  expiresAt q ≤ clock w 0%nat →
  ∃ s, db (serveAll rs w) !! k = Some (set_status s q).
Proof.
  intros Hkey Hfresh Hmono Hq Hexp.
  assert (Hlate : ∀ n, expiresAt q ≤ clock w n).
  { induction n as [|n IHn]; [done|]. specialize (Hmono n). lia. }
  assert (Hq' : db w !! k = Some (set_status (status q) q))
    by (by rewrite set_status_same).
  clear Hmono Hexp Hq. revert w Hkey Hfresh Hlate Hq'.
  generalize (status q) as s.
  induction rs as [|r rs IH]; intros s w Hkey Hfresh Hlate Hq; [by exists s|].
  cbn [serveAll].
  pose proof (serve_transition r w) as Htr.
  destruct (Transition_keeps w _ Hkey Hfresh Htr) as (Hkey' & Hfresh' & Hposts).
  destruct (Hposts k _ Hq) as (q1 & Hq1 & Hstep).
  assert (∃ s1, q1 = set_status s1 q) as [s1 ->].
  { destruct Hstep as [->|Hstep]; [by exists s|].
    apply PostStep_expired in Hstep as [s1 ->]; [by exists s1|apply Hlate]. }
  apply (IH s1 _ Hkey' Hfresh'); [|done].
  destruct Htr as [[n Hn] _]. intros i. rewrite Hn. apply Hlate.
Qed.

(** X3. A read, a vote or a comment touches the post it addresses and no
    other: every document stored under another id is what it was, and no id
    is added to the collection or removed from it. *)
Theorem request_touches_one_post (r : Request) (id : jsstring) (w : World) :
  addressed r = Some id →
  wellKeyed w →
  (∀ k, k ≠ toObjectId id → db (serve r w).2 !! k = db w !! k)
  ∧ (∀ k, is_Some (db (serve r w).2 !! k) ↔ is_Some (db w !! k)).
Proof.
  intros Haddr Hkey.
  pose proof (serve_moves r id w Haddr) as Hmoves.
  destruct Hmoves as [_ [[Hdb _]|(q & q' & n & m & Hq & _ & _ & _ & Hdb & _)]].
  - rewrite Hdb. done.
  - rewrite Hdb, (Hkey _ _ Hq). split; intros k.
    + intros Hne. by rewrite lookup_insert_ne.
    + destruct (decide (k = toObjectId id)) as [->|Hne].
      * rewrite lookup_insert_eq, Hq. by split.
      * by rewrite lookup_insert_ne.
Qed.

(** X4. The documents the routes write pass the validators of the Post
    schema on the fields they write: if every post of the collection has a
    title of 2 to 120 code units, a body of 1 to 2000, topics of the
    enumeration, counters not below 0 and comment texts of 1 to 500, then so
    has every post after any sequence of requests. *)
Theorem schema_kept (rs : list Request) (w : World) :
  (∀ k p, db w !! k = Some p → schemaValid p) →
  ∀ k p, db (serveAll rs w) !! k = Some p → schemaValid p.
Proof.
  revert w. induction rs as [|r rs IH]; intros w Hvalid; [done|].
  cbn [serveAll]. apply IH. intros k p.
  destruct (serve_transition r w)
    as [_ [[-> _]|[(k0 & q & q' & n & m & Hq & Hstep & _ & _ & -> & _)
                  |(p0 & n & _ & Hnew & _ & _ & -> & _)]]].
  - apply Hvalid.
  - intros [[_ <-]|[_ Hp]]%lookup_insert_Some; [|by eapply Hvalid].
    eapply PostStep_schemaValid; [by eapply Hvalid|done].
  - intros [[_ <-]|[_ Hp]]%lookup_insert_Some; [|by eapply Hvalid].
    by apply NewPost_schemaValid.
Qed.

Lemma monotone_le w i j : monotone w → (i ≤ j)%nat → clock w i ≤ clock w j.
Proof.
  intros Hm Hij. induction Hij as [|j Hij IH]; [lia|].
  specialize (Hm j). lia.
Qed.

Lemma statusAt_Expired now e : statusAt now (Some e) = Expired → e ≤ now.
Proof. unfold statusAt. destruct (Z.ltb_spec now e); [discriminate|done]. Qed.

Lemma stampedBy_expired w n q q' :
  monotone w → expiresAt q' = expiresAt q →
  (status q = Expired → expiresAt q ≤ clock w 0%nat) →
  stampedBy w n q q' → status q' = Expired →
  expiresAt q' ≤ clock w (n + 0)%nat.
Proof.
  intros Hm He Hq [Hs|(i & Hi & Hs)] Hexp; rewrite He.
  - rewrite Hs in Hexp. etrans; [by apply Hq|]. apply monotone_le; [done|lia].
  - rewrite Hs in Hexp. apply statusAt_Expired in Hexp.
    etrans; [done|]. apply monotone_le; [done|lia].
Qed.

(** X5. The cached status errs on one side only.  With a clock that never
    goes back, if every post stored as Expired has really expired, this is
    still so after any sequence of requests: no route stores Expired on a
    post whose expiration is still ahead. *)
Theorem stored_expired_is_right (rs : list Request) (w : World) :
  monotone w → expiredForReal w →
  monotone (serveAll rs w) ∧ expiredForReal (serveAll rs w).
Proof.
  revert w. induction rs as [|r rs IH]; intros w Hm Hexp; [done|].
  cbn [serveAll]. destruct (serve_transition r w) as [[n Hn] Hcases].
  set (w' := (serve r w).2) in *.
  assert (Hm' : monotone w').
  { intros i. rewrite !Hn. replace (n + S i)%nat with (S (n + i)) by lia.
    apply Hm. }
  apply IH; [done|]. intros k p.
  destruct Hcases as [[-> _]|[(k0 & q & q' & n' & m & Hq & Hstep & Hc & Hst & -> & _)
                              |(p0 & n' & _ & _ & Hc & Hst & -> & _)]].
  - intros Hp Hs. rewrite Hn. etrans; [by eapply Hexp|].
    apply monotone_le; [done|lia].
  - intros [[_ <-]|[_ Hp]]%lookup_insert_Some Hs.
    + rewrite Hc. apply (stampedBy_expired w n' q q'); try done.
      * by apply PostStep_evolves in Hstep as (_&_&_&_&_&?&_).
      * by apply Hexp in Hq.
    + rewrite Hn. etrans; [by eapply Hexp|]. apply monotone_le; [done|lia].
  - intros [[_ <-]|[_ Hp]]%lookup_insert_Some Hs.
    + destruct Hst as (i & Hi & Hst). rewrite Hs in Hst.
      symmetry in Hst. apply statusAt_Expired in Hst.
      rewrite Hc. etrans; [done|]. apply monotone_le; [done|lia].
    + rewrite Hn. etrans; [by eapply Hexp|]. apply monotone_le; [done|lia].
Qed.

Lemma VoteStep_comments now q q' : VoteStep now q q' → comments q' = comments q.
Proof.
  intros (s & [->|[(_ & u & _ & _ & ->)|(_ & u & _ & _ & ->)]]); [done|..].
  - unfold liked. by destruct (votedIn u (dislikedBy q)).
  - unfold disliked. by destruct (votedIn u (likedBy q)).
Qed.

Lemma CommentStep_votes now q q' :
  CommentStep now q q' → voteState q' = voteState q.
Proof. by intros (s & [->|(_ & c & _ & ->)]). Qed.

Lemma MovesBy_fields {A} (f : Post → A) R k w w' :
  wellKeyed w →
  (∀ now q q', R now q q' → f q' = f q) →
  MovesBy R k w w' →
  ∀ i, f <$> db w' !! i = f <$> db w !! i.
Proof.
  intros Hkey Hf [_ [[-> _]|(q & q' & n & m & Hq & HR & _ & _ & -> & _)]] i;
    [done|].
  rewrite (Hkey _ _ Hq). destruct (decide (i = k)) as [->|Hne].
  - rewrite lookup_insert_eq, Hq. cbn. f_equal. by eapply Hf.
  - by rewrite lookup_insert_ne.
Qed.

(** X21. Votes and comments do not touch each other.  A like or a dislike,
    whatever its reply, leaves the comments of every post as they are; a
    comment or a read, whatever its reply, leaves the vote state of every
    post as it is, and a read the comments too. *)
Theorem votes_and_comments_apart (u : User) (id : jsstring) (text : Value)
    (w : World) :
  wellKeyed w →
  (∀ i, comments <$> db (serve (ReqLike u id) w).2 !! i
          = comments <$> db w !! i)
  ∧ (∀ i, comments <$> db (serve (ReqDislike u id) w).2 !! i
            = comments <$> db w !! i)
  ∧ (∀ i, voteState <$> db (serve (ReqComment u id text) w).2 !! i
            = voteState <$> db w !! i)
  ∧ (∀ i, voteState <$> db (serve (ReqGet id) w).2 !! i
            = voteState <$> db w !! i)
  ∧ (∀ i, comments <$> db (serve (ReqGet id) w).2 !! i
            = comments <$> db w !! i).
Proof.
  intros Hkey. split_and!.
  - eapply MovesBy_fields; [done|apply VoteStep_comments|apply like_moves].
  - eapply MovesBy_fields; [done|apply VoteStep_comments|apply dislike_moves].
  - eapply MovesBy_fields; [done|apply CommentStep_votes|apply comment_moves].
  - eapply (MovesBy_fields _ StatusStep); [done| |apply getPost_moves].
    by intros now q q' [s ->].
  - eapply (MovesBy_fields _ StatusStep); [done| |apply getPost_moves].
    by intros now q q' [s ->].
Qed.

End Lifecycle.

(* ===================================================================== *)
(** * What the list queries return *)
(* ===================================================================== *)

Lemma sublist_StronglySorted {A} (R : relation A) (l1 l2 : list A) :
  l1 `sublist_of` l2 → StronglySorted R l2 → StronglySorted R l1.
Proof.
  induction 1 as [|x l1 l2 Hsub IH|x l1 l2 Hsub IH]; intros Hs; [done| |].
  - apply StronglySorted_cons in Hs as [Hall Hs]. constructor; [by apply IH|].
    apply Forall_forall. intros y Hy.
    eapply Forall_forall in Hall; [done|]. by eapply elem_of_sublist.
  - apply StronglySorted_cons in Hs as [_ Hs]. by apply IH.
Qed.

(** What [find(f).sort(keys)] followed by cursor operations that only drop
    documents returns: documents of the collection that match [f], before one
    another in the order of the sort. *)
Lemma ranked_page_elem w f keys (page : list Post → list Post) p :
  dropsOnly page →
  p ∈ page (sortDesc keys (List.filter f (map_to_list (db w)).*2)) →
  (∃ k, db w !! k = Some p) ∧ f p = true.
Proof.
  intros Hpage Hp. apply elem_of_find.
  eapply elem_of_sublist in Hp; [|apply Hpage]. unfold sortDesc in Hp.
  by rewrite merge_sort_Permutation in Hp.
Qed.

Lemma ranked_page_sorted w f keys (page : list Post → list Post) :
  dropsOnly page →
  StronglySorted (λ p q, descBy keys p q)
    (page (sortDesc keys (List.filter f (map_to_list (db w)).*2))).
Proof.
  intros Hpage. eapply sublist_StronglySorted; [apply Hpage|]. unfold sortDesc.
  pose proof (descBy_total keys). pose proof (descBy_trans keys).
  apply (StronglySorted_merge_sort (λ p q : Post, descBy keys p q)).
Qed.

Lemma descBy_one key p q : descBy [key] p q ↔ key q ≤ key p.
Proof.
  rewrite descBy_cons. cbn [descBy]. split; [intros [?|[? _]]; lia|].
  intros Hle. destruct (Z.eq_dec (key q) (key p)); [by right|left; lia].
Qed.

Lemma StronglySorted_impl {A} (R S : relation A) l :
  (∀ x y, R x y → S x y) → StronglySorted R l → StronglySorted S l.
Proof.
  intros HRS. induction 1 as [|x l Hl IH Hall]; constructor; [done|].
  eapply Forall_impl; [done|]. auto.
Qed.

(** The two ways of the topic filter: the request is answered 400, or the
    filter goes on, and then a topic that was given holds of what it lets
    through. *)
Lemma topicFilter_run (topic : option jsstring) w :
  (∃ t, topic = Some t ∧ t ≠ [] ∧ (t ∉ TOPICS)
        ∧ topicFilter topic w
            = (inl (Error 400
                      "topic must be one of: Politics, Health, Sport, Tech"), w))
  ∨ (∃ f, topicFilter topic w = (inr f, w)
          ∧ ∀ t, topic = Some t → t ≠ [] →
              t ∈ TOPICS ∧ ∀ p, f p = true → t ∈ topics p).
Proof.
  destruct topic as [[|c r]|]; cbn [topicFilter].
  - right. eexists. split; [reflexivity|]. by intros t [= <-].
  - destruct (decide (c :: r ∈ TOPICS)) as [Hin|Hout].
    + right. rewrite (bool_decide_true _ Hin). cbn [negb]. step.
      eexists. split; [reflexivity|]. intros t [= <-] _. split; [done|].
      intros p Hp. by apply bool_decide_eq_true in Hp.
    + left. rewrite (bool_decide_false _ Hout). cbn [negb]. exists (c :: r).
      split_and!; first [done | by step].
  - right. eexists. split; [reflexivity|]. by intros t [=].
Qed.

Lemma statusFilter_run (wanted : option jsstring) w :
  (∃ st, wanted = Some st ∧ st ≠ [] ∧ (st ∉ [lit "Live"; lit "Expired"])
         ∧ statusFilter wanted w
             = (inl (Error 400 "status must be Live or Expired"), w))
  ∨ (∃ f, statusFilter wanted w = (inr f, w)
          ∧ ∀ st, wanted = Some st → st ≠ [] →
              st ∈ [lit "Live"; lit "Expired"]
              ∧ ∀ p, f p = true → statusName (status p) = st).
Proof.
  destruct wanted as [[|c r]|]; cbn [statusFilter].
  - right. eexists. split; [reflexivity|]. by intros t [= <-].
  - destruct (decide (c :: r ∈ [lit "Live"; lit "Expired"])) as [Hin|Hout].
    + right. rewrite (bool_decide_true _ Hin). cbn [negb]. step.
      eexists. split; [reflexivity|]. intros t [= <-] _. split; [done|].
      intros p Hp. by apply bool_decide_eq_true in Hp.
    + left. rewrite (bool_decide_false _ Hout). cbn [negb]. exists (c :: r).
      split_and!; first [done | by step].
  - right. eexists. split; [reflexivity|]. by intros t [=].
Qed.

Section Pages.
Context `{Platform}.
Hypothesis skip_drops : ∀ n, dropsOnly (cursor_skip n).
Hypothesis limit_drops : ∀ n, dropsOnly (cursor_limit n).

Lemma page_drops n m : dropsOnly (λ l, cursor_limit n (cursor_skip m l)).
Proof. intros l. etrans; [apply limit_drops|apply skip_drops]. Qed.

(** X6. With a cursor whose skip and limit only drop documents, the expired
    history of a topic of the enumeration is read-only and answers 200 with
    posts of the collection that are tagged with the topic and stored as
    Expired, the later expiration first.  Where the stored Expired statuses
    are right, every post listed has expired by the current clock reading. *)
Theorem expired_history_sound (topic : jsstring) (ql qs : Value) (w : World) :
  topic ∈ TOPICS →
  ∃ posts,
    handle (expiredHistory topic ql qs) w = (PostsJson 200 posts, w)
    ∧ (∀ p, p ∈ posts →
         (∃ k, db w !! k = Some p) ∧ topic ∈ topics p ∧ status p = Expired)
    ∧ StronglySorted (λ p q, expiresAt q ≤ expiresAt p) posts
    ∧ (expiredForReal w → ∀ p, p ∈ posts → expiresAt p ≤ clock w 0%nat).
Proof.
  intros Ht. eexists. split.
  { unfold handle, expiredHistory. rewrite bool_decide_true by done.
    cbn [negb]. step. unfold find, allPosts. route_unfold. reflexivity. }
  pose proof (page_drops (expiredLimit ql) (expiredSkip qs)) as Hdrops.
  assert (Hin : ∀ p, p ∈ cursor_limit (expiredLimit ql)
                       (cursor_skip (expiredSkip qs)
                          (sortDesc [expiresAt]
                             (List.filter (hasTopicExpired topic)
                                (map_to_list (db w)).*2))) →
                 (∃ k, db w !! k = Some p) ∧ topic ∈ topics p
                 ∧ status p = Expired).
  { intros p Hp.
    destruct (ranked_page_elem w _ _ _ p Hdrops Hp) as [Hk Hf].
    split; [done|]. unfold hasTopicExpired, hasTopic in Hf.
    apply andb_true_iff in Hf as [?%bool_decide_eq_true ?%bool_decide_eq_true].
    done. }
  split_and!; [done| |].
  - eapply StronglySorted_impl;
      [|apply (ranked_page_sorted w _ [expiresAt] _ Hdrops)].
    intros x y. apply descBy_one.
  - intros Hreal p Hp. destruct (Hin p Hp) as ([k Hk] & _ & Hs).
    by eapply Hreal.
Qed.

(** X7. The list route is read-only, and its reply is decided in this
    order.  A topic that is given, not empty and outside the enumeration is
    answered 400.  The topic passing, a status that is given, not empty and
    neither Live nor Expired is answered 400.  Both passing, the answer is 200
    with (for a cursor whose skip and limit only drop documents) posts of the
    collection, the later created first, each tagged with the topic if one is
    given and stored with the status if one is given. *)
Theorem list_posts_filtered (qt qs ql qk : Value) (w : World) :
  let badTopic :=
    ∃ t, queryString qt = Some t ∧ t ≠ [] ∧ (t ∉ TOPICS) in
  let badStatus :=
    ∃ st, queryString qs = Some st ∧ st ≠ []
          ∧ (st ∉ [lit "Live"; lit "Expired"]) in
  (badTopic →
     handle (listPosts qt qs ql qk) w
       = (Error 400 "topic must be one of: Politics, Health, Sport, Tech", w))
  ∧ (¬ badTopic → badStatus →
     handle (listPosts qt qs ql qk) w
       = (Error 400 "status must be Live or Expired", w))
  ∧ (¬ badTopic → ¬ badStatus →
     ∃ posts,
       handle (listPosts qt qs ql qk) w = (PostsJson 200 posts, w)
       ∧ (∀ p, p ∈ posts →
            (∃ k, db w !! k = Some p)
            ∧ (∀ t, queryString qt = Some t → t ≠ [] → t ∈ topics p)
            ∧ (∀ st, queryString qs = Some st → st ≠ [] →
                 statusName (status p) = st))
       ∧ StronglySorted (λ p q, createdAt q ≤ createdAt p) posts).
Proof.
  intros badTopic badStatus. unfold handle, listPosts.
  set (limit := Fin (Z.min (toInt ql 20) 50)).
  set (skip := Fin (Z.max (toInt qk 0) 0)).
  pose proof (page_drops limit skip) as Hdrops.
  destruct (topicFilter_run (queryString qt) w)
    as [(t & Ht & Hne & Hout & Hrun)|(f & Hrun & Hf)].
  { assert (Hbad : badTopic) by (by exists t).
    rewrite (bind_sent _ _ _ _ _ Hrun). by split_and!. }
  assert (Hgood : ¬ badTopic).
  { intros (t & Ht & Hne & Hout). by destruct (Hf t Ht Hne) as [? _]. }
  rewrite (bind_run _ _ _ _ _ Hrun). cbv beta.
  destruct (statusFilter_run (queryString qs) w)
    as [(st & Hst & Hne & Hout & Hrun')|(g & Hrun' & Hg)].
  { assert (Hbad : badStatus) by (by exists st).
    rewrite (bind_sent _ _ _ _ _ Hrun'). by split_and!. }
  assert (Hgood' : ¬ badStatus).
  { intros (st & Hst & Hne & Hout). by destruct (Hg st Hst Hne) as [? _]. }
  rewrite (bind_run _ _ _ _ _ Hrun'). cbv beta.
  split_and!; [done|done|]. intros _ _.
  eexists. split; [reflexivity|]. split.
  - intros p [Hk Hfg]%(ranked_page_elem w _ _ _ p Hdrops).
    apply andb_true_iff in Hfg as [Hfp Hgp]. split_and!; [done| |].
    + intros t Ht Hne. by apply (Hf t Ht Hne).
    + intros st Hst Hne. by apply (Hg st Hst Hne).
  - eapply StronglySorted_impl;
      [|apply (ranked_page_sorted w _ [createdAt] _ Hdrops)].
    intros x y. apply descBy_one.
Qed.

End Pages.

(* ===================================================================== *)
(** * The replies of the vote, comment and read routes *)
(* ===================================================================== *)

Section Replies.
Context `{Platform}.

Lemma like_reply u id w :
  (serve (ReqLike u id) w).1 =
    if negb (isValidObjectId id) then InvalidId else
    match db w !! toObjectId id with
    | None => NotFound
    | Some post =>
        if bool_decide (userId (owner post) = userId u) then SelfLikeError else
        match statusAt (clock w 0%nat) (Some (expiresAt post)) with
        | Expired => ExpiredError
        | Live =>
            if votedIn (userId u) (likedBy post) then DuplicateLikeError
            else VoteJson 200 "Liked" (likesCount (liked (userId u) post))
                   (dislikesCount (liked (userId u) post))
        end
    end.
Proof.
  destruct (isValidObjectId id) eqn:Hid; cbn [negb].
  2:{ unfold serve, handle, route, like. rewrite Hid. cbn [negb]. by step. }
  destruct (db w !! toObjectId id) as [post|] eqn:Hfound.
  2:{ unfold serve, handle, route, like. rewrite Hid. cbn [negb].
      do 2 step. by rewrite Hfound. }
  destruct (decide (userId (owner post) = userId u)) as [Hown|Hown].
  { rewrite bool_decide_true by done.
    unfold serve, handle, route, like. rewrite Hid. cbn [negb].
    do 2 step. rewrite Hfound, bool_decide_true by done. by step. }
  rewrite bool_decide_false by done.
  destruct (statusAt (clock w 0%nat) (Some (expiresAt post))) eqn:Hst.
  - destruct (votedIn (userId u) (likedBy post)) eqn:Hv.
    + destruct (duplicate_run u id w post Hid Hfound Hown Hst)
        as (s & w' & _ & Hrun & _). by rewrite (Hrun Hv).
    + destruct (like_run u id w post Hid Hfound Hown Hst Hv)
        as (s & w' & Hrun & _). by rewrite Hrun.
  - destruct (refresh_run post w) as (s & w1 & Hr & _ & _). rewrite Hst in Hr.
    unfold serve, handle, route, like. rewrite Hid. cbn [negb].
    do 2 step. rewrite Hfound, bool_decide_false by done. step.
    rewrite (bind_run _ _ _ _ _ Hr). by cbn.
Qed.

Lemma dislike_reply u id w :
  (serve (ReqDislike u id) w).1 =
    if negb (isValidObjectId id) then InvalidId else
    match db w !! toObjectId id with
    | None => NotFound
    | Some post =>
        if bool_decide (userId (owner post) = userId u) then SelfDislikeError
        else
        match statusAt (clock w 0%nat) (Some (expiresAt post)) with
        | Expired => ExpiredError
        | Live =>
            if votedIn (userId u) (dislikedBy post) then DuplicateDislikeError
            else VoteJson 200 "Disliked"
                   (likesCount (disliked (userId u) post))
                   (dislikesCount (disliked (userId u) post))
        end
    end.
Proof.
  destruct (isValidObjectId id) eqn:Hid; cbn [negb].
  2:{ unfold serve, handle, route, dislike. rewrite Hid. cbn [negb]. by step. }
  destruct (db w !! toObjectId id) as [post|] eqn:Hfound.
  2:{ unfold serve, handle, route, dislike. rewrite Hid. cbn [negb].
      do 2 step. by rewrite Hfound. }
  destruct (decide (userId (owner post) = userId u)) as [Hown|Hown].
  { rewrite bool_decide_true by done.
    unfold serve, handle, route, dislike. rewrite Hid. cbn [negb].
    do 2 step. rewrite Hfound, bool_decide_true by done. by step. }
  rewrite bool_decide_false by done.
  destruct (statusAt (clock w 0%nat) (Some (expiresAt post))) eqn:Hst.
  - destruct (votedIn (userId u) (dislikedBy post)) eqn:Hv.
    + destruct (duplicate_run u id w post Hid Hfound Hown Hst)
        as (s & w' & _ & _ & Hrun). by rewrite (Hrun Hv).
    + destruct (dislike_run u id w post Hid Hfound Hown Hst Hv)
        as (s & w' & Hrun & _). by rewrite Hrun.
  - destruct (refresh_run post w) as (s & w1 & Hr & _ & _). rewrite Hst in Hr.
    unfold serve, handle, route, dislike. rewrite Hid. cbn [negb].
    do 2 step. rewrite Hfound, bool_decide_false by done. step.
    rewrite (bind_run _ _ _ _ _ Hr). by cbn.
Qed.

(** X8. The reply of a vote is decided, in this order, by the validity of the
    id (400), the presence of the post (404), the ownership (403), the status
    resolved at the first clock reading of the request (403), a vote of the
    same kind already held (409); otherwise it is 200 with the counters of the
    post once the vote is recorded.  The stored status plays no part in it. *)
Theorem vote_reply_table (u : User) (id : jsstring) (w : World) :
  (serve (ReqLike u id) w).1 =
    (if negb (isValidObjectId id) then InvalidId else
     match db w !! toObjectId id with
     | None => NotFound
     | Some post =>
         if bool_decide (userId (owner post) = userId u) then SelfLikeError
         else
         match statusAt (clock w 0%nat) (Some (expiresAt post)) with
         | Expired => ExpiredError
         | Live =>
             if votedIn (userId u) (likedBy post) then DuplicateLikeError
             else VoteJson 200 "Liked" (likesCount (liked (userId u) post))
                    (dislikesCount (liked (userId u) post))
         end
     end)
  ∧ (serve (ReqDislike u id) w).1 =
    (if negb (isValidObjectId id) then InvalidId else
     match db w !! toObjectId id with
     | None => NotFound
     | Some post =>
         if bool_decide (userId (owner post) = userId u) then SelfDislikeError
         else
         match statusAt (clock w 0%nat) (Some (expiresAt post)) with
         | Expired => ExpiredError
         | Live =>
             if votedIn (userId u) (dislikedBy post)
             then DuplicateDislikeError
             else VoteJson 200 "Disliked"
                    (likesCount (disliked (userId u) post))
                    (dislikesCount (disliked (userId u) post))
         end
     end).
Proof. split; [apply like_reply|apply dislike_reply]. Qed.

(** X9. A like is answered 200 exactly when the id is valid, a post is
    stored under it, the user is not its owner, the post resolves to Live at
    the first clock reading and the user is not in [likedBy]; and then the
    post stored under its id holds the user in [likedBy], and its counters
    are the ones of the reply. *)
Theorem like_succeeds_iff (u : User) (id : jsstring) (w : World) :
  ((∃ l d, (serve (ReqLike u id) w).1 = VoteJson 200 "Liked" l d)
   ↔ isValidObjectId id = true
     ∧ ∃ post, db w !! toObjectId id = Some post
         ∧ userId (owner post) ≠ userId u
         ∧ statusAt (clock w 0%nat) (Some (expiresAt post)) = Live
         ∧ userId u ∉ likedBy post)
  ∧ (wellKeyed w → ∀ l d,
       (serve (ReqLike u id) w).1 = VoteJson 200 "Liked" l d →
       ∃ p', db (serve (ReqLike u id) w).2 !! toObjectId id = Some p'
             ∧ userId u ∈ likedBy p' ∧ (userId u ∉ dislikedBy p')
             ∧ likesCount p' = l ∧ dislikesCount p' = d).
Proof.
  assert (Hfwd : ∀ l d, (serve (ReqLike u id) w).1 = VoteJson 200 "Liked" l d →
    isValidObjectId id = true
    ∧ ∃ post, db w !! toObjectId id = Some post
        ∧ userId (owner post) ≠ userId u
        ∧ statusAt (clock w 0%nat) (Some (expiresAt post)) = Live
        ∧ votedIn (userId u) (likedBy post) = false
        ∧ l = likesCount (liked (userId u) post)
        ∧ d = dislikesCount (liked (userId u) post)).
  { intros l d. rewrite like_reply.
    destruct (isValidObjectId id); cbn [negb]; [|discriminate].
    destruct (db w !! toObjectId id) as [post|]; [|discriminate].
    destruct (bool_decide_reflect (userId (owner post) = userId u));
      [discriminate|].
    destruct (statusAt _ _) eqn:Hst; [|discriminate].
    destruct (votedIn _ _) eqn:Hv; [discriminate|].
    intros [= <- <-]. split; [done|]. by exists post. }
  split; [split|].
  - intros (l & d & Hr). destruct (Hfwd l d Hr) as (? & post & ? & ? & ? & ? & _).
    split; [done|]. exists post. split_and!; try done. by apply votedIn_false.
  - intros (Hid & post & Hfound & Hown & Hst & Hv%votedIn_false).
    destruct (like_run u id w post Hid Hfound Hown Hst Hv) as (s & w' & -> & _).
    by eexists _, _.
  - intros Hkey l d Hr.
    destruct (Hfwd l d Hr) as (Hid & post & Hfound & Hown & Hst & Hv & Hl & Hd).
    destruct (like_run u id w post Hid Hfound Hown Hst Hv)
      as (s & w' & Hrun & Hdb & _). rewrite Hrun. cbn [snd].
    rewrite Hdb, (Hkey _ _ Hfound), lookup_insert_eq. eexists. split; [done|].
    rewrite Hl, Hd. clear Hl Hd Hrun Hdb Hr. unfold liked.
    destruct (votedIn (userId u) (dislikedBy post)) eqn:Hvd; cbn;
      split_and!; try done.
    + apply elem_of_app. right. by apply list_elem_of_singleton.
    + by intros [_ ?]%elem_of_unvote.
    + apply elem_of_app. right. by apply list_elem_of_singleton.
    + by apply votedIn_false.
Qed.

(** X10. The reply of a comment is decided, in this order, by the validity
    of the id (400), the length of the trimmed text (400), the presence of the
    post (404) and the status resolved at the first clock reading (403);
    otherwise it is 201 with the new count and the comment appended: the next
    generated ObjectId, the user's snapshot, the trimmed text, and the clock
    reading that follows the refresh (the second of the request, or the third
    when the refresh had to save). *)
Theorem comment_reply_table (u : User) (id : jsstring) (text : Value)
    (w : World) :
  (serve (ReqComment u id text) w).1 =
    let txt := trim (String_ (or_ text (JStr []))) in
    if negb (isValidObjectId id) then InvalidId else
    if (length txt <? 1)%nat || (500 <? length txt)%nat
    then CommentValidationError else
    match db w !! toObjectId id with
    | None => NotFound
    | Some post =>
        match statusAt (clock w 0%nat) (Some (expiresAt post)) with
        | Expired => ExpiredError
        | Live =>
            CommentJson 201 "Comment added" (S (length (comments post)))
              (Some {| Comment._id := oids w 0%nat;
                       Comment.user := {| userId := userId u; name := name u |};
                       Comment.text := txt;
                       Comment.createdAt :=
                         clock w (if bool_decide (status post = Live)
                                  then 1 else 2)%nat |})
        end
    end.
Proof.
  cbv zeta. unfold serve, handle, route, comment.
  set (txt := trim (String_ (or_ text (JStr [])))).
  destruct (isValidObjectId id); cbn [negb]; [|by step].
  step. destruct ((length txt <? 1)%nat || (500 <? length txt)%nat);
    [by step|].
  do 2 step. destruct (db w !! toObjectId id) as [post|]; [|done].
  destruct (refresh_cases post w) as [[Hsame Hr]|[Hdiff Hr]];
    rewrite (bind_run _ _ _ _ _ Hr); cbv beta iota;
    destruct (statusAt (clock w 0%nat) (Some (expiresAt post))) eqn:Hst;
    try (rewrite (bool_decide_true (Expired ≠ Live)) by done; by step);
    rewrite (bool_decide_false (Live ≠ Live)) by (intros Hn; by apply Hn);
    do 4 step; cbn [mret Route_ret fst comments set_status set_comments];
    rewrite last_snoc, length_app, Nat.add_comm; cbn [length Nat.add].
  - by rewrite bool_decide_true.
  - by rewrite bool_decide_false.
Qed.

Lemma get_post_cases id w post :
  isValidObjectId id = true →
  db w !! toObjectId id = Some post →
  (status post = statusAt (clock w 0%nat) (Some (expiresAt post))
   ∧ handle (getPost id) w = (PostJson 200 post, tick w))
  ∨ (status post ≠ statusAt (clock w 0%nat) (Some (expiresAt post))
     ∧ handle (getPost id) w =
         (PostJson 200
            (set_status (statusAt (clock w 1%nat) (Some (expiresAt post)))
               post),
          written
            (set_status (statusAt (clock w 1%nat) (Some (expiresAt post)))
               post)
            (tick (tick w)))).
Proof.
  intros Hid Hfound.
  destruct (refresh_cases post w) as [[Hsame Hr]|[Hdiff Hr]]; [left|right];
    (split; [done|]); unfold handle, getPost; rewrite Hid; cbn [negb];
    do 2 step; rewrite Hfound, (bind_run _ _ _ _ _ Hr); done.
Qed.

(** X11. Reading a post refreshes its stored status lazily.  When the stored
    status is the one resolved at the first clock reading, the post is
    returned as stored and nothing is written.  When it is not, the post is
    saved with the status the hook resolves at the second reading, and that
    saved document is what is returned.  An id under which nothing is stored
    is answered 404, the world untouched. *)
Theorem get_post_refresh (id : jsstring) (w : World) :
  isValidObjectId id = true →
  (db w !! toObjectId id = None → handle (getPost id) w = (NotFound, w))
  ∧ ∀ post, db w !! toObjectId id = Some post →
      (status post = statusAt (clock w 0%nat) (Some (expiresAt post)) →
         handle (getPost id) w = (PostJson 200 post, tick w))
      ∧ (status post ≠ statusAt (clock w 0%nat) (Some (expiresAt post)) →
         handle (getPost id) w =
           (PostJson 200
              (set_status (statusAt (clock w 1%nat) (Some (expiresAt post)))
                 post),
            written
              (set_status (statusAt (clock w 1%nat) (Some (expiresAt post)))
                 post)
              (tick (tick w)))).
Proof.
  intros Hid. split.
  - intros Hnone. unfold handle, getPost. rewrite Hid. cbn [negb].
    do 2 step. by rewrite Hnone.
  - intros post Hfound.
    destruct (refresh_cases post w) as [[Hsame Hr]|[Hdiff Hr]];
      (split; intros Hs; [|]); try done;
      unfold handle, getPost; rewrite Hid; cbn [negb]; do 2 step;
      rewrite Hfound, (bind_run _ _ _ _ _ Hr); done.
Qed.

(** X12. Reading twice writes at most once.  While the clock readings all
    resolve the post to the same status, a read returns the post with that
    status, and a second read right after it returns the same document and
    writes nothing. *)
Theorem get_post_twice (id : jsstring) (w : World) (post : Post) (st : Status) :
  isValidObjectId id = true →
  db w !! toObjectId id = Some post →
  _id post = toObjectId id →
  (∀ n, statusAt (clock w n) (Some (expiresAt post)) = st) →
  (handle (getPost id) w).1 = PostJson 200 (set_status st post)
  ∧ handle (getPost id) (handle (getPost id) w).2
      = (PostJson 200 (set_status st post), tick (handle (getPost id) w).2).
Proof.
  intros Hid Hfound Hkey Hst.
  destruct (get_post_cases id w post Hid Hfound) as [[Hsame ->]|[Hdiff ->]];
    cbn [fst snd]; rewrite ?Hst in *.
  - rewrite <- Hsame, set_status_same. split; [done|].
    destruct (get_post_cases id (tick w) post Hid Hfound)
      as [[_ ->]|[Hdiff' _]]; [done|].
    destruct Hdiff'. rewrite Hsame. symmetry. apply (Hst 1%nat).
  - split; [done|].
    set (p1 := set_status st post).
    assert (Hfound1 : db (written p1 (tick (tick w))) !! toObjectId id = Some p1).
    { cbn [db written tick]. rewrite <- Hkey. apply lookup_insert_eq. }
    destruct (get_post_cases id _ p1 Hid Hfound1) as [[_ ->]|[Hdiff' _]];
      [done|].
    destruct Hdiff'. cbn [status set_status p1 expiresAt clock written tick].
    symmetry. apply (Hst 2%nat).
Qed.

(** X13. A first vote.  On a Live post a like from a user (not the owner) who
    holds no vote appends the user to [likedBy], adds one to [likesCount] and
    leaves [dislikedBy] and [dislikesCount] as they are; symmetrically for a
    dislike.  The reply carries the two counters as stored. *)
Theorem first_vote_recorded (u : User) (id : jsstring) (w : World)
    (post : Post) :
  isValidObjectId id = true →
  db w !! toObjectId id = Some post →
  _id post = toObjectId id →
  userId (owner post) ≠ userId u →
  statusAt (clock w 0%nat) (Some (expiresAt post)) = Live →
  userId u ∉ likedBy post → userId u ∉ dislikedBy post →
  (∃ s w',
     serve (ReqLike u id) w =
       (VoteJson 200 "Liked" (likesCount post + 1) (dislikesCount post), w')
     ∧ db w' !! toObjectId id =
         Some (set_status s
                 (set_likes (likedBy post ++ [userId u]) (likesCount post + 1)
                    post)))
  ∧ (∃ s w',
     serve (ReqDislike u id) w =
       (VoteJson 200 "Disliked" (likesCount post) (dislikesCount post + 1), w')
     ∧ db w' !! toObjectId id =
         Some (set_status s
                 (set_dislikes (dislikedBy post ++ [userId u])
                    (dislikesCount post + 1) post))).
Proof.
  intros Hid Hfound Hkey Hown Hst Hl%votedIn_false Hd%votedIn_false. split.
  - destruct (like_run u id w post Hid Hfound Hown Hst Hl)
      as (s & w' & Hrun & Hdb & _).
    unfold liked in Hrun, Hdb. rewrite Hd in Hrun, Hdb.
    exists s, w'. split; [exact Hrun|]. rewrite Hdb, Hkey.
    apply lookup_insert_eq.
  - destruct (dislike_run u id w post Hid Hfound Hown Hst Hd)
      as (s & w' & Hrun & Hdb & _).
    unfold disliked in Hrun, Hdb. rewrite Hl in Hrun, Hdb.
    exists s, w'. split; [exact Hrun|]. rewrite Hdb, Hkey.
    apply lookup_insert_eq.
Qed.

Lemma like_success_inv u id w l d :
  (serve (ReqLike u id) w).1 = VoteJson 200 "Liked" l d →
  isValidObjectId id = true
  ∧ ∃ post, db w !! toObjectId id = Some post
      ∧ userId (owner post) ≠ userId u
      ∧ statusAt (clock w 0%nat) (Some (expiresAt post)) = Live
      ∧ votedIn (userId u) (likedBy post) = false.
Proof.
  rewrite like_reply.
  destruct (isValidObjectId id); cbn [negb]; [|discriminate].
  destruct (db w !! toObjectId id) as [post|]; [|discriminate].
  destruct (bool_decide_reflect (userId (owner post) = userId u));
    [discriminate|].
  destruct (statusAt _ _) eqn:Hst; [|discriminate].
  destruct (votedIn _ _) eqn:Hv; [discriminate|].
  intros _. split; [done|]. by exists post.
Qed.

Lemma dislike_success_inv u id w l d :
  (serve (ReqDislike u id) w).1 = VoteJson 200 "Disliked" l d →
  isValidObjectId id = true
  ∧ ∃ post, db w !! toObjectId id = Some post
      ∧ userId (owner post) ≠ userId u
      ∧ statusAt (clock w 0%nat) (Some (expiresAt post)) = Live
      ∧ votedIn (userId u) (dislikedBy post) = false.
Proof.
  rewrite dislike_reply.
  destruct (isValidObjectId id); cbn [negb]; [|discriminate].
  destruct (db w !! toObjectId id) as [post|]; [|discriminate].
  destruct (bool_decide_reflect (userId (owner post) = userId u));
    [discriminate|].
  destruct (statusAt _ _) eqn:Hst; [|discriminate].
  destruct (votedIn _ _) eqn:Hv; [discriminate|].
  intros _. split; [done|]. by exists post.
Qed.

Lemma votedIn_liked u p : votedIn u (likedBy (liked u p)) = true.
Proof.
  apply votedIn_true. unfold liked.
  destruct (votedIn u (dislikedBy p)); cbn; apply elem_of_app; right;
    by apply list_elem_of_singleton.
Qed.

Lemma votedIn_disliked u p : votedIn u (dislikedBy (disliked u p)) = true.
Proof.
  apply votedIn_true. unfold disliked.
  destruct (votedIn u (likedBy p)); cbn; apply elem_of_app; right;
    by apply list_elem_of_singleton.
Qed.

Lemma owner_liked u p : owner (liked u p) = owner p.
Proof. unfold liked. by destruct (votedIn u (dislikedBy p)). Qed.

Lemma owner_disliked u p : owner (disliked u p) = owner p.
Proof. unfold disliked. by destruct (votedIn u (likedBy p)). Qed.

(** X22. The same vote twice in a row.  After a like that was answered 200,
    the same like again is never answered 200: it is answered 409 while the
    post still resolves to Live at the first clock reading of the second
    request, and with the expiry error once it does not.  The same holds for
    a dislike. *)
Theorem repeated_vote_rejected (u : User) (id : jsstring) (w : World) :
  wellKeyed w →
  (∀ l d, (serve (ReqLike u id) w).1 = VoteJson 200 "Liked" l d →
     ∃ post, db w !! toObjectId id = Some post
       ∧ (serve (ReqLike u id) (serve (ReqLike u id) w).2).1 =
           match statusAt (clock (serve (ReqLike u id) w).2 0%nat)
                   (Some (expiresAt post)) with
           | Live => DuplicateLikeError
           | Expired => ExpiredError
           end)
  ∧ (∀ l d, (serve (ReqDislike u id) w).1 = VoteJson 200 "Disliked" l d →
     ∃ post, db w !! toObjectId id = Some post
       ∧ (serve (ReqDislike u id) (serve (ReqDislike u id) w).2).1 =
           match statusAt (clock (serve (ReqDislike u id) w).2 0%nat)
                   (Some (expiresAt post)) with
           | Live => DuplicateDislikeError
           | Expired => ExpiredError
           end).
Proof.
  intros Hkey. split; intros l d Hr.
  - destruct (like_success_inv u id w l d Hr)
      as (Hid & post & Hfound & Hown & Hst & Hv).
    destruct (like_run u id w post Hid Hfound Hown Hst Hv)
      as (s & w' & Hrun & Hdb & _).
    exists post. split; [done|]. rewrite Hrun. cbn [snd].
    rewrite like_reply, Hid, Hdb, (Hkey _ _ Hfound), lookup_insert_eq.
    cbn [negb owner expiresAt likedBy set_status].
    rewrite owner_liked, expiresAt_liked, votedIn_liked.
    by rewrite bool_decide_false.
  - destruct (dislike_success_inv u id w l d Hr)
      as (Hid & post & Hfound & Hown & Hst & Hv).
    destruct (dislike_run u id w post Hid Hfound Hown Hst Hv)
      as (s & w' & Hrun & Hdb & _).
    exists post. split; [done|]. rewrite Hrun. cbn [snd].
    rewrite dislike_reply, Hid, Hdb, (Hkey _ _ Hfound), lookup_insert_eq.
    cbn [negb owner expiresAt dislikedBy set_status].
    rewrite owner_disliked, expiresAt_disliked, votedIn_disliked.
    by rewrite bool_decide_false.
Qed.

End Replies.

(* ===================================================================== *)
(** * The creation route *)
(* ===================================================================== *)

Section CreationRoute.
Context `{Platform}.

(** [Post.create]: the creation time is the next clock reading, the id the
    next generated one, and the stored status the one the hook resolves at the
    reading after; the status passed by the route is overwritten. *)
Lemma Post_create_spec ttl tps bd ex ow st w :
  Post_create ttl tps bd ex ow st w =
    (inr (newPost (oids w 0%nat) ttl tps bd (clock w 0%nat) ex
            (statusAt (clock w 1%nat) (Some ex)) ow),
     written (newPost (oids w 0%nat) ttl tps bd (clock w 0%nat) ex
                (statusAt (clock w 1%nat) (Some ex)) ow)
       (tick (nextId (tick w)))).
Proof. unfold Post_create. do 2 step. by rewrite save_run. Qed.

(** The creation route once title, body and topics have passed. *)
Ltac past_fields Ht Hb Htp :=
  unfold handle, createPost;
  match goal with
  | |- context [ (length ?t <? 6)%nat || (120 <? length ?t)%nat ] =>
      replace ((length t <? 6)%nat || (120 <? length t)%nat) with false
        by (symmetry; apply orb_false_iff; split; apply Nat.ltb_ge; lia)
  end;
  match goal with
  | |- context [ (length ?b <? 1)%nat || (2000 <? length ?b)%nat ] =>
      replace ((length b <? 1)%nat || (2000 <? length b)%nat) with false
        by (symmetry; apply orb_false_iff; split; apply Nat.ltb_ge; lia)
  end;
  rewrite Htp; cbn [negb]; do 3 step.

(** X14. A creation request that passes the title, body and topics checks
    and carries no [expiresAt]: with minutes (the ones given, or 60) from 1
    to 10080 the post is created, answered 201, expiring that many minutes
    after the first clock reading, between one minute and seven days ahead;
    its status is the one the pre-save hook resolves, three readings later.
    With minutes outside 1 to 10080 the request is answered 400 and nothing
    is stored. *)
Theorem create_with_minutes (u : User) (t b tp m e : Value) (w : World) :
  let title_ := trim (String_ (or_ t (JStr []))) in
  let body_ := trim (String_ (or_ b (JStr []))) in
  let mins := toInt m 60 in
  (6 ≤ length title_ ≤ 120)%nat →
  (1 ≤ length body_ ≤ 2000)%nat →
  isValidTopicList tp = true →
  truthy e = false →
  (1 ≤ mins ≤ 10080 →
   Z.abs (clock w 0%nat + mins * 60 * 1000) ≤ 8640000000000000 →
   let p := newPost (oids w 0%nat) title_ (topicStrings tp) body_
              (clock w 2%nat) (clock w 0%nat + mins * 60 * 1000)
              (statusAt (clock w 3%nat)
                 (Some (clock w 0%nat + mins * 60 * 1000)))
              {| userId := userId u; name := name u |} in
   handle (createPost u t b tp m e) w
     = (PostJson 201 p, written p (tick (nextId (tick (tick (tick w))))))
   ∧ 60000 ≤ expiresAt p - clock w 0%nat ≤ 604800000)
  ∧ (mins < 1 ∨ 10080 < mins →
     handle (createPost u t b tp m e) w
       = (Error 400 "expiresInMinutes must be 1 to 10080 (7 days)", w)).
Proof.
  intros title_ body_ mins Ht Hb Htp He. subst title_ body_. split.
  - intros Hm Hclock p. split; [|cbn; lia].
    past_fields Ht Hb Htp. rewrite He. fold mins.
    replace ((mins <? 1) || (60 * 24 * 7 <? mins)) with false.
    2:{ symmetry. apply orb_false_iff. split; apply Z.ltb_ge; lia. }
    rewrite bind_assoc. step. rewrite bind_assoc. step. rewrite bind_ret.
    unfold TimeClip. rewrite (proj2 (Z.leb_le _ _) Hclock).
    rewrite (bind_run _ _ _ _ _ (computeStatus_run _ _)). cbv beta.
    rewrite (bind_run _ _ _ _ _ (Post_create_spec _ _ _ _ _ _ _)). done.
  - intros Hm. past_fields Ht Hb Htp. rewrite He. fold mins.
    replace ((mins <? 1) || (60 * 24 * 7 <? mins)) with true.
    2:{ symmetry. apply orb_true_iff.
        destruct Hm; [left|right]; apply Z.ltb_lt; lia. }
    rewrite bind_assoc. by step.
Qed.

(** X15. A creation request that passes the title, body and topics checks
    and carries an [expiresAt]: the minutes are not looked at.  An
    [expiresAt] that is not a valid Date is answered 400 and nothing is
    stored.  A valid one is taken as it is, in the past too: the post is
    created, answered 201, with the status the pre-save hook resolves, so a
    post whose expiration is not after that reading is stored as Expired. *)
Theorem create_with_expiresAt (u : User) (t b tp m e : Value) (w : World) :
  let title_ := trim (String_ (or_ t (JStr []))) in
  let body_ := trim (String_ (or_ b (JStr []))) in
  (6 ≤ length title_ ≤ 120)%nat →
  (1 ≤ length body_ ≤ 2000)%nat →
  isValidTopicList tp = true →
  truthy e = true →
  (newDate e = None →
     handle (createPost u t b tp m e) w
       = (Error 400 "Invalid expiration time", w))
  ∧ (∀ exp, newDate e = Some exp →
       let p := newPost (oids w 0%nat) title_ (topicStrings tp) body_
                  (clock w 1%nat) exp
                  (statusAt (clock w 2%nat) (Some exp))
                  {| userId := userId u; name := name u |} in
       handle (createPost u t b tp m e) w
         = (PostJson 201 p, written p (tick (nextId (tick (tick w)))))
       ∧ (exp ≤ clock w 2%nat → status p = Expired)).
Proof.
  intros title_ body_ Ht Hb Htp He. subst title_ body_. split.
  - intros Hnone. past_fields Ht Hb Htp. rewrite He, bind_ret, Hnone. done.
  - intros exp Hsome p. split.
    + past_fields Ht Hb Htp. rewrite He, bind_ret, Hsome.
      rewrite (bind_run _ _ _ _ _ (computeStatus_run _ _)). cbv beta.
      rewrite (bind_run _ _ _ _ _ (Post_create_spec _ _ _ _ _ _ _)). done.
    + intros Hpast. cbn. by rewrite (proj2 (Z.ltb_ge _ _)).
Qed.

(** X16. The creation route checks the title first, then the body, then
    the topics: a trimmed title outside 6 to 120 code units is answered
    "Title must be 6–120 characters" whatever the rest; the title passing, a
    trimmed body outside 1 to 2000 "Body must be 1–2000 characters"; both
    passing, a topic list that is not valid "Topics must include: ...".  Each
    is a 400 and leaves the world as it was. *)
Theorem create_rejects_in_order (u : User) (t b tp m e : Value) (w : World) :
  let title_ := trim (String_ (or_ t (JStr []))) in
  let body_ := trim (String_ (or_ b (JStr []))) in
  ((length title_ < 6 ∨ 120 < length title_)%nat →
     handle (createPost u t b tp m e) w
       = (Error 400 "Title must be 6–120 characters", w))
  ∧ ((6 ≤ length title_ ≤ 120)%nat →
     (length body_ < 1 ∨ 2000 < length body_)%nat →
     handle (createPost u t b tp m e) w
       = (Error 400 "Body must be 1–2000 characters", w))
  ∧ ((6 ≤ length title_ ≤ 120)%nat →
     (1 ≤ length body_ ≤ 2000)%nat →
     isValidTopicList tp = false →
     handle (createPost u t b tp m e) w
       = (Error 400 "Topics must include: Politics, Health, Sport, Tech", w)).
Proof.
  intros title_ body_. split_and!.
  - intros Hbad. unfold handle, createPost. fold title_.
    replace ((length title_ <? 6)%nat || (120 <? length title_)%nat) with true.
    2:{ symmetry. apply orb_true_iff.
        destruct Hbad; [left|right]; apply Nat.ltb_lt; lia. }
    by step.
  - intros Ht Hbad. unfold handle, createPost. fold title_ body_.
    replace ((length title_ <? 6)%nat || (120 <? length title_)%nat) with false.
    2:{ symmetry. apply orb_false_iff. split; apply Nat.ltb_ge; lia. }
    replace ((length body_ <? 1)%nat || (2000 <? length body_)%nat) with true.
    2:{ symmetry. apply orb_true_iff.
        destruct Hbad; [left|right]; apply Nat.ltb_lt; lia. }
    step. by step.
  - intros Ht Hb Htp. unfold handle, createPost. fold title_ body_.
    replace ((length title_ <? 6)%nat || (120 <? length title_)%nat) with false.
    2:{ symmetry. apply orb_false_iff. split; apply Nat.ltb_ge; lia. }
    replace ((length body_ <? 1)%nat || (2000 <? length body_)%nat) with false.
    2:{ symmetry. apply orb_false_iff. split; apply Nat.ltb_ge; lia. }
    rewrite Htp. cbn [negb]. do 2 step. by step.
Qed.

End CreationRoute.

(** X17. A topic list passes [isValidTopicList] exactly when it is an array,
    not empty, whose every element is a string of the enumeration; an empty
    array, a string, and an array holding any other value do not pass. *)
Theorem valid_topic_list_iff (tp : Value) :
  isValidTopicList tp = true
  ↔ ∃ ss, ss ≠ [] ∧ Forall (λ t, t ∈ TOPICS) ss ∧ tp = JArr (JStr <$> ss).
Proof.
  split.
  - intros Hv. destruct (validTopics tp Hv) as (items & -> & Hne & Hitems & Hall).
    exists (topicStrings (JArr items)). split_and!; [|done|by rewrite Hitems].
    intros Hnil. rewrite Hnil in Hitems. by destruct items.
  - intros (ss & Hne & Hall & ->). cbn [isValidTopicList].
    apply andb_true_iff. split; [by destruct ss|].
    clear Hne. induction Hall as [|t ss Ht Hall IH]; [done|].
    cbn. rewrite IH, andb_true_r. by apply bool_decide_eq_true.
Qed.

(* ===================================================================== *)
(** * Numbers in requests *)
(* ===================================================================== *)

Lemma fold_digits_pos u acc :
  fold_left (λ a c, 10 * a + (Z.of_N c - 48)) (digitsOfUint u) (Zpos acc)
  = Zpos (Pos.of_uint_acc u acc).
Proof.
  revert acc.
  induction u as [|u IH|u IH|u IH|u IH|u IH|u IH|u IH|u IH|u IH|u IH];
    intros acc; cbn [digitsOfUint fold_left Pos.of_uint_acc]; [done|..];
    rewrite <- IH; f_equal; lia.
Qed.

Lemma digitsValue_of_uint u : digitsValue (digitsOfUint u) = Z.of_N (Pos.of_uint u).
Proof.
  unfold digitsValue.
  induction u as [|u IH|u IH|u IH|u IH|u IH|u IH|u IH|u IH|u IH|u IH];
    cbn [digitsOfUint fold_left Pos.of_uint]; [done|exact IH|..];
    cbn [Z.of_N]; rewrite <- fold_digits_pos; f_equal.
Qed.

Lemma digitsPrefix_of_uint u rest :
  digitsPrefix rest = [] →
  digitsPrefix (digitsOfUint u ++ rest) = digitsOfUint u.
Proof.
  intros Hrest.
  induction u as [|u IH|u IH|u IH|u IH|u IH|u IH|u IH|u IH|u IH|u IH];
    cbn [digitsOfUint app]; [done|..]; cbn [digitsPrefix isDigit];
    cbn; by rewrite IH.
Qed.

Lemma trimStart_app ws s :
  forallb isWhiteSpace ws = true → trimStart (ws ++ s) = trimStart s.
Proof.
  induction ws as [|c ws IH]; [done|]. cbn [forallb app trimStart].
  intros [Hc Hws]%andb_true_iff. rewrite Hc. by apply IH.
Qed.

(** The digits of a positive number, read back. *)
Lemma parse_digits p rest sign :
  digitsPrefix rest = [] →
  match digitsPrefix (digitsOfUint (Pos.to_uint p) ++ rest) with
  | [] => NaN
  | ds => ofInteger (sign * digitsValue ds)
  end = ofInteger (sign * Zpos p).
Proof.
  intros Hrest. rewrite digitsPrefix_of_uint by done.
  pose proof (digitsValue_of_uint (Pos.to_uint p)) as Hv.
  rewrite DecimalPos.Unsigned.of_to in Hv.
  destruct (digitsOfUint (Pos.to_uint p)) as [|c r]; [discriminate|].
  by rewrite Hv.
Qed.

(** The printed form of an integer, read by [parseInt] between white space
    and anything that does not start with a digit. *)
Lemma parseInt10_decimal z ws rest :
  forallb isWhiteSpace ws = true → digitsPrefix rest = [] →
  parseInt10 (ws ++ decimal z ++ rest) = ofInteger z.
Proof.
  intros Hws Hrest. unfold parseInt10. rewrite trimStart_app by done.
  destruct z as [|p|p]; cbn [decimal].
  - cbn. by rewrite Hrest.
  - pose proof (parse_digits p rest 1 Hrest) as Hp.
    rewrite Z.mul_1_l in Hp.
    pose proof (DecimalPos.Unsigned.to_uint_nonnil p) as Hnn.
    destruct (Pos.to_uint p); [done|..]; exact Hp.
  - pose proof (parse_digits p rest (-1) Hrest) as Hp.
    cbn [app trimStart isWhiteSpace]. cbn -[digitsPrefix digitsValue ofInteger Z.mul].
    exact Hp.
Qed.

Lemma roundDouble_safe z : Z.abs z ≤ 2 ^ 53 → roundDouble z = z.
Proof.
  intros Hz. change (2 ^ 53) with 9007199254740992 in Hz.
  destruct (Z.eq_dec (Z.abs z) 9007199254740992) as [Heq|Hne].
  - assert (z = 9007199254740992 ∨ z = -9007199254740992) as [->| ->] by lia;
      reflexivity.
  - unfold roundDouble.
    assert (Hlog : Z.log2 (Z.abs z) - 52 ≤ 0).
    { destruct (Z.eq_dec (Z.abs z) 0) as [->|Hpos]; [done|].
      assert (Z.log2 (Z.abs z) < 53); [|lia].
      apply Z.log2_lt_pow2; [lia|].
      change (2 ^ 53) with 9007199254740992. lia. }
    by rewrite (proj2 (Z.leb_le _ _) Hlog).
Qed.

Lemma ofInteger_safe z : Z.abs z ≤ 2 ^ 53 → ofInteger z = Fin z.
Proof.
  intros Hz. unfold ofInteger. rewrite roundDouble_safe by done.
  rewrite (proj2 (Z.leb_gt _ _)); [done|].
  eapply Z.le_lt_trans; [exact Hz|]. reflexivity.
Qed.

Lemma String_safe z : Z.abs z ≤ 2 ^ 53 → String_ (JNum z) = decimal z.
Proof.
  intros Hz. cbn [String_]. rewrite ofInteger_safe by done.
  unfold NumberToString, integerToString.
  by rewrite (proj2 (Z.leb_le _ _) Hz).
Qed.

(** X18. [toInt] on the printed form of an integer, white space before it
    and anything that does not start with a digit after it being skipped
    ("30", " 30", "30min"), gives the double nearest to the integer, and the
    fallback when that is an infinity.  Up to [2 ^ 53] in magnitude the
    nearest double is the integer itself, which [toInt] then reads back from
    the number value and from its printed form; the fallback is not used. *)
Theorem toInt_reads_integers (z fallback : Z) (ws rest : jsstring) :
  forallb isWhiteSpace ws = true →
  digitsPrefix rest = [] →
  (Z.abs z < 2 ^ 1024 - 2 ^ 970 →
     toInt (JStr (ws ++ decimal z ++ rest)) fallback = roundDouble z)
  ∧ (2 ^ 1024 - 2 ^ 970 ≤ Z.abs z →
     toInt (JStr (ws ++ decimal z ++ rest)) fallback = fallback)
  ∧ (Z.abs z ≤ 2 ^ 53 →
     toInt (JNum z) fallback = z
     ∧ toInt (JStr (ws ++ decimal z ++ rest)) fallback = z).
Proof.
  intros Hws Hrest.
  assert (Hstr : parseInt (JStr (ws ++ decimal z ++ rest)) = ofInteger z).
  { unfold parseInt. cbn [String_]. by apply parseInt10_decimal. }
  split_and!.
  - intros Hz. unfold toInt. rewrite Hstr. unfold ofInteger.
    by rewrite (proj2 (Z.leb_gt _ _) Hz).
  - intros Hz. unfold toInt. rewrite Hstr. unfold ofInteger.
    by rewrite (proj2 (Z.leb_le _ _) Hz).
  - intros Hz. split.
    + unfold toInt, parseInt. rewrite String_safe by done.
      pose proof (parseInt10_decimal z [] [] eq_refl eq_refl) as Hp.
      rewrite app_nil_r in Hp. cbn [app] in Hp.
      by rewrite Hp, ofInteger_safe.
    + unfold toInt. by rewrite Hstr, ofInteger_safe.
Qed.

(** X19. A limit or skip that does not parse.  The list route of the posts
    falls back, to a limit of 20 and a skip of 0.  The expired-history route
    falls back only when the parameter is missing or empty; one that is
    given and does not parse reaches the cursor as NaN. *)
Theorem unparsable_limit_skip (v : Value) :
  parseInt v = NaN →
  Z.min (toInt v 20) 50 = 20 ∧ Z.max (toInt v 0) 0 = 0
  ∧ (truthy v = false →
       expiredLimit v = Fin 20 ∧ expiredSkip v = Fin 0)
  ∧ (truthy v = true →
       expiredLimit v = NaN ∧ expiredSkip v = NaN).
Proof.
  intros Hnan. unfold toInt, expiredLimit, expiredSkip, or_. rewrite Hnan.
  split_and!; try done; intros ->; [by vm_compute|by rewrite Hnan].
Qed.

(** X20. The two topic routes are read-only, whatever they are asked; a
    topic outside the enumeration is answered 400 by both. *)
Theorem topic_routes_read_only `{Platform} (topic : jsstring) (ql qs : Value)
    (w : World) :
  (handle (mostActive topic) w).2 = w
  ∧ (handle (expiredHistory topic ql qs) w).2 = w
  ∧ (topic ∉ TOPICS →
       (handle (mostActive topic) w).1
         = Error 400 "topic must be one of: Politics, Health, Sport, Tech"
       ∧ (handle (expiredHistory topic ql qs) w).1
         = Error 400 "topic must be one of: Politics, Health, Sport, Tech").
Proof.
  unfold handle, mostActive, expiredHistory.
  destruct (decide (topic ∈ TOPICS)) as [Hin|Hout].
  - rewrite !(bool_decide_true _ Hin). cbn [negb].
    split_and!; [| |done].
    + step. unfold find, allPosts. route_unfold. by destruct (head _).
    + step. unfold find, allPosts. by route_unfold.
  - rewrite !(bool_decide_false _ Hout). cbn [negb]. by split_and!.
Qed.

(* ===================================================================== *)
(** * Accounts *)
(* ===================================================================== *)

Lemma regexTest_end s : regexTest [] s = true ↔ s = [].
Proof. by destruct s. Qed.

Lemma regexTest_one p rest s :
  regexTest (One p :: rest) s = true
  ↔ ∃ c s', s = c :: s' ∧ p c = true ∧ regexTest rest s' = true.
Proof.
  destruct s as [|c s']; cbn [regexTest].
  - split; [done|]. by intros (? & ? & ? & _).
  - rewrite andb_true_iff. split.
    + intros [? ?]. by exists c, s'.
    + by intros (? & ? & [= <- <-] & ? & ?).
Qed.

Lemma regexTest_many_cons p rest c s :
  regexTest (Many p :: rest) (c :: s)
    = p c && (regexTest (Many p :: rest) s || regexTest rest s).
Proof. reflexivity. Qed.

Lemma regexTest_many p rest s :
  regexTest (Many p :: rest) s = true
  ↔ ∃ a s', a ≠ [] ∧ s = a ++ s' ∧ forallb p a = true
            ∧ regexTest rest s' = true.
Proof.
  induction s as [|c s IH].
  - split; [done|]. intros (a & s' & Ha & Hs & _).
    symmetry in Hs. apply app_eq_nil in Hs as [-> _]. done.
  - rewrite regexTest_many_cons, andb_true_iff, orb_true_iff, IH. split.
    + intros [Hc [(a & s' & _ & -> & Ha & Hrest)|Hrest]].
      * exists (c :: a), s'. split_and!; [done|done| |done].
        cbn [forallb]. by rewrite Hc, Ha.
      * exists [c], s. split_and!; [done|done| |done].
        cbn [forallb]. by rewrite Hc.
    + intros (a & s' & Ha & Hs & Hp & Hrest).
      destruct a as [|c' a]; [done|]. cbn [app] in Hs.
      injection Hs as <- ->. cbn [forallb] in Hp.
      apply andb_true_iff in Hp as [Hc Hp]. split; [done|].
      destruct a as [|c'' a]; [by right|]. left.
      by exists (c'' :: a), s'.
Qed.

Lemma nonSpace_spec c : nonSpace c = true ↔ isWhiteSpace c = false.
Proof. unfold nonSpace. by destruct (isWhiteSpace c). Qed.

Lemma forallb_nonSpace a :
  forallb nonSpace a = true ↔ Forall (λ c, isWhiteSpace c = false) a.
Proof.
  rewrite forallb_forall, Forall_forall. split; intros Ha c Hc.
  - apply nonSpace_spec, Ha. by apply list_elem_of_In.
  - apply nonSpace_spec, Ha. by apply list_elem_of_In.
Qed.

(** X23. The e-mail format.  [/^\S+@\S+\.\S+$/] accepts exactly the strings
    without white space that read [a @ b . c] with [a], [b] and [c] not
    empty; nothing else is asked of the three parts, which may hold further
    [@] and dots. *)
Theorem email_format_iff (s : jsstring) :
  regexTest emailFormat s = true
  ↔ Forall (λ c, isWhiteSpace c = false) s
    ∧ ∃ a b c, a ≠ [] ∧ b ≠ [] ∧ c ≠ []
               ∧ s = a ++ lit "@" ++ b ++ lit "." ++ c.
Proof.
  unfold emailFormat. rewrite regexTest_many. split.
  - intros (a & s1 & Ha & -> & Hpa & H1).
    apply regexTest_one in H1 as (x & s2 & -> & <-%N.eqb_eq & H2).
    apply regexTest_many in H2 as (b & s3 & Hb & -> & Hpb & H3).
    apply regexTest_one in H3 as (y & s4 & -> & <-%N.eqb_eq & H4).
    apply regexTest_many in H4 as (c & s5 & Hc & -> & Hpc & ->%regexTest_end).
    rewrite app_nil_r. split; [|by exists a, b, c].
    apply forallb_nonSpace in Hpa, Hpb, Hpc.
    apply Forall_app. split; [done|]. apply Forall_cons. split; [done|].
    apply Forall_app. split; [done|]. apply Forall_cons. by split.
  - intros [Hs (a & b & c & Ha & Hb & Hc & ->)]. cbn [lit app] in Hs |- *.
    apply Forall_app in Hs as [Hpa Hs]. apply Forall_cons in Hs as [_ Hs].
    apply Forall_app in Hs as [Hpb Hs]. apply Forall_cons in Hs as [_ Hpc].
    apply forallb_nonSpace in Hpa, Hpb, Hpc.
    exists a, (64%N :: b ++ 46%N :: c). split_and!; [done|done|done|].
    apply regexTest_one. exists 64%N, (b ++ 46%N :: c).
    split_and!; [done|done|].
    apply regexTest_many. exists b, (46%N :: c). split_and!; [done|done|done|].
    apply regexTest_one. exists 46%N, c. split_and!; [done|done|].
    apply regexTest_many. exists c, []. split_and!; [done| |done|done].
    by rewrite app_nil_r.
Qed.

Section AccountReplies.
Context `{Accounts}.

Ltac handler_unfold :=
  unfold respond, register, login, signToken, mbind, Handler_bind, guard,
    await, mret, Handler_ret.

(** X24. Registration checks the trimmed name first (at least 2 code
    units), then the format of the trimmed, lower-cased e-mail, then the
    password, not trimmed (at least 8): each failure is answered 400 before
    the collection is consulted, nothing outside touched.  A 201 is only sent
    when the three pass and no account was found under the e-mail; the
    account of the reply is the one created, with the hash and not the
    password, and the token is signed for it. *)
Theorem register_checks_first (n e p : Value) (w : Env) :
  let name := trim (String_ (or_ n (JStr []))) in
  let email := toLowerCase (trim (String_ (or_ e (JStr [])))) in
  let password := String_ (or_ p (JStr [])) in
  ((length name < 2)%nat →
     respond (register n e p) w
       = (AuthError 400 "Name must be at least 2 characters", w))
  ∧ ((2 ≤ length name)%nat → regexTest emailFormat email = false →
     respond (register n e p) w = (AuthError 400 "Invalid email format", w))
  ∧ ((2 ≤ length name)%nat → regexTest emailFormat email = true →
     (length password < 8)%nat →
     respond (register n e p) w
       = (AuthError 400 "Password must be at least 8 characters", w))
  ∧ (∀ code user token w',
       respond (register n e p) w = (UserJson code user token, w') →
       code = 201
       ∧ (2 ≤ length name)%nat ∧ regexTest emailFormat email = true
       ∧ (8 ≤ length password)%nat
       ∧ ∃ w1 w2 w3 hash,
           User_findOne email w = (Some None, w1)
           ∧ bcrypt_hash password w1 = (Some hash, w2)
           ∧ User_create name email hash w2 = (Some user, w3)
           ∧ jwt_sign user w3 = (Some token, w')).
Proof.
  intros name email password. split_and!.
  - intros Hn. handler_unfold. fold name.
    by rewrite (proj2 (Nat.ltb_lt _ _) Hn).
  - intros Hn He. handler_unfold. fold name email.
    by rewrite (proj2 (Nat.ltb_ge _ _) Hn), He.
  - intros Hn He Hp. handler_unfold. fold name email password.
    by rewrite (proj2 (Nat.ltb_ge _ _) Hn), He, (proj2 (Nat.ltb_lt _ _) Hp).
  - intros code user token w'. handler_unfold. fold name email password.
    destruct (Nat.ltb_spec (length name) 2) as [|Hn]; [discriminate|].
    destruct (regexTest emailFormat email) eqn:He; [|discriminate].
    cbn [negb].
    destruct (Nat.ltb_spec (length password) 8) as [|Hp]; [discriminate|].
    destruct (User_findOne email w) as [[[existing|]|] w1] eqn:Hfind;
      [rewrite bool_decide_true by done; discriminate| |discriminate].
    rewrite bool_decide_false by (by intros [? ?]).
    destruct (bcrypt_hash password w1) as [[hash|] w2] eqn:Hhash;
      [|discriminate].
    destruct (User_create name email hash w2) as [[user'|] w3] eqn:Hcreate;
      [|discriminate].
    destruct (jwt_sign user' w3) as [[token'|] w4] eqn:Hsign; [|discriminate].
    intros [= <- <- <- <-]. split_and!; try done.
    by exists w1, w2, w3, hash.
Qed.

(** X25. Login.  An empty e-mail (once trimmed and lower-cased) or an empty
    password is answered 400 before the collection is consulted.  An e-mail
    under which no account is found and a password that bcrypt does not
    accept are answered alike, 401 with the same message.  A token is only
    sent, with a 200, for the account found under the e-mail, bcrypt having
    accepted the password against its stored hash. *)
Theorem login_checks (e p : Value) (w : Env) :
  let email := toLowerCase (trim (String_ (or_ e (JStr [])))) in
  let password := String_ (or_ p (JStr [])) in
  (email = [] ∨ password = [] →
     respond (login e p) w
       = (AuthError 400 "Email and password are required", w))
  ∧ (email ≠ [] → password ≠ [] →
     (∀ w1, User_findOne email w = (Some None, w1) →
        respond (login e p) w = (AuthError 401 "Invalid credentials", w1))
     ∧ (∀ user w1 w2,
          User_findOne email w = (Some (Some user), w1) →
          bcrypt_compare password (Account.passwordHash user) w1
            = (Some false, w2) →
          respond (login e p) w = (AuthError 401 "Invalid credentials", w2)))
  ∧ (∀ code user token w',
       respond (login e p) w = (UserJson code user token, w') →
       code = 200
       ∧ ∃ w1 w2,
           User_findOne email w = (Some (Some user), w1)
           ∧ bcrypt_compare password (Account.passwordHash user) w1
               = (Some true, w2)
           ∧ jwt_sign user w2 = (Some token, w')).
Proof.
  intros email password. split_and!.
  - intros Hempty. handler_unfold. fold email password.
    replace (bool_decide (email = []) || bool_decide (password = []))
      with true; [done|].
    symmetry. apply orb_true_iff.
    destruct Hempty; [left|right]; by apply bool_decide_eq_true.
  - intros He Hp. split.
    + intros w1 Hfind. handler_unfold. fold email password.
      rewrite !bool_decide_false by done. cbn [orb]. by rewrite Hfind.
    + intros user w1 w2 Hfind Hcmp. handler_unfold. fold email password.
      rewrite !bool_decide_false by done. cbn [orb].
      by rewrite Hfind, Hcmp.
  - intros code user token w'. handler_unfold. fold email password.
    destruct (bool_decide (email = []) || bool_decide (password = []));
      [discriminate|].
    destruct (User_findOne email w) as [[[user'|]|] w1] eqn:Hfind;
      [|discriminate..].
    destruct (bcrypt_compare password (Account.passwordHash user') w1)
      as [[[|]|] w2] eqn:Hcmp; cbn [negb]; [|discriminate..].
    destruct (jwt_sign user' w2) as [[token'|] w3] eqn:Hsign; [|discriminate].
    intros [= <- <- <- <-]. split; [done|]. by exists w1, w2.
Qed.

End AccountReplies.

(* ===================================================================== *)
(** * The properties at work on the sample platform *)
(* ===================================================================== *)

Section Examples.
Import Sample.
#[local] Existing Instance Sample.platform.

(** The owner of a post that has expired votes on it: the answer is the
    self-vote error, not the expiry error. *)
Lemma expired_owner_vote_counterexample :
  db (worldAt 2000) !! toObjectId id1 = Some post1
  ∧ userId (owner post1) = userId alice
  ∧ statusAt (clock (worldAt 2000) 0%nat) (Some (expiresAt post1)) = Expired
  ∧ (serve (ReqLike alice id1) (worldAt 2000)).1 = SelfLikeError
  ∧ (serve (ReqLike alice id1) (worldAt 2000)).1 ≠ ExpiredError
  ∧ (serve (ReqDislike alice id1) (worldAt 2000)).1 = SelfDislikeError
  ∧ (serve (ReqDislike alice id1) (worldAt 2000)).1 ≠ ExpiredError.
Proof.
  split_and!; try (vm_compute; reflexivity);
    intros Heq; vm_compute in Heq; discriminate.
Qed.

Lemma vote_gate_order_witness :
  serve (ReqLike alice id1) (worldAt 2000) = (SelfLikeError, worldAt 2000)
  ∧ (serve (ReqLike bob id1) (worldAt 2000)).1 = ExpiredError.
Proof.
  assert (Hid : isValidObjectId id1 = true) by (vm_compute; reflexivity).
  assert (Hfound : db (worldAt 2000) !! toObjectId id1 = Some post1)
    by (vm_compute; reflexivity).
  split.
  - apply (proj1 (vote_gate_order alice id1 (worldAt 2000) post1 Hid Hfound)).
    reflexivity.
  - apply (proj2 (vote_gate_order bob id1 (worldAt 2000) post1 Hid Hfound)).
    + vm_compute; discriminate.
    + vm_compute; reflexivity.
Defined.

(** A limit of -5 is passed on as -5, not as the clamped 0. *)
Lemma negative_limit_counterexample :
  parseInt (JStr (lit "-5")) = Fin (-5)
  ∧ expiredLimit (JStr (lit "-5")) = Fin (-5)
  ∧ expiredLimit (JStr (lit "-5")) ≠ Fin (clampLimit (-5)).
Proof.
  split_and!; try (vm_compute; reflexivity).
  intros Heq; vm_compute in Heq; discriminate.
Qed.

Lemma expired_history_limit_skip_witness :
  expiredLimit (JStr (lit "70")) = Fin 50
  ∧ expiredSkip (JStr (lit "-3")) = Fin 0.
Proof.
  assert (Hl : parseInt (JStr (lit "70")) = Fin 70) by (vm_compute; reflexivity).
  assert (Hs : parseInt (JStr (lit "-3")) = Fin (-3))
    by (vm_compute; reflexivity).
  destruct (expired_history_limit_skip (lit "Tech") (lit "70") (lit "-3")
              70 (-3) (worldAt 500) Hl Hs) as (El & Es & _).
  split; [exact El|exact Es].
Defined.

Lemma invalid_id_rejected_first_witness :
  serve (ReqLike bob (lit "xyz")) (worldAt 500) = (InvalidId, worldAt 500)
  ∧ serve (ReqDislike bob (lit "xyz")) (worldAt 500) = (InvalidId, worldAt 500)
  ∧ serve (ReqComment bob (lit "xyz") (JStr (lit "hi"))) (worldAt 500)
      = (InvalidId, worldAt 500).
Proof.
  apply (invalid_id_rejected_first bob (lit "xyz") (JStr (lit "hi"))
           (worldAt 500)).
  vm_compute; reflexivity.
Defined.

Lemma duplicate_vote_rejected_witness :
  (serve (ReqLike bob id1) (worldOf [post1_liked] 500)).1 = DuplicateLikeError.
Proof.
  assert (Hin : userId bob ∈ likedBy post1_liked) by (vm_compute; by left).
  destruct (proj1 (@duplicate_vote_rejected Sample.platform bob id1 (worldOf [post1_liked] 500)
                     post1_liked
                     ltac:(vm_compute; reflexivity)
                     ltac:(vm_compute; reflexivity)
                     ltac:(vm_compute; reflexivity)
                     ltac:(vm_compute; discriminate)
                     ltac:(vm_compute; reflexivity)) Hin)
    as (w' & Hrun & _).
  rewrite Hrun. reflexivity.
Defined.

Lemma vote_toggle_witness :
  (serve (ReqDislike bob id1) (worldOf [post1_liked] 500)).1
    = VoteJson 200 "Disliked" 0 1.
Proof.
  assert (Hin : userId bob ∈ likedBy post1_liked) by (vm_compute; by left).
  assert (Hdisj : ∀ x, x ∈ likedBy post1_liked → x ∉ dislikedBy post1_liked)
    by (intros x _ Hx; vm_compute in Hx; by apply elem_of_nil in Hx).
  destruct (proj1 (@vote_toggle Sample.platform bob id1 (worldOf [post1_liked] 500)
                     post1_liked
                     ltac:(vm_compute; reflexivity)
                     ltac:(vm_compute; reflexivity)
                     ltac:(vm_compute; reflexivity)
                     ltac:(vm_compute; discriminate)
                     ltac:(vm_compute; reflexivity) Hdisj) Hin)
    as (w' & p' & Hrun & _).
  rewrite Hrun. reflexivity.
Defined.

Lemma votes_invariant_witness :
  ∃ p, db (serveAll [ReqLike bob id1; ReqDislike bob id1; ReqLike alice id1;
                     ReqDislike bob id1] (worldAt 500)) !! 1%N = Some p
       ∧ VoteInv p ∧ voteState p = ([], [11%N], 0, 1).
Proof.
  assert (Hinv : ∀ i p, db (worldAt 500) !! i = Some p → VoteInv p).
  { intros i p Hp.
    change (db (worldAt 500))
      with (<[1%N := post1]> (∅ : gmap ObjectId Post)) in Hp.
    apply lookup_insert_Some in Hp as [[_ <-]|[_ Hp]];
      [|by rewrite lookup_empty in Hp].
    split; try (vm_compute; reflexivity);
      try (intros x Hx; vm_compute in Hx; by apply elem_of_nil in Hx);
      intros Hx; vm_compute in Hx; by apply elem_of_nil in Hx. }
  eexists. split; [vm_compute; reflexivity|]. split; [|reflexivity].
  eapply (proj1 (votes_invariant
                   [ReqLike bob id1; ReqDislike bob id1; ReqLike alice id1;
                    ReqDislike bob id1] (worldAt 500) Hinv) 1%N).
  vm_compute; reflexivity.
Defined.

(** The owner of a Live post comments on it. *)
Lemma comment_appended_witness :
  ∃ c, (serve (ReqComment alice id1 (JStr (lit "  hi  "))) (worldAt 500)).1
         = CommentJson 201 "Comment added" 1 (Some c)
       ∧ Comment.text c = lit "hi".
Proof.
  destruct (proj1 (@comment_appended Sample.platform alice id1 (lit "  hi  ") (worldAt 500) post1
                     ltac:(vm_compute; reflexivity))
              ltac:(vm_compute; lia)
              ltac:(vm_compute; reflexivity)
              ltac:(vm_compute; reflexivity)
              ltac:(vm_compute; reflexivity))
    as (w' & c & p' & Hrun & Htext & _).
  exists c. rewrite Hrun. split; [reflexivity|exact Htext].
Defined.

Lemma default_expiration_witness :
  ∃ post,
    (serve (ReqCreate alice (JStr (lit "A title")) (JStr (lit "b"))
              (JArr [JStr (lit "Tech")]) JUndefined JUndefined) (worldAt 500)).1
      = PostJson 201 post
    ∧ expiresAt post = 3600500.
Proof.
  destruct (@default_expiration Sample.platform alice (JStr (lit "A title")) (JStr (lit "b"))
              (JArr [JStr (lit "Tech")]) JUndefined JUndefined (worldAt 500)
              ltac:(vm_compute; lia)
              ltac:(vm_compute; lia)
              ltac:(vm_compute; reflexivity)
              ltac:(vm_compute; reflexivity)
              ltac:(vm_compute; reflexivity)
              ltac:(vm_compute; discriminate))
    as (post & w' & Hrun & Hexp & _).
  exists post. rewrite Hrun. split; [reflexivity|exact Hexp].
Defined.

(** The most active of them is the second: a tie on likes, more dislikes. *)
Example most_active_of_three :
  handle (mostActive (lit "Tech")) threeRanked
    = (PostJson 200 (ranked 2 5 2 20), threeRanked).
Proof. vm_compute. reflexivity. Qed.

Lemma most_active_maximal_witness :
  ∃ p, handle (mostActive (lit "Tech")) threeRanked = (PostJson 200 p, threeRanked)
       ∧ ranksAtMost (ranked 1 5 1 10) p
       ∧ lit "Tech" ∈ topics p.
Proof.
  assert (Htopic : lit "Tech" ∈ TOPICS) by (vm_compute; do 3 right; left).
  assert (Hfirst : db threeRanked !! 1%N = Some (ranked 1 5 1 10))
    by (vm_compute; reflexivity).
  assert (Htagged : lit "Tech" ∈ topics (ranked 1 5 1 10))
    by (vm_compute; left).
  destruct (proj2 (most_active_maximal (lit "Tech") threeRanked Htopic))
    as (p & Hrun & _ & Ht & Hmax & _).
  { by exists 1%N, (ranked 1 5 1 10). }
  exists p. split; [exact Hrun|]. split; [|exact Ht].
  exact (Hmax 1%N _ Hfirst Htagged).
Defined.

(** The expired history of three posts expired at 100 < 200 < 300, with limit
    2 and skip 0: the two that expired last, the latest first. *)
Example expired_history_of_three :
  (handle (expiredHistory (lit "Sport") (JStr (lit "2")) (JStr (lit "0")))
     (worldOf [expiredAt 1 100; expiredAt 2 200; expiredAt 3 300] 500)).1
    = PostsJson 200 [expiredAt 3 300; expiredAt 2 200].
Proof. vm_compute. reflexivity. Qed.

(** Why the counters are compared with the number of users of an array and
    not with its length: on an array that holds a user twice, the toggle
    removes both entries and decrements the counter once. *)
Example duplicates_break_length_count :
  ∃ p, db (serve (ReqLike bob id1) (worldOf [post1_twice] 500)).2 !! 1%N = Some p
       ∧ dislikesCount post1_twice = Z.of_nat (length (dislikedBy post1_twice))
       ∧ dislikedBy p = []
       ∧ dislikesCount p = 1.
Proof. eexists. split; [vm_compute; reflexivity|]. by vm_compute. Qed.

(** The sample worlds meet the assumptions of the lifecycle theorems. *)
Lemma worldAt_wellKeyed t : wellKeyed (worldAt t).
Proof.
  intros k p Hp.
  change (db (worldAt t)) with (<[1%N := post1]> (∅ : gmap ObjectId Post)) in Hp.
  apply lookup_insert_Some in Hp as [[<- <-]|[_ Hp]]; [done|].
  by rewrite lookup_empty in Hp.
Qed.

Lemma worldAt_freshIds t : freshIds (worldAt t).
Proof.
  split.
  - intros n.
    change (db (worldAt t)) with (<[1%N := post1]> (∅ : gmap ObjectId Post)).
    rewrite lookup_insert_ne; [apply lookup_empty|].
    cbn [oids worldAt worldOf]. lia.
  - intros n m. cbn [oids worldAt worldOf]. lia.
Qed.

Lemma worldAt_monotone t : monotone (worldAt t).
Proof. intros n. cbn [clock worldAt worldOf]. lia. Qed.

Lemma worldAt_expiredForReal t : expiredForReal (worldAt t).
Proof.
  intros k p Hp.
  change (db (worldAt t)) with (<[1%N := post1]> (∅ : gmap ObjectId Post)) in Hp.
  apply lookup_insert_Some in Hp as [[_ <-]|[_ Hp]]; [discriminate|].
  by rewrite lookup_empty in Hp.
Qed.

Lemma worldAt_schemaValid t k p : db (worldAt t) !! k = Some p → schemaValid p.
Proof.
  intros Hp.
  change (db (worldAt t)) with (<[1%N := post1]> (∅ : gmap ObjectId Post)) in Hp.
  apply lookup_insert_Some in Hp as [[_ <-]|[_ Hp]];
    [|by rewrite lookup_empty in Hp].
  unfold schemaValid. cbn. split_and!; try lia; try done.
  constructor; [|constructor]. do 3 right. left.
Qed.

Lemma skipDocs_drops n : dropsOnly (cursor_skip n).
Proof. intros l. destruct n as [| |z]; cbn; [done..|apply sublist_drop]. Qed.

Lemma limitDocs_drops n : dropsOnly (cursor_limit n).
Proof.
  intros l. destruct n as [| |z]; cbn; [done..|].
  destruct z; [done|apply sublist_take..].
Qed.

(** Bob likes the post, Alice comments on it and creates another: the first
    post is still under its id, its comments extended. *)
Lemma posts_persist_witness :
  ∃ q', db (serveAll [ReqLike bob id1; ReqComment alice id1 (JStr (lit "hi"));
                      ReqCreate alice (JStr (lit "A title")) (JStr (lit "b"))
                        (JArr [JStr (lit "Tech")]) JUndefined JUndefined]
              (worldAt 500)) !! 1%N = Some q'
        ∧ evolves post1 q'.
Proof.
  apply (proj2 (proj2 (posts_persist
           [ReqLike bob id1; ReqComment alice id1 (JStr (lit "hi"));
            ReqCreate alice (JStr (lit "A title")) (JStr (lit "b"))
              (JArr [JStr (lit "Tech")]) JUndefined JUndefined]
           (worldAt 500) (worldAt_wellKeyed 500) (worldAt_freshIds 500)))
         1%N post1).
  vm_compute; reflexivity.
Defined.

(** At time 2000 the post has expired: votes, comments and reads leave it
    as it is, its stored status apart. *)
Lemma expired_is_final_witness :
  ∃ s, db (serveAll [ReqLike bob id1; ReqComment bob id1 (JStr (lit "hi"));
                     ReqGet id1; ReqDislike bob id1] (worldAt 2000)) !! 1%N
         = Some (set_status s post1).
Proof.
  apply (expired_is_final
           [ReqLike bob id1; ReqComment bob id1 (JStr (lit "hi"));
            ReqGet id1; ReqDislike bob id1]
           (worldAt 2000) 1%N post1
           (worldAt_wellKeyed 2000) (worldAt_freshIds 2000)
           (worldAt_monotone 2000)).
  - vm_compute; reflexivity.
  - vm_compute; discriminate.
Defined.

Lemma request_touches_one_post_witness :
  (∀ k, k ≠ toObjectId id1 →
     db (serve (ReqLike bob id1) (worldAt 500)).2 !! k = db (worldAt 500) !! k)
  ∧ (∀ k, is_Some (db (serve (ReqLike bob id1) (worldAt 500)).2 !! k)
          ↔ is_Some (db (worldAt 500) !! k)).
Proof.
  apply (request_touches_one_post (ReqLike bob id1) id1 (worldAt 500)).
  - reflexivity.
  - apply worldAt_wellKeyed.
Defined.

Lemma schema_kept_witness :
  ∃ p, db (serveAll [ReqLike bob id1; ReqComment alice id1 (JStr (lit "hi"))]
             (worldAt 500)) !! 1%N = Some p
       ∧ schemaValid p.
Proof.
  eexists. split; [vm_compute; reflexivity|].
  eapply (schema_kept [ReqLike bob id1; ReqComment alice id1 (JStr (lit "hi"))]
            (worldAt 500) (worldAt_schemaValid 500) 1%N).
  vm_compute; reflexivity.
Defined.

Lemma stored_expired_is_right_witness :
  expiredForReal (serveAll [ReqGet id1; ReqLike bob id1] (worldAt 2000)).
Proof.
  apply (proj2 (stored_expired_is_right [ReqGet id1; ReqLike bob id1]
                  (worldAt 2000) (worldAt_monotone 2000)
                  (worldAt_expiredForReal 2000))).
Defined.

Lemma votes_and_comments_apart_witness :
  (∀ i, comments <$> db (serve (ReqLike bob id1) (worldAt 500)).2 !! i
          = comments <$> db (worldAt 500) !! i)
  ∧ (∀ i, voteState
            <$> db (serve (ReqComment bob id1 (JStr (lit "hi"))) (worldAt 500)).2
                  !! i
          = voteState <$> db (worldAt 500) !! i).
Proof.
  destruct (votes_and_comments_apart bob id1 (JStr (lit "hi")) (worldAt 500)
              (worldAt_wellKeyed 500)) as (Hl & _ & Hc & _).
  split; [exact Hl|exact Hc].
Defined.

Lemma expired_history_sound_witness :
  ∃ posts,
    handle (expiredHistory (lit "Sport") (JStr (lit "2")) (JStr (lit "0")))
      (worldOf [expiredAt 1 100; expiredAt 2 200; expiredAt 3 300] 500)
      = (PostsJson 200 posts,
         worldOf [expiredAt 1 100; expiredAt 2 200; expiredAt 3 300] 500)
    ∧ StronglySorted (λ p q, expiresAt q ≤ expiresAt p) posts.
Proof.
  assert (Htopic : lit "Sport" ∈ TOPICS) by (vm_compute; do 2 right; left).
  destruct (expired_history_sound skipDocs_drops limitDocs_drops
              (lit "Sport") (JStr (lit "2")) (JStr (lit "0"))
              (worldOf [expiredAt 1 100; expiredAt 2 200; expiredAt 3 300] 500)
              Htopic) as (posts & Hrun & _ & Hsorted & _).
  exists posts. split; [exact Hrun|exact Hsorted].
Defined.

Lemma list_posts_filtered_witness :
  ∃ posts,
    handle (listPosts (JStr (lit "Tech")) (JStr (lit "Live")) JUndefined
              JUndefined) threeRanked = (PostsJson 200 posts, threeRanked)
    ∧ StronglySorted (λ p q, createdAt q ≤ createdAt p) posts.
Proof.
  destruct (proj2 (proj2 (list_posts_filtered skipDocs_drops limitDocs_drops
              (JStr (lit "Tech")) (JStr (lit "Live")) JUndefined JUndefined
              threeRanked))) as (posts & Hrun & _ & Hsorted).
  - intros (t & Ht & _ & Hout). injection Ht as <-.
    apply Hout. vm_compute. do 3 right. left.
  - intros (st & Hst & _ & Hout). injection Hst as <-.
    apply Hout. vm_compute. left.
  - exists posts. split; [exact Hrun|exact Hsorted].
Defined.

(** The three posts, the latest created first. *)
Example list_posts_of_three :
  (handle (listPosts (JStr (lit "Tech")) (JStr (lit "Live")) JUndefined
             JUndefined) threeRanked).1
    = PostsJson 200 [ranked 3 3 0 30; ranked 2 5 2 20; ranked 1 5 1 10].
Proof. vm_compute. reflexivity. Qed.

(** At time 2000 the post is stored as Live and resolves to Expired: the
    read saves it as Expired and returns the saved document. *)
Lemma get_post_refresh_witness :
  handle (getPost id1) (worldAt 2000)
    = (PostJson 200 (set_status Expired post1),
       written (set_status Expired post1) (tick (tick (worldAt 2000)))).
Proof.
  assert (Hid : isValidObjectId id1 = true) by (vm_compute; reflexivity).
  assert (Hfound : db (worldAt 2000) !! toObjectId id1 = Some post1)
    by (vm_compute; reflexivity).
  apply (proj2 (proj2 (get_post_refresh id1 (worldAt 2000) Hid) post1 Hfound)).
  vm_compute; discriminate.
Defined.

Lemma get_post_twice_witness :
  (handle (getPost id1) (worldAt 2000)).1
    = PostJson 200 (set_status Expired post1)
  ∧ handle (getPost id1) (handle (getPost id1) (worldAt 2000)).2
      = (PostJson 200 (set_status Expired post1),
         tick (handle (getPost id1) (worldAt 2000)).2).
Proof.
  assert (Hid : isValidObjectId id1 = true) by (vm_compute; reflexivity).
  assert (Hfound : db (worldAt 2000) !! toObjectId id1 = Some post1)
    by (vm_compute; reflexivity).
  assert (Hkey : _id post1 = toObjectId id1) by (vm_compute; reflexivity).
  apply (get_post_twice id1 (worldAt 2000) post1 Expired Hid Hfound Hkey).
  intros n. vm_compute; reflexivity.
Defined.

Lemma first_vote_recorded_witness :
  (serve (ReqLike bob id1) (worldAt 500)).1 = VoteJson 200 "Liked" 1 0
  ∧ (serve (ReqDislike bob id1) (worldAt 500)).1 = VoteJson 200 "Disliked" 0 1.
Proof.
  assert (Hid : isValidObjectId id1 = true) by (vm_compute; reflexivity).
  assert (Hfound : db (worldAt 500) !! toObjectId id1 = Some post1)
    by (vm_compute; reflexivity).
  assert (Hkey : _id post1 = toObjectId id1) by (vm_compute; reflexivity).
  assert (Hown : userId (owner post1) ≠ userId bob)
    by (vm_compute; discriminate).
  assert (Hst : statusAt (clock (worldAt 500) 0%nat) (Some (expiresAt post1))
                = Live) by (vm_compute; reflexivity).
  assert (Hl : userId bob ∉ likedBy post1) by apply not_elem_of_nil.
  assert (Hd : userId bob ∉ dislikedBy post1) by apply not_elem_of_nil.
  destruct (first_vote_recorded bob id1 (worldAt 500) post1
              Hid Hfound Hkey Hown Hst Hl Hd)
    as [(s & w' & Hlike & _) (s' & w'' & Hdislike & _)].
  rewrite Hlike, Hdislike. split; reflexivity.
Defined.

(** Bob likes the post twice: the second like is a duplicate. *)
Lemma repeated_vote_rejected_witness :
  (serve (ReqLike bob id1) (serve (ReqLike bob id1) (worldAt 500)).2).1
    = DuplicateLikeError.
Proof.
  assert (Hfirst : (serve (ReqLike bob id1) (worldAt 500)).1
                   = VoteJson 200 "Liked" 1 0) by (vm_compute; reflexivity).
  destruct (proj1 (repeated_vote_rejected bob id1 (worldAt 500)
                     (worldAt_wellKeyed 500)) 1 0 Hfirst)
    as (post & Hfound & Hsecond).
  rewrite Hsecond.
  assert (Hpost : Some post = Some post1)
    by (rewrite <- Hfound; vm_compute; reflexivity).
  injection Hpost as ->. vm_compute; reflexivity.
Defined.

(** Thirty minutes from time 500. *)
Lemma create_with_minutes_witness :
  (handle (createPost alice (JStr (lit "A title")) (JStr (lit "b"))
             (JArr [JStr (lit "Tech")]) (JStr (lit "30")) JUndefined)
     (worldAt 500)).1
    = PostJson 201
        (newPost 100 (lit "A title") [lit "Tech"] (lit "b") 500 1800500 Live
           alice).
Proof.
  destruct (proj1 (@create_with_minutes Sample.platform alice
                     (JStr (lit "A title")) (JStr (lit "b"))
                     (JArr [JStr (lit "Tech")]) (JStr (lit "30")) JUndefined
                     (worldAt 500)
                     ltac:(vm_compute; lia)
                     ltac:(vm_compute; lia)
                     ltac:(vm_compute; reflexivity)
                     ltac:(vm_compute; reflexivity))
              ltac:(vm_compute; split; discriminate)
              ltac:(vm_compute; discriminate)) as [Hrun _].
  rewrite Hrun. reflexivity.
Defined.

(** An expiration in the past: the post is created, stored as Expired. *)
Lemma create_with_expiresAt_witness :
  (handle (createPost alice (JStr (lit "A title")) (JStr (lit "b"))
             (JArr [JStr (lit "Tech")]) JUndefined (JNum 100))
     (worldAt 500)).1
    = PostJson 201
        (newPost 100 (lit "A title") [lit "Tech"] (lit "b") 500 100 Expired
           alice).
Proof.
  destruct (proj2 (@create_with_expiresAt Sample.platform alice
                     (JStr (lit "A title")) (JStr (lit "b"))
                     (JArr [JStr (lit "Tech")]) JUndefined (JNum 100)
                     (worldAt 500)
                     ltac:(vm_compute; lia)
                     ltac:(vm_compute; lia)
                     ltac:(vm_compute; reflexivity)
                     ltac:(vm_compute; reflexivity))
              100 ltac:(vm_compute; reflexivity)) as [Hrun _].
  rewrite Hrun. reflexivity.
Defined.

Lemma toInt_reads_integers_witness :
  toInt (JNum 30) 60 = 30 ∧ toInt (JStr (lit " 30min")) 60 = 30.
Proof.
  apply (proj2 (proj2 (toInt_reads_integers 30 60 (lit " ") (lit "min")
                         ltac:(vm_compute; reflexivity)
                         ltac:(vm_compute; reflexivity)))).
  vm_compute; discriminate.
Defined.

(** A title given as the number [1e21] prints as "1e+21", 5 code units, and
    is refused; minutes given as [1e21] are read as 1. *)
Example create_with_large_numbers :
  (handle (createPost alice (JNum (10 ^ 21)) (JStr (lit "b"))
             (JArr [JStr (lit "Tech")]) JUndefined JUndefined)
     (worldAt 500)).1
    = Error 400 "Title must be 6–120 characters"
  ∧ (handle (createPost alice (JStr (lit "A title")) (JStr (lit "b"))
               (JArr [JStr (lit "Tech")]) (JNum (10 ^ 21)) JUndefined)
       (worldAt 500)).1
      = PostJson 201
          (newPost 100 (lit "A title") [lit "Tech"] (lit "b") 500 60500 Live
             alice).
Proof. by vm_compute. Qed.

(** Numbers and digit strings beyond the safe integers, as [toInt] and
    [String] read them: [1e21] prints with an exponent, of which [parseInt]
    reads the 1; [2 ^ 53 + 1] is not a double. *)
Example numbers_beyond_safe :
  String_ (JNum (10 ^ 21)) = lit "1e+21"
  ∧ toInt (JNum (10 ^ 21)) 60 = 1
  ∧ String_ (JNum (2 ^ 64)) = lit "18446744073709552000"
  ∧ String_ (JNum (2 ^ 70)) = lit "1.1805916207174113e+21"
  ∧ toInt (JStr (lit "9007199254740993")) 60 = 9007199254740992
  ∧ String_ (JNum 9007199254740993) = lit "9007199254740992".
Proof. by vm_compute. Qed.

Lemma unparsable_limit_skip_witness :
  Z.min (toInt (JStr (lit "abc")) 20) 50 = 20
  ∧ Z.max (toInt (JStr (lit "abc")) 0) 0 = 0
  ∧ expiredLimit (JStr (lit "abc")) = NaN
  ∧ expiredSkip (JStr (lit "abc")) = NaN.
Proof.
  destruct (unparsable_limit_skip (JStr (lit "abc"))
              ltac:(vm_compute; reflexivity)) as (Hl & Hs & _ & Hnan).
  destruct (Hnan ltac:(vm_compute; reflexivity)) as [Hel Hes].
  split_and!; [exact Hl|exact Hs|exact Hel|exact Hes].
Defined.

(** Addresses the format accepts and refuses. *)
Example email_format_examples :
  regexTest emailFormat (lit "bob@example.org") = true
  ∧ regexTest emailFormat (lit "a@@b..c") = true
  ∧ regexTest emailFormat (lit "bob@example") = false
  ∧ regexTest emailFormat (lit "@example.org") = false
  ∧ regexTest emailFormat (lit "bob smith@example.org") = false.
Proof. by vm_compute. Qed.

(** Bob registers, then logs in with the address written another way; a
    wrong password and an unknown address are answered alike. *)
Example register_then_login :
  ∃ user token us,
    @respond accounts
      (register (JStr (lit " Bob ")) (JStr (lit "Bob@Example.org"))
         (JStr (lit "12345678"))) []
      = (UserJson 201 user token, us)
    ∧ Account.name user = lit "Bob"
    ∧ Account.email user = lit "bob@example.org"
    ∧ (@respond accounts
         (login (JStr (lit "BOB@example.org ")) (JStr (lit "12345678"))) us).1
        = UserJson 200 user token
    ∧ (@respond accounts
         (login (JStr (lit "bob@example.org")) (JStr (lit "1234567"))) us).1
        = AuthError 401 "Invalid credentials"
    ∧ (@respond accounts
         (login (JStr (lit "eve@example.org")) (JStr (lit "12345678"))) us).1
        = AuthError 401 "Invalid credentials"
    ∧ (@respond accounts
         (register (JStr (lit "Bobby")) (JStr (lit "bob@example.org"))
            (JStr (lit "abcdefgh"))) us).1
        = AuthError 409 "Email already registered".
Proof. do 3 eexists. by vm_compute. Qed.

End Examples.
